(** * Recipe assembly service: models and serializers

    A shallow embedding of [backend/recipes/models.py] and
    [backend/api/serializers.py].  The relational store is a record of
    tables; every table is the list of its rows in insertion order together
    with the next value of its primary-key sequence.  Code that touches the
    store is written in a state-and-exception monad; [transaction.atomic]
    is the combinator that restores the store when its body raises. *)

From stdpp Require Import base decidable option list sorting strings gmap.
From Stdlib Require Import ZArith Lia.

Local Open Scope Z_scope.

(** ** Rows (recipes/models.py) *)

(** Primary keys are the integer [id] column Django adds to every model. *)
Abbreviation pk := Z (only parsing).

(** [class Ingredients(models.Model)] *)
Record Ingredients := mkIngredients {
  ingredients_id : pk;
  ingredients_name : string;
  ingredients_measurement_unit : string
}.

(** [class Tags(models.Model)] *)
Record Tags := mkTags {
  tags_id : pk;
  tags_name : string;
  tags_color : string;
  tags_slug : string
}.

(** [class Recipes(models.Model)]; [author] is a foreign key to [User],
    the many-to-many fields [tags] and [ingredients] live in their own
    tables. *)
Record Recipes := mkRecipes {
  recipes_id : pk;
  recipes_name : string;
  recipes_text : string;
  recipes_image : string;
  recipes_cooking_time : Z;
  recipes_author : pk
}.

(** [class IngredientInRecipe(models.Model)], the [through] table of
    [Recipes.ingredients]. *)
Record IngredientInRecipe := mkIngredientInRecipe {
  iir_id : pk;
  iir_ingredient : pk;
  iir_recipe : pk;
  iir_amount : Z
}.

(** The table Django creates for [Recipes.tags = ManyToManyField(Tags)]. *)
Record RecipesTags := mkRecipesTags {
  rt_id : pk;
  rt_recipes : pk;
  rt_tags : pk
}.

(** [class BaseModelFavoriteCart(models.Model)] (abstract); [Favorite] and
    [Cart] inherit its two foreign keys and its constraint. *)
Record BaseModelFavoriteCart := mkFavoriteCart {
  fc_id : pk;
  fc_user : pk;
  fc_recipe : pk
}.

(** Modelled from the spec: [users/models.py] is not among the sources.
    A Subscription is a (user, author) pair, [user] follows [author]; the
    serializers name the reverse relation of [author] [following] (the
    lookup [author__following__user]) and that of [user] [follower]. *)
Record Subscribe := mkSubscribe {
  subscribe_id : pk;
  subscribe_user : pk;
  subscribe_author : pk
}.

Global Instance Ingredients_eq_dec : EqDecision Ingredients.
Proof. solve_decision. Defined.
Global Instance Tags_eq_dec : EqDecision Tags.
Proof. solve_decision. Defined.
Global Instance Recipes_eq_dec : EqDecision Recipes.
Proof. solve_decision. Defined.
Global Instance IngredientInRecipe_eq_dec : EqDecision IngredientInRecipe.
Proof. solve_decision. Defined.
Global Instance RecipesTags_eq_dec : EqDecision RecipesTags.
Proof. solve_decision. Defined.
Global Instance BaseModelFavoriteCart_eq_dec : EqDecision BaseModelFavoriteCart.
Proof. solve_decision. Defined.
Global Instance Subscribe_eq_dec : EqDecision Subscribe.
Proof. solve_decision. Defined.

(** ** Tables and the store *)

Record table (A : Type) := Table {
  rows : list A;
  next_pk : pk
}.
Arguments Table {A} _ _.
Arguments rows {A} _.
Arguments next_pk {A} _.

Class Model (A : Type) := { pk_of : A → pk }.

Global Instance Ingredients_model : Model Ingredients := {| pk_of := ingredients_id |}.
Global Instance Tags_model : Model Tags := {| pk_of := tags_id |}.
Global Instance Recipes_model : Model Recipes := {| pk_of := recipes_id |}.
Global Instance IngredientInRecipe_model : Model IngredientInRecipe := {| pk_of := iir_id |}.
Global Instance RecipesTags_model : Model RecipesTags := {| pk_of := rt_id |}.
Global Instance FavoriteCart_model : Model BaseModelFavoriteCart := {| pk_of := fc_id |}.
Global Instance Subscribe_model : Model Subscribe := {| pk_of := subscribe_id |}.

Record store := Store {
  tbl_ingredients : table Ingredients;
  tbl_tags : table Tags;
  tbl_recipes : table Recipes;
  tbl_iir : table IngredientInRecipe;
  tbl_recipes_tags : table RecipesTags;
  tbl_favorite : table BaseModelFavoriteCart;
  tbl_cart : table BaseModelFavoriteCart;
  tbl_subscribe : table Subscribe
}.

Definition empty_table {A} : table A := Table [] 1.

Definition empty_store : store :=
  Store empty_table empty_table empty_table empty_table
        empty_table empty_table empty_table empty_table.

Definition set_ingredients (t : table Ingredients) (s : store) : store :=
  Store t (tbl_tags s) (tbl_recipes s) (tbl_iir s) (tbl_recipes_tags s)
        (tbl_favorite s) (tbl_cart s) (tbl_subscribe s).
Definition set_tags (t : table Tags) (s : store) : store :=
  Store (tbl_ingredients s) t (tbl_recipes s) (tbl_iir s) (tbl_recipes_tags s)
        (tbl_favorite s) (tbl_cart s) (tbl_subscribe s).
Definition set_recipes (t : table Recipes) (s : store) : store :=
  Store (tbl_ingredients s) (tbl_tags s) t (tbl_iir s) (tbl_recipes_tags s)
        (tbl_favorite s) (tbl_cart s) (tbl_subscribe s).
Definition set_iir (t : table IngredientInRecipe) (s : store) : store :=
  Store (tbl_ingredients s) (tbl_tags s) (tbl_recipes s) t (tbl_recipes_tags s)
        (tbl_favorite s) (tbl_cart s) (tbl_subscribe s).
Definition set_recipes_tags (t : table RecipesTags) (s : store) : store :=
  Store (tbl_ingredients s) (tbl_tags s) (tbl_recipes s) (tbl_iir s) t
        (tbl_favorite s) (tbl_cart s) (tbl_subscribe s).
Definition set_favorite (t : table BaseModelFavoriteCart) (s : store) : store :=
  Store (tbl_ingredients s) (tbl_tags s) (tbl_recipes s) (tbl_iir s)
        (tbl_recipes_tags s) t (tbl_cart s) (tbl_subscribe s).
Definition set_cart (t : table BaseModelFavoriteCart) (s : store) : store :=
  Store (tbl_ingredients s) (tbl_tags s) (tbl_recipes s) (tbl_iir s)
        (tbl_recipes_tags s) (tbl_favorite s) t (tbl_subscribe s).
Definition set_subscribe (t : table Subscribe) (s : store) : store :=
  Store (tbl_ingredients s) (tbl_tags s) (tbl_recipes s) (tbl_iir s)
        (tbl_recipes_tags s) (tbl_favorite s) (tbl_cart s) t.

(** ** Exceptions *)

(** The five messages [RecipesSerializer.validate] can fail with. *)
Inductive detail :=
  | ingredients_required   (* 'ingredients': at least one ingredient is needed *)
  | ingredients_repeated   (* 'ingredients': ingredients must not repeat *)
  | amount_invalid         (* raised by validate_amount *)
  | tags_required          (* 'tags': at least one tag is needed *)
  | tags_repeated.         (* 'tags': tags must not repeat *)

Inductive model_name := M_Ingredients | M_Tags | M_Recipes.

Inductive exn :=
  | ValidationError (d : detail)
  | Http404 (m : model_name)       (* get_object_or_404 found no row *)
  | IntegrityError (c : string)    (* a constraint of the store is violated *)
  | KeyError (k : string)
  | ValueError                     (* int() of a string that is no number *)
  | NegativeIndex                  (* a queryset sliced with a negative bound *)
  | LimitOutOfRange.               (* the query fails in the store: its LIMIT
                                      does not fit a signed 64-bit integer *)

Global Instance detail_eq_dec : EqDecision detail.
Proof. solve_decision. Defined.
Global Instance model_name_eq_dec : EqDecision model_name.
Proof. solve_decision. Defined.
Global Instance exn_eq_dec : EqDecision exn.
Proof. solve_decision. Defined.

Definition is_validation_error (e : exn) : bool :=
  match e with ValidationError _ => true | _ => false end.
Definition is_not_found (e : exn) : bool :=
  match e with Http404 _ => true | _ => false end.

(** ** The store monad *)

Definition result (A : Type) : Type := (exn + A)%type.

Definition db (A : Type) : Type := store → result A * store.

Definition ret {A} (a : A) : db A := λ s, (inr a, s).
Definition raise {A} (e : exn) : db A := λ s, (inl e, s).
Definition bind {A B} (m : db A) (k : A → db B) : db B :=
  λ s, match m s with
       | (inl e, s') => (inl e, s')
       | (inr a, s') => k a s'
       end.
Definition gets {A} (f : store → A) : db A := λ s, (inr (f s), s).
Definition modify (f : store → store) : db unit := λ s, (inr tt, f s).
Definition lift {A} (r : result A) : db A := λ s, (r, s).

Notation "'let*' x := m 'in' k" := (bind m (λ x, k))
  (at level 10, x name, m at level 100, k at level 200).
Notation "m ;; k" := (bind m (λ _, k))
  (at level 100, k at level 200, right associativity).

(** [@transaction.atomic]: commit when the body returns, roll the store
    back to its state at entry when the body raises; the exception is
    re-raised. *)
Definition atomic {A} (body : db A) : db A :=
  λ s, match body s with
       | (inl e, _) => (inl e, s)
       | (inr a, s') => (inr a, s')
       end.

(** ** The object-relational layer *)

(** [models.UniqueConstraint(fields=..., name=...)]: [uc_same a b] holds
    when the rows [a] and [b] agree on every field of the constraint. *)
Record UniqueConstraint (A : Type) := mkUnique {
  uc_name : string;
  uc_same : A → A → bool
}.
Arguments mkUnique {A} _ _.
Arguments uc_name {A} _.
Arguments uc_same {A} _ _ _.

Section orm.
Context {A : Type} `{Model A}.

(** [queryset.get(id=x)]: the row whose primary key is [x], if any. *)
Definition objects_get (t : table A) (x : pk) : option A :=
  List.find (λ r, bool_decide (pk_of r = x)) (rows t).

(** [Meta.ordering = ('id',)] and [Meta.ordering = ('-id',)]. *)
Definition id_asc (a b : A) : Prop := pk_of a ≤ pk_of b.
Definition id_desc (a b : A) : Prop := pk_of b ≤ pk_of a.
Global Instance id_asc_dec a b : Decision (id_asc a b).
Proof. unfold id_asc. apply _. Defined.
Global Instance id_desc_dec a b : Decision (id_desc a b).
Proof. unfold id_desc. apply _. Defined.
Definition order_by_id (l : list A) : list A := merge_sort id_asc l.
Definition order_by_id_desc (l : list A) : list A := merge_sort id_desc l.

(** The first constraint of [cs] that the row [r] would violate. *)
Definition violated (cs : list (UniqueConstraint A)) (t : table A) (r : A)
  : option string :=
  uc_name <$> List.find (λ c, existsb (uc_same c r) (rows t)) cs.

(** INSERT: the row takes the next value of the sequence as its primary
    key; the store refuses it when a uniqueness constraint is violated. *)
Definition table_insert (cs : list (UniqueConstraint A)) (mk : pk → A)
    (t : table A) : result (A * table A) :=
  let r := mk (next_pk t) in
  match violated cs t r with
  | Some c => inl (IntegrityError c)
  | None => inr (r, Table (rows t ++ [r]) (next_pk t + 1))
  end.

(** DELETE ... WHERE [P]. *)
Definition table_delete (P : A → Prop) `{∀ r, Decision (P r)} (t : table A)
  : table A :=
  Table (filter (λ r, ¬ P r) (rows t)) (next_pk t).

(** [queryset.exists()] and [queryset.count()]. *)
Definition qs_exists (q : list A) : bool :=
  match q with [] => false | _ :: _ => true end.
End orm.

(** [for x in xs: body(x)] in the store monad. *)
Fixpoint for_each {A} (xs : list A) (body : A → db unit) : db unit :=
  match xs with
  | [] => ret tt
  | x :: xs' => body x ;; for_each xs' body
  end.

(** *** Constraints declared by the models *)

(** [Ingredients.Meta.constraints] *)
Definition Ingredients_constraints : list (UniqueConstraint Ingredients) :=
  [ mkUnique "unique ingredient"
      (λ a b, bool_decide (ingredients_name a = ingredients_name b) &&
              bool_decide (ingredients_measurement_unit a =
                           ingredients_measurement_unit b)) ].

(** [Tags]: [unique=True] on [name], [color] and [slug]. *)
Definition Tags_constraints : list (UniqueConstraint Tags) :=
  [ mkUnique "tags_name_key" (λ a b, bool_decide (tags_name a = tags_name b));
    mkUnique "tags_color_key" (λ a b, bool_decide (tags_color a = tags_color b));
    mkUnique "tags_slug_key" (λ a b, bool_decide (tags_slug a = tags_slug b)) ].

(** [IngredientInRecipe.Meta.constraints] *)
Definition IngredientInRecipe_constraints
  : list (UniqueConstraint IngredientInRecipe) :=
  [ mkUnique "unique ingredient in recipe"
      (λ a b, bool_decide (iir_ingredient a = iir_ingredient b) &&
              bool_decide (iir_recipe a = iir_recipe b)) ].

(** The unique pair of the automatic many-to-many table. *)
Definition RecipesTags_constraints : list (UniqueConstraint RecipesTags) :=
  [ mkUnique "recipes_tags_uniq"
      (λ a b, bool_decide (rt_recipes a = rt_recipes b) &&
              bool_decide (rt_tags a = rt_tags b)) ].

(** [BaseModelFavoriteCart.Meta.constraints]; the name is
    ['%(class)s_unique'], so ['favorite_unique'] and ['cart_unique']. *)
Definition FavoriteCart_constraints (class : string)
  : list (UniqueConstraint BaseModelFavoriteCart) :=
  [ mkUnique (class +:+ "_unique")
      (λ a b, bool_decide (fc_user a = fc_user b) &&
              bool_decide (fc_recipe a = fc_recipe b)) ].

(** Modelled from the spec: [users/models.py] is not among the sources;
    a Subscription is unique per (user, author) pair. *)
Definition Subscribe_constraints : list (UniqueConstraint Subscribe) :=
  [ mkUnique "subscribe_unique"
      (λ a b, bool_decide (subscribe_user a = subscribe_user b) &&
              bool_decide (subscribe_author a = subscribe_author b)) ].

(** A foreign key must point at an existing row. *)
Definition fk_check {A} `{Model A} (t : store → table A) (x : pk) (c : string)
  : db unit :=
  λ s, match objects_get (t s) x with
       | Some _ => (inr tt, s)
       | None => (inl (IntegrityError c), s)
       end.

(** [Model.objects.create(...)]: insert one row in the table read by [get]
    and written by [set]. *)
Definition objects_create {A} `{Model A} (get : store → table A)
    (set : table A → store → store) (cs : list (UniqueConstraint A))
    (mk : pk → A) : db A :=
  λ s, match table_insert cs mk (get s) with
       | inl e => (inl e, s)
       | inr (r, t) => (inr r, set t s)
       end.

(** *** Managers of the recipe models *)

(** [get_object_or_404(klass, id=x)] *)
Definition get_object_or_404 {A} `{Model A} (t : store → table A)
    (m : model_name) (x : pk) : db A :=
  λ s, match objects_get (t s) x with
       | Some r => (inr r, s)
       | None => (inl (Http404 m), s)
       end.

(** [IngredientInRecipe.objects.bulk_create([IngredientInRecipe(...)])]
    with a single row.  The foreign keys are checked here, at the insert;
    the store checks them when the transaction commits.  Inside [atomic] a
    violation raises IntegrityError and rolls back either way, and nothing
    is refused here that the commit would accept, whenever the recipe row
    is in the store before the first through row is written, as in [create]
    and in an [update] of a stored recipe. *)
Definition IngredientInRecipe_bulk_create1 (ingredient_id : pk)
    (recipe : Recipes) (amount : Z) : db unit :=
  fk_check tbl_ingredients ingredient_id "iir_ingredient_id_fk" ;;
  fk_check tbl_recipes (recipes_id recipe) "iir_recipe_id_fk" ;;
  let* _ := objects_create tbl_iir set_iir IngredientInRecipe_constraints
              (λ i, mkIngredientInRecipe i ingredient_id (recipes_id recipe)
                      amount) in
  ret tt.

(** [recipe.ingredientinrecipe_set.all()], in the order of
    [IngredientInRecipe.Meta.ordering]. *)
Definition ingredientinrecipe_set (rid : pk) (s : store)
  : list IngredientInRecipe :=
  order_by_id_desc
    (filter (λ r, iir_recipe r = rid) (rows (tbl_iir s))).

(** [recipe.ingredients.clear()]: delete every through row of the recipe. *)
Definition ingredients_clear (recipe : Recipes) : db unit :=
  modify (λ s, set_iir
    (table_delete (λ r, iir_recipe r = recipes_id recipe) (tbl_iir s)) s).

(** The rows of the many-to-many table that belong to one recipe. *)
Definition tags_through (rid : pk) (s : store) : list RecipesTags :=
  filter (λ l, rt_recipes l = rid) (rows (tbl_recipes_tags s)).

(** [recipe.tags.values_list('tags_id', flat=True)] *)
Definition tags_values_list (rid : pk) (s : store) : list pk :=
  rt_tags <$> tags_through rid s.

(** [recipe.tags.all()]: the tags joined with the recipe's through rows,
    in the order of [Tags.Meta.ordering]. *)
Definition tags_all (rid : pk) (s : store) : list Tags :=
  order_by_id
    (l ← tags_through rid s;
     filter (λ t, tags_id t = rt_tags l) (rows (tbl_tags s))).

(** [recipe.tags.remove] applied to the ids of a set. *)
Definition tags_remove (recipe : Recipes) (ids : gset Z) : db unit :=
  modify (λ s, set_recipes_tags
    (table_delete (λ l, rt_recipes l = recipes_id recipe ∧ rt_tags l ∈ ids)
       (tbl_recipes_tags s)) s).

(** One row of the many-to-many table, as [recipe.tags.add] creates it;
    the foreign keys are checked at the insert, as for the through rows. *)
Definition RecipesTags_bulk_create1 (recipe : Recipes) (tag : pk) : db unit :=
  fk_check tbl_tags tag "recipes_tags_tags_id_fk" ;;
  fk_check tbl_recipes (recipes_id recipe) "recipes_tags_recipes_id_fk" ;;
  let* _ := objects_create tbl_recipes_tags set_recipes_tags
              RecipesTags_constraints
              (λ i, mkRecipesTags i (recipes_id recipe) tag) in
  ret tt.

(** [recipe.tags.add] applied to a list of ids: the target ids are
    collected in a set, the ones already linked are left out, the others
    are inserted. *)
Definition tags_add (recipe : Recipes) (objs : list pk) : db unit :=
  let* vals := gets (tags_values_list (recipes_id recipe)) in
  let target_ids : gset Z := list_to_set objs in
  let missing : gset Z := target_ids ∖ list_to_set vals in
  for_each (elements missing) (RecipesTags_bulk_create1 recipe).

(** The loop of [recipe.tags.set]: an id already linked is struck from
    [old_ids], any other is appended to [new_objs]. *)
Fixpoint tags_set_split (objs : list pk) (old_ids : gset Z)
    (new_objs : list pk) : gset Z * list pk :=
  match objs with
  | [] => (old_ids, new_objs)
  | obj :: objs' =>
      if decide (obj ∈ old_ids)
      then tags_set_split objs' (old_ids ∖ {[obj]}) new_objs
      else tags_set_split objs' old_ids (new_objs ++ [obj])
  end.

(** [recipe.tags.set(objs)] *)
Definition tags_set (recipe : Recipes) (objs : list pk) : db unit :=
  let* vals := gets (tags_values_list (recipes_id recipe)) in
  let '(old_ids, new_objs) := tags_set_split objs (list_to_set vals) [] in
  tags_remove recipe old_ids ;;
  tags_add recipe new_objs.

(** [recipe.save()]: UPDATE the row with the recipe's primary key; INSERT
    it when no row has that key. *)
Definition Recipes_save (recipe : Recipes) : db unit :=
  modify (λ s,
    let t := tbl_recipes s in
    let same := λ x, bool_decide (recipes_id x = recipes_id recipe) in
    if existsb same (rows t)
    then set_recipes
           (Table ((λ x, if same x then recipe else x) <$> rows t) (next_pk t)) s
    else set_recipes (Table (rows t ++ [recipe]) (next_pk t)) s).

(** [recipe.delete()]: every foreign key to [Recipes] is declared with
    [on_delete=models.CASCADE], so the rows that reference the recipe are
    deleted with it.  [recipe] stands for an instance that carries its
    primary key; that Django clears the key of the Python object afterwards
    is not part of the store and is not modelled. *)
Definition Recipes_delete (recipe : Recipes) : db unit :=
  let rid := recipes_id recipe in
  modify (λ s,
    set_recipes (table_delete (λ r, recipes_id r = rid) (tbl_recipes s))
    (set_cart (table_delete (λ r, fc_recipe r = rid) (tbl_cart s))
    (set_favorite (table_delete (λ r, fc_recipe r = rid) (tbl_favorite s))
    (set_recipes_tags
       (table_delete (λ r, rt_recipes r = rid) (tbl_recipes_tags s))
    (set_iir (table_delete (λ r, iir_recipe r = rid) (tbl_iir s)) s))))).

(** ** Serializers (api/serializers.py) *)

(** What the serializers read from [self.context['request']]. *)
Record request := mkRequest {
  request_user : pk;
  request_GET : string → option string
}.

(** One entry of [initial_data['ingredients']]: [{'id': ..., 'amount': ...}]. *)
Record ingredient_item := mkItem {
  item_id : pk;
  item_amount : Z
}.

(** [self.initial_data]; [None] is a missing key. *)
Record initial_data := mkInitial {
  initial_ingredients : option (list ingredient_item);
  initial_tags : option (list pk)
}.

(** The [data] handed to [validate]: the scalar fields that passed field
    validation; under a partial update a field may be absent. *)
Record attrs := mkAttrs {
  attrs_name : option string;
  attrs_text : option string;
  attrs_image : option string;
  attrs_cooking_time : option Z
}.

(** [data] as [validate] returns it. *)
Record validated_data := mkValidated {
  data_attrs : attrs;
  data_author : pk;
  data_ingredients : list ingredient_item;
  data_tags : list pk
}.

(** [x in xs] on model instances: same primary key. *)
Definition model_in {A} `{Model A} (x : A) (xs : list A) : bool :=
  existsb (λ y, bool_decide (pk_of y = pk_of x)) xs.

(** [class ShortSerializer]: fields [id], [name], [image], [cooking_time].
    The image goes through the serializer's ImageField: [None] when the
    file name is empty, else [recipe.image.url], the URL the storage gives
    the file.  [get_recipes] builds the serializer without a context, so the
    URL is not made absolute.  [url] is the storage's map from file names to
    URLs; it depends on the settings. *)
Record ShortRecipe := mkShort {
  short_id : pk;
  short_name : string;
  short_image : option string;
  short_cooking_time : Z
}.

Definition ShortSerializer (url : string → string) (r : Recipes)
  : ShortRecipe :=
  mkShort (recipes_id r) (recipes_name r)
          (if decide (recipes_image r = "") then None
           else Some (url (recipes_image r)))
          (recipes_cooking_time r).

(** [obj.user.follower]: the subscriptions whose [user] is [u]. *)
Definition follower (u : pk) (s : store) : list Subscribe :=
  filter (λ f, subscribe_user f = u) (rows (tbl_subscribe s)).


(** [Recipes.objects.filter(author__following__user=u)]: the recipes joined
    with the subscriptions to their author whose [user] is [u], in the order
    of [Recipes.Meta.ordering]. *)
Definition Recipes_filter_following (u : pk) (s : store) : list Recipes :=
  order_by_id_desc
    (r ← rows (tbl_recipes s);
     (λ _, r) <$> filter (λ f, subscribe_author f = recipes_author r ∧
                               subscribe_user f = u)
                    (rows (tbl_subscribe s))).

Section serializers.
(** [recipes.validators.validate_amount]: [true] when the amount is
    accepted, [false] when a ValidationError is raised. *)
Variable validate_amount : Z → bool.
(** Python's [int] on a string; [None] is a ValueError. *)
Variable int : string → option Z.
(** [FieldFile.url]: the URL the storage gives a file name. *)
Variable url : string → string.

(** *** SubscribeSerializer *)

Definition get_is_subscribed (self : request) (obj : Subscribe) (s : store)
  : bool :=
  qs_exists (follower (subscribe_user obj) s).

(** The slice [queryset[:k]] raises at once for a negative [k]; otherwise
    it becomes the LIMIT of the query that [.data] runs, and the store
    refuses a LIMIT of 2^63 or more. *)
Definition get_recipes (self : request) (obj : Subscribe) (s : store)
  : result (list ShortRecipe) :=
  let queryset := Recipes_filter_following (subscribe_user obj) s in
  let recipes_limit := request_GET self "recipes_limit" in
  match recipes_limit with
  | Some (String c rest as str) =>
      match int str with
      | None => inl ValueError
      | Some k =>
          if bool_decide (k < 0) then inl NegativeIndex
          else if bool_decide (2 ^ 63 ≤ k) then inl LimitOutOfRange
          else inr (ShortSerializer url <$> take (Z.to_nat k) queryset)
      end
  | _ => inr (ShortSerializer url <$> queryset)
  end.


(** *** RecipesSerializer *)

(** The loop over [ingredients] in [validate]. *)
Fixpoint validate_ingredients (ingredients : list ingredient_item)
    (ingredients_list : list Ingredients) : db unit :=
  match ingredients with
  | [] => ret tt
  | ingredient_item :: rest =>
      let* ingredient := get_object_or_404 tbl_ingredients M_Ingredients
                           (item_id ingredient_item) in
      if model_in ingredient ingredients_list
      then raise (ValidationError ingredients_repeated)
      else if validate_amount (item_amount ingredient_item)
      then validate_ingredients rest (ingredients_list ++ [ingredient])
      else raise (ValidationError amount_invalid)
  end.

(** The loop over [tags] in [validate]. *)
Fixpoint validate_tags (tags : list pk) (tags_list : list Tags) : db unit :=
  match tags with
  | [] => ret tt
  | tag_item :: rest =>
      let* tag := get_object_or_404 tbl_tags M_Tags tag_item in
      if model_in tag tags_list
      then raise (ValidationError tags_repeated)
      else validate_tags rest (tags_list ++ [tag])
  end.

Definition validate (self : request) (init : initial_data) (data : attrs)
  : db validated_data :=
  match initial_ingredients init with
  | None | Some [] => raise (ValidationError ingredients_required)
  | Some ingredients =>
      validate_ingredients ingredients [] ;;
      match initial_tags init with
      | None | Some [] => raise (ValidationError tags_required)
      | Some tags =>
          validate_tags tags [] ;;
          ret (mkValidated data (request_user self) ingredients tags)
      end
  end.

Definition create_ingredients (ingredients : list ingredient_item)
    (recipe : Recipes) : db unit :=
  for_each ingredients (λ ingredient_item,
    IngredientInRecipe_bulk_create1 (item_id ingredient_item) recipe
      (item_amount ingredient_item)).

(** [Recipes.objects.create(image=image, **validated_data)]: an absent
    [name] or [text] takes the column default, an absent [cooking_time]
    is NULL in a NOT NULL column. *)
Definition Recipes_objects_create (image : string) (data : attrs)
    (author : pk) : db Recipes :=
  match attrs_cooking_time data with
  | None => raise (IntegrityError "recipes_cooking_time_not_null")
  | Some cooking_time =>
      objects_create tbl_recipes set_recipes []
        (λ i, mkRecipes i (default "" (attrs_name data))
                (default "" (attrs_text data)) image cooking_time author)
  end.

(** The body of [create]. *)
Definition create_body (validated_data : validated_data) : db Recipes :=
  let* image := match attrs_image (data_attrs validated_data) with
                | Some image => ret image
                | None => raise (KeyError "image")
                end in
  let ingredients := data_ingredients validated_data in
  let tags := data_tags validated_data in
  let* recipe := Recipes_objects_create image (data_attrs validated_data)
                   (data_author validated_data) in
  tags_set recipe tags ;;
  create_ingredients ingredients recipe ;;
  Recipes_save recipe ;;
  ret recipe.

(** [create], decorated with [@transaction.atomic]. *)
Definition create (validated_data : validated_data) : db Recipes :=
  atomic (create_body validated_data).

(** [ModelSerializer.update]: set every attribute left in
    [validated_data], then save. *)
Definition ModelSerializer_update (recipe : Recipes) (data : attrs)
    (author : pk) : db Recipes :=
  let recipe' :=
    mkRecipes (recipes_id recipe)
      (default (recipes_name recipe) (attrs_name data))
      (default (recipes_text recipe) (attrs_text data))
      (default (recipes_image recipe) (attrs_image data))
      (default (recipes_cooking_time recipe) (attrs_cooking_time data))
      author in
  Recipes_save recipe' ;;
  ret recipe'.

(** The body of [update]. *)
Definition update_body (recipe : Recipes) (validated_data : validated_data)
  : db Recipes :=
  ingredients_clear recipe ;;
  create_ingredients (data_ingredients validated_data) recipe ;;
  let tags := data_tags validated_data in
  tags_set recipe tags ;;
  ModelSerializer_update recipe (data_attrs validated_data)
    (data_author validated_data).

(** [update], decorated with [@transaction.atomic]. *)
Definition update (recipe : Recipes) (validated_data : validated_data)
  : db Recipes :=
  atomic (update_body recipe validated_data).

Definition delete (recipe : Recipes) : db unit :=
  Recipes_delete recipe.

(** *** The operations of the service: [is_valid()], then [save()] *)

Definition Create (self : request) (init : initial_data) (data : attrs)
  : db Recipes :=
  let* validated := validate self init data in
  create validated.

Definition Update (self : request) (recipe : Recipes) (init : initial_data)
    (data : attrs) : db Recipes :=
  let* validated := validate self init data in
  update recipe validated.

Definition Delete (recipe : Recipes) : db unit := delete recipe.
End serializers.

(** ** Other writers of the store *)

(** [Model.objects.create(...)] for the models that the views and the admin
    site write directly. *)
Definition Ingredients_objects_create (name measurement_unit : string)
  : db Ingredients :=
  objects_create tbl_ingredients set_ingredients Ingredients_constraints
    (λ i, mkIngredients i name measurement_unit).

Definition Tags_objects_create (name color slug : string) : db Tags :=
  objects_create tbl_tags set_tags Tags_constraints
    (λ i, mkTags i name color slug).

Definition Favorite_objects_create (user recipe : pk)
  : db BaseModelFavoriteCart :=
  fk_check tbl_recipes recipe "favorite_recipe_id_fk" ;;
  objects_create tbl_favorite set_favorite (FavoriteCart_constraints "favorite")
    (λ i, mkFavoriteCart i user recipe).

Definition Cart_objects_create (user recipe : pk) : db BaseModelFavoriteCart :=
  fk_check tbl_recipes recipe "cart_recipe_id_fk" ;;
  objects_create tbl_cart set_cart (FavoriteCart_constraints "cart")
    (λ i, mkFavoriteCart i user recipe).

Definition Subscribe_objects_create (user author : pk) : db Subscribe :=
  objects_create tbl_subscribe set_subscribe Subscribe_constraints
    (λ i, mkSubscribe i user author).

(** ** Reachable stores *)

Inductive operation :=
  | OpCreate (self : request) (init : initial_data) (data : attrs)
  | OpUpdate (self : request) (recipe : pk) (init : initial_data) (data : attrs)
  | OpDelete (recipe : pk)
  | OpIngredient (name measurement_unit : string)
  | OpTag (name color slug : string)
  | OpFavorite (user recipe : pk)
  | OpCart (user recipe : pk)
  | OpSubscribe (user author : pk).

Section reachable.
Variable validate_amount : Z → bool.

(** Update and Delete act on a recipe fetched from the store. *)
Definition run (o : operation) : db unit :=
  match o with
  | OpCreate self init data =>
      Create validate_amount self init data ;; ret tt
  | OpUpdate self rid init data =>
      let* recipe := get_object_or_404 tbl_recipes M_Recipes rid in
      Update validate_amount self recipe init data ;; ret tt
  | OpDelete rid =>
      let* recipe := get_object_or_404 tbl_recipes M_Recipes rid in
      Delete recipe
  | OpIngredient name measurement_unit =>
      Ingredients_objects_create name measurement_unit ;; ret tt
  | OpTag name color slug => Tags_objects_create name color slug ;; ret tt
  | OpFavorite user recipe => Favorite_objects_create user recipe ;; ret tt
  | OpCart user recipe => Cart_objects_create user recipe ;; ret tt
  | OpSubscribe user author => Subscribe_objects_create user author ;; ret tt
  end.

Inductive reachable : store → Prop :=
  | reachable_empty : reachable empty_store
  | reachable_step s o : reachable s → reachable (snd (run o s)).
End reachable.

(** ** Invariants of the store *)

(** Primary keys are unique and below the next value of the sequence. *)
Definition table_ok {A} `{Model A} (t : table A) : Prop :=
  NoDup (pk_of <$> rows t) ∧ Forall (λ r, pk_of r < next_pk t) (rows t).

(** No two rows of the table have the same [key]. *)
Definition unique_on {A K} (key : A → K) (t : table A) : Prop :=
  NoDup (key <$> rows t).

(** Every [fk] of a row of [child] is the primary key of a row of [parent]. *)
Definition references {A B} `{Model B} (fk : A → pk) (child : table A)
    (parent : table B) : Prop :=
  Forall (λ r, fk r ∈ pk_of <$> rows parent) (rows child).

Global Instance table_ok_dec {A} `{Model A} (t : table A) :
  Decision (table_ok t).
Proof. unfold table_ok. apply _. Defined.
Global Instance unique_on_dec {A K} `{EqDecision K} (key : A → K)
  (t : table A) : Decision (unique_on key t).
Proof. unfold unique_on. apply _. Defined.
Global Instance references_dec {A B} `{Model B} (fk : A → Z)
  (child : table A) (parent : table B) : Decision (references fk child parent).
Proof. unfold references. apply _. Defined.

Definition ingredient_key (r : Ingredients) : string * string :=
  (ingredients_name r, ingredients_measurement_unit r).
Definition iir_key (r : IngredientInRecipe) : pk * pk :=
  (iir_ingredient r, iir_recipe r).
Definition rt_key (r : RecipesTags) : pk * pk := (rt_recipes r, rt_tags r).
Definition fc_key (r : BaseModelFavoriteCart) : pk * pk :=
  (fc_user r, fc_recipe r).
Definition subscribe_key (r : Subscribe) : pk * pk :=
  (subscribe_user r, subscribe_author r).

Record store_ok (s : store) : Prop := mk_store_ok {
  ok_ingredients : table_ok (tbl_ingredients s);
  ok_tags : table_ok (tbl_tags s);
  ok_recipes : table_ok (tbl_recipes s);
  ok_iir : table_ok (tbl_iir s);
  ok_recipes_tags : table_ok (tbl_recipes_tags s);
  ok_favorite : table_ok (tbl_favorite s);
  ok_cart : table_ok (tbl_cart s);
  ok_subscribe : table_ok (tbl_subscribe s);
  uniq_ingredients : unique_on ingredient_key (tbl_ingredients s);
  uniq_tags_name : unique_on tags_name (tbl_tags s);
  uniq_tags_color : unique_on tags_color (tbl_tags s);
  uniq_tags_slug : unique_on tags_slug (tbl_tags s);
  uniq_iir : unique_on iir_key (tbl_iir s);
  uniq_recipes_tags : unique_on rt_key (tbl_recipes_tags s);
  uniq_favorite : unique_on fc_key (tbl_favorite s);
  uniq_cart : unique_on fc_key (tbl_cart s);
  uniq_subscribe : unique_on subscribe_key (tbl_subscribe s);
  fk_iir_ingredient : references iir_ingredient (tbl_iir s) (tbl_ingredients s);
  fk_iir_recipe : references iir_recipe (tbl_iir s) (tbl_recipes s);
  fk_rt_recipes : references rt_recipes (tbl_recipes_tags s) (tbl_recipes s);
  fk_rt_tags : references rt_tags (tbl_recipes_tags s) (tbl_tags s);
  fk_favorite_recipe : references fc_recipe (tbl_favorite s) (tbl_recipes s);
  fk_cart_recipe : references fc_recipe (tbl_cart s) (tbl_recipes s)
}.

(** A computation preserves [I] when the store it leaves satisfies [I],
    whether it returns or raises. *)
Definition preserves {A} (I : store → Prop) (m : db A) : Prop :=
  ∀ s, I s → I (snd (m s)).

(** A computation that leaves the part [f] of the store as it was. *)
Definition keeps {A B} (f : store → B) (m : db A) : Prop :=
  ∀ s, f (snd (m s)) = f s.

(** The invariant inside [create] and [update]: the store is well formed
    and the recipe being written has its row. *)
Definition ok_with (rid : Z) (s : store) : Prop :=
  store_ok s ∧ rid ∈ recipes_id <$> rows (tbl_recipes s).

(** A computation that only reads the store. *)
Definition read_only {A} (m : db A) : Prop := ∀ s, snd (m s) = s.

(** The rows [create_ingredients] appends, numbered from [n]. *)
Fixpoint new_iir (n : pk) (rid : pk) (items : list ingredient_item)
  : list IngredientInRecipe :=
  match items with
  | [] => []
  | x :: rest =>
      mkIngredientInRecipe n (item_id x) rid (item_amount x)
        :: new_iir (n + 1) rid rest
  end.

(** The rows [recipe.tags.add] appends, numbered from [n]. *)
Fixpoint new_rt (n : pk) (rid : pk) (tags : list pk) : list RecipesTags :=
  match tags with
  | [] => []
  | t :: rest => mkRecipesTags n rid t :: new_rt (n + 1) rid rest
  end.

(** The store after [create_ingredients] has returned. *)
Definition with_new_iir (rid : Z) (items : list ingredient_item) (s : store)
  : store :=
  set_iir (Table (rows (tbl_iir s) ++ new_iir (next_pk (tbl_iir s)) rid items)
             (next_pk (tbl_iir s) + Z.of_nat (length items))) s.

(** The store after [recipe.tags.add] has inserted the ids [tags]. *)
Definition with_new_rt (rid : Z) (tags : list Z) (s : store) : store :=
  set_recipes_tags
    (Table (rows (tbl_recipes_tags s) ++
            new_rt (next_pk (tbl_recipes_tags s)) rid tags)
       (next_pk (tbl_recipes_tags s) + Z.of_nat (length tags))) s.

(** What an entry and a through row say: which ingredient, how much. *)
Definition item_pair (x : ingredient_item) : pk * Z := (item_id x, item_amount x).
Definition iir_pair (r : IngredientInRecipe) : pk * Z :=
  (iir_ingredient r, iir_amount r).

(** The id of an entry, and a tag id, resolve to a row of the store. *)
Definition ingredient_exists (s : store) (x : ingredient_item) : Prop :=
  item_id x ∈ ingredients_id <$> rows (tbl_ingredients s).
Definition tag_exists (s : store) (t : Z) : Prop :=
  t ∈ tags_id <$> rows (tbl_tags s).

Global Instance ingredient_exists_dec s x : Decision (ingredient_exists s x).
Proof. unfold ingredient_exists. apply _. Defined.
Global Instance tag_exists_dec s t : Decision (tag_exists s t).
Proof. unfold tag_exists. apply _. Defined.

(** The list under a key of [initial_data]; a missing key counts as empty. *)
Definition entries (init : initial_data) : list ingredient_item :=
  default [] (initial_ingredients init).
Definition tag_ids (init : initial_data) : list Z :=
  default [] (initial_tags init).

(** The constraints [validate] puts on the ingredient entries and on the
    tag ids. *)
Definition ingredients_violation (validate_amount : Z → bool) (s : store)
    (init : initial_data) : Prop :=
  entries init = [] ∨
  ¬ Forall (ingredient_exists s) (entries init) ∨
  ¬ NoDup (item_id <$> entries init) ∨
  ¬ Forall (λ x, validate_amount (item_amount x) = true) (entries init).
Definition tags_violation (s : store) (init : initial_data) : Prop :=
  tag_ids init = [] ∨
  ¬ Forall (tag_exists s) (tag_ids init) ∨
  ¬ NoDup (tag_ids init).

(** The errors of [validate] that concern the ingredient entries. *)
Definition concerns_ingredients (e : exn) : bool :=
  match e with
  | ValidationError ingredients_required
  | ValidationError ingredients_repeated
  | ValidationError amount_invalid
  | Http404 M_Ingredients => true
  | _ => false
  end.

(** Modelled from the spec: [recipes/validators.py] is not among the
    sources.  [validate_amount] accepts 1 up to the configured maximum and
    rejects 0, negative values and values above the maximum. *)
Definition spec_validate_amount (configured_max : Z) (v : Z) : bool :=
  bool_decide (1 ≤ v ≤ configured_max).

(** The decimal fragment of Python's [int] on strings: an optional minus
    sign followed by ASCII digits. *)
Fixpoint digits_value (acc : Z) (str : string) : option Z :=
  match str with
  | EmptyString => Some acc
  | String c rest =>
      let d := Z.of_N (Ascii.N_of_ascii c) - 48 in
      if bool_decide (0 ≤ d ≤ 9) then digits_value (10 * acc + d) rest
      else None
  end.

Definition int_decimal (str : string) : option Z :=
  match str with
  | EmptyString => None
  | String c rest =>
      if bool_decide (Ascii.N_of_ascii c = 45%N)
      then match rest with
           | EmptyString => None
           | _ => Z.opp <$> digits_value 0 rest
           end
      else digits_value 0 str
  end.

(** ** Reading a recipe: the fields of [RecipesSerializer] *)

(** [class IngredientInRecipeSerializer]: [id], [name] and
    [measurement_unit] are read from the ingredient of the through row,
    [amount] from the row itself. *)
Record IngredientRead := mkIngredientRead {
  read_id : pk;
  read_name : string;
  read_measurement_unit : string;
  read_amount : Z
}.

Global Instance IngredientRead_eq_dec : EqDecision IngredientRead.
Proof. solve_decision. Defined.

(** One through row; [None] when the ingredient it points at is missing
    ([row.ingredient] raises DoesNotExist). *)
Definition IngredientInRecipeSerializer (s : store) (row : IngredientInRecipe)
  : option IngredientRead :=
  ingredient ← objects_get (tbl_ingredients s) (iir_ingredient row);
  Some (mkIngredientRead (ingredients_id ingredient)
          (ingredients_name ingredient)
          (ingredients_measurement_unit ingredient) (iir_amount row)).

(** The field [ingredients] of [RecipesSerializer]:
    [IngredientInRecipeSerializer(source='ingredientinrecipe_set',
    many=True)]. *)
Definition RecipesSerializer_ingredients (s : store) (recipe : Recipes)
  : option (list IngredientRead) :=
  mapM (IngredientInRecipeSerializer s)
    (ingredientinrecipe_set (recipes_id recipe) s).

(** The field [tags] of [RecipesSerializer]: [TagsSerializer(many=True)]
    with [fields = '__all__']. *)
Definition RecipesSerializer_tags (s : store) (recipe : Recipes) : list Tags :=
  tags_all (recipes_id recipe) s.

(** ** Deleting shared reference data *)

(** [ingredient.delete()]: [IngredientInRecipe.ingredient] is declared with
    [on_delete=models.CASCADE]. *)
Definition Ingredients_delete (ingredient : Ingredients) : db unit :=
  let iid := ingredients_id ingredient in
  modify (λ s,
    set_ingredients
      (table_delete (λ r, ingredients_id r = iid) (tbl_ingredients s))
    (set_iir (table_delete (λ r, iir_ingredient r = iid) (tbl_iir s)) s)).

(** ** The store a valid Create leaves *)

(** The recipe row [create] inserts. *)
Definition new_recipe (self : request) (data : attrs) (image : string)
    (cooking_time : Z) (s : store) : Recipes :=
  mkRecipes (next_pk (tbl_recipes s)) (default "" (attrs_name data))
    (default "" (attrs_text data)) image cooking_time (request_user self).

(** The recipe row, a link for every tag and a through row for every entry
    appended to their tables. *)
Definition created (recipe : Recipes) (items : list ingredient_item)
    (tags : list Z) (s : store) : store :=
  with_new_iir (recipes_id recipe) items
    (with_new_rt (recipes_id recipe) (elements (list_to_set tags : gset Z))
       (set_recipes (Table (rows (tbl_recipes s) ++ [recipe])
                       (next_pk (tbl_recipes s) + 1)) s)).

(** Everything that does not belong to the recipe [rid] is in [s'] as it is
    in [s]: the ingredients, tags, favorites, cart entries and
    subscriptions, and the rows, through rows and tag links of the other
    recipes. *)
Definition untouched_except (rid : Z) (s s' : store) : Prop :=
  tbl_ingredients s' = tbl_ingredients s ∧
  tbl_tags s' = tbl_tags s ∧
  tbl_favorite s' = tbl_favorite s ∧
  tbl_cart s' = tbl_cart s ∧
  tbl_subscribe s' = tbl_subscribe s ∧
  filter (λ r, recipes_id r ≠ rid) (rows (tbl_recipes s'))
    = filter (λ r, recipes_id r ≠ rid) (rows (tbl_recipes s)) ∧
  filter (λ r, iir_recipe r ≠ rid) (rows (tbl_iir s'))
    = filter (λ r, iir_recipe r ≠ rid) (rows (tbl_iir s)) ∧
  filter (λ l, rt_recipes l ≠ rid) (rows (tbl_recipes_tags s'))
    = filter (λ l, rt_recipes l ≠ rid) (rows (tbl_recipes_tags s)).

(** Every table of [s'] holds the rows it holds in [s]; only the sequences
    of primary keys may differ. *)
Definition same_rows (s s' : store) : Prop :=
  rows (tbl_ingredients s') = rows (tbl_ingredients s) ∧
  rows (tbl_tags s') = rows (tbl_tags s) ∧
  rows (tbl_recipes s') = rows (tbl_recipes s) ∧
  rows (tbl_iir s') = rows (tbl_iir s) ∧
  rows (tbl_recipes_tags s') = rows (tbl_recipes_tags s) ∧
  rows (tbl_favorite s') = rows (tbl_favorite s) ∧
  rows (tbl_cart s') = rows (tbl_cart s) ∧
  rows (tbl_subscribe s') = rows (tbl_subscribe s).

(** ** A small store for the examples

    Three ingredients, two tags, five recipes of author 20 and one of
    author 30; recipe 1 has the ingredients 1 (amount 2) and 2 (amount 3)
    and the tag 1; user 10 follows author 20 and has recipe 1 among the
    favorites and in the cart. *)
Definition demo_store : store :=
  Store
    (Table [mkIngredients 1 "salt" "g"; mkIngredients 2 "sugar" "g";
            mkIngredients 3 "oil" "ml"] 4)
    (Table [mkTags 1 "breakfast" "#E26C2D" "breakfast";
            mkTags 2 "dinner" "#49B64E" "dinner"] 3)
    (Table [mkRecipes 1 "porridge" "boil" "1.png" 10 20;
            mkRecipes 2 "omelette" "fry" "2.png" 5 20;
            mkRecipes 3 "pancakes" "bake" "3.png" 30 20;
            mkRecipes 4 "borscht" "stew" "4.png" 90 30;
            mkRecipes 5 "salad" "chop" "5.png" 15 20;
            mkRecipes 6 "toast" "toast" "6.png" 3 20] 7)
    (Table [mkIngredientInRecipe 1 1 1 2; mkIngredientInRecipe 2 2 1 3] 3)
    (Table [mkRecipesTags 1 1 1] 2)
    (Table [mkFavoriteCart 1 10 1] 2)
    (Table [mkFavoriteCart 1 10 1] 2)
    (Table [mkSubscribe 1 10 20] 2).

Definition demo_request : request :=
  mkRequest 10 (λ key, if bool_decide (key = "recipes_limit") then Some "2"
                       else None).


(** The URLs of a file storage with [MEDIA_URL = '/media/']. *)
Definition demo_url (name : string) : string := "/media/" +:+ name.

Definition demo_attrs : attrs :=
  mkAttrs (Some "soup") (Some "simmer") (Some "soup.png") (Some 40).

Definition demo_validate_amount : Z → bool := spec_validate_amount 32767.

(** Ingredients 1 and 2, tags 2 and 1: a valid input. *)
Definition demo_init : initial_data :=
  mkInitial (Some [mkItem 1 2; mkItem 2 3]) (Some [2; 1]).
(** Ingredient 3 alone, tag 2 alone: a valid input. *)
Definition demo_init_oil : initial_data :=
  mkInitial (Some [mkItem 3 1]) (Some [2]).
(** Ingredient 1 twice. *)
Definition demo_init_repeated : initial_data :=
  mkInitial (Some [mkItem 1 2; mkItem 1 3]) (Some [1]).
(** Ingredient 99 is not in the store. *)
Definition demo_init_missing : initial_data :=
  mkInitial (Some [mkItem 1 2; mkItem 99 1]) (Some [1]).
(** No tag, and an ingredient that is not in the store. *)
Definition demo_init_no_tags : initial_data :=
  mkInitial (Some [mkItem 99 1]) (Some []).
(** No ingredient, and a tag that is not in the store. *)
Definition demo_init_no_ingredients : initial_data :=
  mkInitial (Some []) (Some [99]).
(** Position 1 does not resolve, position 2 repeats position 0, no tag. *)
Definition demo_init_missing_then_repeated : initial_data :=
  mkInitial (Some [mkItem 1 2; mkItem 99 1; mkItem 1 1]) (Some []).
(** The same with amount 0 at position 0. *)
Definition demo_init_amount_first : initial_data :=
  mkInitial (Some [mkItem 1 0; mkItem 99 1; mkItem 1 1]) (Some [1]).

(** A store reached from the empty one: an ingredient, a tag, a recipe
    created with them, then a favorite and a cart entry of user 10. *)
Definition demo_operations : list operation :=
  [OpIngredient "salt" "g";
   OpTag "breakfast" "#E26C2D" "breakfast";
   OpCreate demo_request (mkInitial (Some [mkItem 1 5]) (Some [1])) demo_attrs;
   OpFavorite 10 1;
   OpCart 10 1].

Definition run_all (validate_amount : Z → bool) (ops : list operation)
    (s : store) : store :=
  foldl (λ s o, snd (run validate_amount o s)) s ops.

Definition demo_reached : store :=
  run_all demo_validate_amount demo_operations empty_store.

(** ** What a committed Create or Update has written *)

(** The recipe row, a link to every tag and a through row for every entry
    are in the store. *)
Definition persisted (s : store) (recipe : Recipes) (vd : validated_data)
  : Prop :=
  recipe ∈ rows (tbl_recipes s) ∧
  (∀ t, t ∈ data_tags vd → t ∈ tags_values_list (recipes_id recipe) s) ∧
  (∀ x, x ∈ data_ingredients vd →
     ∃ r, r ∈ rows (tbl_iir s) ∧ iir_recipe r = recipes_id recipe ∧
          iir_pair r = item_pair x).

(** The recipe carries every scalar field of the validated data. *)
Definition scalars_set (recipe : Recipes) (vd : validated_data) : Prop :=
  (∀ v, attrs_name (data_attrs vd) = Some v → recipes_name recipe = v) ∧
  (∀ v, attrs_text (data_attrs vd) = Some v → recipes_text recipe = v) ∧
  (∀ v, attrs_image (data_attrs vd) = Some v → recipes_image recipe = v) ∧
  (∀ v, attrs_cooking_time (data_attrs vd) = Some v →
        recipes_cooking_time recipe = v) ∧
  recipes_author recipe = data_author vd.

(** Either the computation raises and the store is as before, or it
    returns and [Q] holds of the result and the new store. *)
Definition all_or_nothing {A} (m : db A) (s : store)
    (Q : A → store → Prop) : Prop :=
  match m s with
  | (inl _, s') => s' = s
  | (inr a, s') => Q a s'
  end.

(** What [validate] returns on a valid input. *)
Definition validated (self : request) (init : initial_data) (data : attrs)
  : validated_data :=
  mkValidated data (request_user self) (entries init) (tag_ids init).

(** Validated data with ingredient 1 twice: the second through row
    violates the unique pair of [IngredientInRecipe]. *)
Definition demo_validated_repeated : validated_data :=
  mkValidated demo_attrs 10 [mkItem 1 2; mkItem 1 3] [1].

(** * Properties *)

(** ** The object-relational layer *)

Section orm_facts.
Context {A : Type} `{Model A}.
Implicit Types (t : table A) (r : A) (x : Z).

Lemma objects_get_Some t x r :
  objects_get t x = Some r → r ∈ rows t ∧ pk_of r = x.
Proof.
  unfold objects_get. intros Hf. apply find_some in Hf as [Hin Hb].
  apply bool_decide_eq_true in Hb. split; [by apply list_elem_of_In|done].
Qed.

Lemma objects_get_None t x : objects_get t x = None ↔ x ∉ pk_of <$> rows t.
Proof.
  split.
  - intros Hf (r & -> & Hin)%list_elem_of_fmap.
    apply list_elem_of_In in Hin. apply (find_none _ _ Hf r) in Hin.
    by apply bool_decide_eq_false in Hin.
  - intros Hn. destruct (objects_get t x) as [r|] eqn:E; [|done].
    apply objects_get_Some in E as [Hin <-].
    exfalso. apply Hn, list_elem_of_fmap. eauto.
Qed.

Lemma objects_get_is_Some t x :
  is_Some (objects_get t x) ↔ x ∈ pk_of <$> rows t.
Proof.
  destruct (objects_get t x) as [r|] eqn:E.
  - split; [intros _|by eauto]. apply objects_get_Some in E as [Hin <-].
    by apply list_elem_of_fmap_2.
  - split; [by intros [? ?]|]. intros Hin. by apply objects_get_None in E.
Qed.

(** With unique keys, the row found is the only row with that key. *)
Lemma filter_pk_unique t x r :
  NoDup (pk_of <$> rows t) → objects_get t x = Some r →
  filter (λ y, pk_of y = x) (rows t) = [r].
Proof.
  unfold objects_get. induction (rows t) as [|y l IH]; simpl; [done|].
  intros [Hy Hl]%NoDup_cons. case_bool_decide as Hp.
  - intros [= ->]. rewrite filter_cons_True by done. f_equal.
    clear IH. induction l as [|z l IH]; [done|].
    rewrite filter_cons_False.
    + apply IH.
      * intros Hin. apply Hy. simpl. apply elem_of_cons. by right.
      * by apply NoDup_cons in Hl as [_ ?].
    + intros Hz. apply Hy. simpl. apply elem_of_cons. left. congruence.
  - intros Hf. rewrite filter_cons_False by done. by apply IH.
Qed.

Lemma violated_None (cs : list (UniqueConstraint A)) t r :
  violated cs t r = None ↔
  Forall (λ c, Forall (λ y, uc_same c r y = false) (rows t)) cs.
Proof.
  unfold violated. induction cs as [|c cs IH]; simpl.
  - split; [constructor|done].
  - destruct (existsb (uc_same c r) (rows t)) eqn:E; simpl.
    + split; [done|]. intros [Hc _]%Forall_cons.
      apply existsb_exists in E as (y & Hin & Hy).
      rewrite Forall_forall in Hc.
      rewrite (Hc y) in Hy; [done|by apply list_elem_of_In].
    + rewrite IH, Forall_cons. split; [|tauto].
      intros Hcs. split; [|done]. apply Forall_forall. intros y Hin.
      destruct (uc_same c r y) eqn:Ey; [|done].
      assert (existsb (uc_same c r) (rows t) = true) as Hex; [|congruence].
      apply existsb_exists. exists y. split; [by apply list_elem_of_In|done].
Qed.

Lemma violated_Some (cs : list (UniqueConstraint A)) t r c y :
  c ∈ cs → y ∈ rows t → uc_same c r y = true →
  is_Some (violated cs t r).
Proof.
  intros Hc Hy Hs. destruct (violated cs t r) eqn:E; [by eauto|].
  apply violated_None in E. rewrite Forall_forall in E.
  specialize (E c Hc). rewrite Forall_forall in E. rewrite (E y Hy) in Hs.
  done.
Qed.

Lemma table_insert_ok cs (mk : Z → A) t :
  (∀ i, pk_of (mk i) = i) → table_ok t →
  violated cs t (mk (next_pk t)) = None →
  table_ok (Table (rows t ++ [mk (next_pk t)]) (next_pk t + 1)).
Proof.
  intros Hmk [Hnd Hlt] _. split; simpl.
  - rewrite fmap_app. apply NoDup_app. split; [done|]. split.
    + intros x Hx. simpl. rewrite Hmk, list_elem_of_singleton. intros ->.
      apply list_elem_of_fmap in Hx as (r & Hr & Hin).
      rewrite Forall_forall in Hlt. specialize (Hlt r Hin). lia.
    + simpl. apply NoDup_singleton.
  - apply Forall_app. split.
    + eapply Forall_impl; [done|]. simpl. intros; lia.
    + constructor; [|done]. rewrite Hmk. lia.
Qed.

Lemma table_delete_ok (P : A → Prop) `{∀ r, Decision (P r)} t :
  table_ok t → table_ok (table_delete P t).
Proof.
  intros [Hnd Hlt]. split; simpl.
  - clear Hlt. induction (rows t) as [|y l IH]; [done|].
    simpl in Hnd. apply NoDup_cons in Hnd as [Hy Hl].
    rewrite filter_cons. destruct (decide (¬ P y)); [|by apply IH].
    simpl. apply NoDup_cons. split; [|by apply IH].
    intros (z & Hz & Hin)%list_elem_of_fmap.
    apply list_elem_of_filter in Hin as [_ Hin].
    apply Hy, list_elem_of_fmap. eauto.
  - apply Forall_forall. intros r [_ Hin]%list_elem_of_filter.
    rewrite Forall_forall in Hlt. by apply Hlt.
Qed.

Lemma unique_on_delete {K} (key : A → K) (P : A → Prop)
    `{∀ r, Decision (P r)} t :
  unique_on key t → unique_on key (table_delete P t).
Proof.
  unfold unique_on. simpl. induction (rows t) as [|y l IH]; [done|].
  simpl. intros [Hy Hl]%NoDup_cons.
  rewrite filter_cons. destruct (decide (¬ P y)); [|by apply IH].
  simpl. apply NoDup_cons. split; [|by apply IH].
  intros (z & Hz & Hin)%list_elem_of_fmap.
  apply list_elem_of_filter in Hin as [_ Hin].
  apply Hy, list_elem_of_fmap. eauto.
Qed.

Lemma unique_on_insert {K} (key : A → K) t r n :
  unique_on key t → key r ∉ key <$> rows t →
  unique_on key (Table (rows t ++ [r]) n).
Proof.
  unfold unique_on. simpl. intros Hnd Hr. rewrite fmap_app.
  apply NoDup_app. split; [done|]. split; [|apply NoDup_singleton].
  intros k Hk. simpl. rewrite list_elem_of_singleton. by intros ->.
Qed.
End orm_facts.

(** ** The store monad *)

Ltac unfold_db :=
  unfold bind, ret, raise, gets, modify, lift, get_object_or_404, fk_check,
    objects_create in *.

Lemma preserves_ret {A} (I : store → Prop) (a : A) : preserves I (ret a).
Proof. by intros s. Qed.

Lemma preserves_raise {A} (I : store → Prop) e : preserves I (@raise A e).
Proof. by intros s. Qed.

Lemma preserves_gets {A} (I : store → Prop) (f : store → A) :
  preserves I (gets f).
Proof. by intros s. Qed.

Lemma preserves_bind {A B} (I : store → Prop) (m : db A) (k : A → db B) :
  preserves I m → (∀ a, preserves I (k a)) → preserves I (bind m k).
Proof.
  intros Hm Hk s Hs. unfold bind. specialize (Hm s Hs).
  destruct (m s) as [[e|a] s']; simpl in *; [done|]. by apply Hk.
Qed.

Lemma preserves_for_each {A} (I : store → Prop) (xs : list A) body :
  (∀ x, preserves I (body x)) → preserves I (for_each xs body).
Proof.
  intros Hb. induction xs as [|x xs IH]; simpl.
  - apply preserves_ret.
  - apply preserves_bind; [apply Hb|]. intros _. apply IH.
Qed.

Lemma preserves_atomic {A} (I : store → Prop) (m : db A) :
  preserves I m → preserves I (atomic m).
Proof.
  intros Hm s Hs. unfold atomic. specialize (Hm s Hs).
  by destruct (m s) as [[e|a] s'].
Qed.

Lemma preserves_read_only {A} (I : store → Prop) (m : db A) :
  read_only m → preserves I m.
Proof. intros Hm s Hs. by rewrite Hm. Qed.

Lemma preserves_get_object_or_404 {A} `{Model A} (I : store → Prop) t m x :
  preserves I (get_object_or_404 t m x).
Proof. intros s Hs. unfold_db. by destruct (objects_get (t s) x). Qed.

Lemma preserves_fk_check {A} `{Model A} (I : store → Prop) t x c :
  preserves I (fk_check t x c).
Proof. intros s Hs. unfold_db. by destruct (objects_get (t s) x). Qed.

(** [atomic] is all or nothing. *)
Lemma atomic_raises {A} (m : db A) s e s' :
  atomic m s = (inl e, s') → s' = s.
Proof. unfold atomic. destruct (m s) as [[?|?] ?]; intros [=]; by subst. Qed.

Lemma atomic_returns {A} (m : db A) s a s' :
  atomic m s = (inr a, s') ↔ m s = (inr a, s').
Proof.
  unfold atomic. destruct (m s) as [[?|?] ?]; split; intros [=]; by subst.
Qed.

Lemma model_in_spec {A} `{Model A} (x : A) (xs : list A) :
  model_in x xs = true ↔ pk_of x ∈ pk_of <$> xs.
Proof.
  unfold model_in. rewrite existsb_exists. split.
  - intros (y & Hin & Hy). apply bool_decide_eq_true in Hy. rewrite <- Hy.
    apply list_elem_of_fmap_2. by apply list_elem_of_In.
  - intros (y & Hy & Hin)%list_elem_of_fmap. exists y.
    split; [by apply list_elem_of_In|]. by apply bool_decide_eq_true.
Qed.

Lemma model_in_false {A} `{Model A} (x : A) (xs : list A) :
  model_in x xs = false ↔ pk_of x ∉ pk_of <$> xs.
Proof.
  rewrite <- model_in_spec. destruct (model_in x xs); split; congruence.
Qed.

(** ** Validation *)

(** The tag loop only reads, and fails in one of two ways. *)
Lemma validate_tags_shape tags acc s :
  ∃ r, validate_tags tags acc s = (r, s) ∧
    match r with
    | inr _ => True
    | inl e => e = Http404 M_Tags ∨ e = ValidationError tags_repeated
    end.
Proof.
  revert acc. induction tags as [|t tags IH]; intros acc; simpl.
  - by exists (inr tt).
  - unfold_db. destruct (objects_get (tbl_tags s) t) as [g|].
    + destruct (model_in g acc); [eexists; split; [done|]; simpl; tauto|].
      apply IH.
    + eexists; split; [done|]; simpl; tauto.
Qed.

Lemma validate_tags_ok tags acc s :
  validate_tags tags acc s = (inr tt, s) ↔
  Forall (tag_exists s) tags ∧ NoDup tags ∧
  (∀ t, t ∈ tags → t ∉ tags_id <$> acc).
Proof.
  revert acc. induction tags as [|t tags IH]; intros acc; simpl.
  - split; [intros _|done]. repeat split; try constructor.
    intros x Hx. by apply elem_of_nil in Hx.
  - unfold_db. unfold tag_exists at 1.
    destruct (objects_get (tbl_tags s) t) as [g|] eqn:Eg.
    + apply objects_get_Some in Eg as Hg. destruct Hg as [Hgin Hgpk].
      simpl in Hgpk.
      destruct (model_in g acc) eqn:Em.
      { split; [done|]. intros (_ & _ & Hacc). exfalso.
        apply model_in_spec in Em. simpl in Em. rewrite Hgpk in Em.
        apply (Hacc t); [apply elem_of_cons; by left|done]. }
      apply model_in_false in Em. simpl in Em. rewrite Hgpk in Em.
      rewrite IH, !Forall_cons, NoDup_cons. split.
      * intros (He & Hnd & Hacc). repeat split; try done.
        -- rewrite <- Hgpk. by apply (list_elem_of_fmap_2 tags_id).
        -- intros Hin. apply (Hacc t Hin).
           rewrite fmap_app, elem_of_app. right. simpl. rewrite Hgpk.
           by apply list_elem_of_singleton.
        -- intros y [->|Hy]%elem_of_cons; [done|].
           specialize (Hacc y Hy). rewrite fmap_app, elem_of_app in Hacc.
           tauto.
      * intros ((_ & He) & (Hx & Hnd) & Hacc). repeat split; try done.
        intros y Hy. rewrite fmap_app, elem_of_app. simpl.
        rewrite Hgpk, list_elem_of_singleton. intros [Hin|Heq].
        -- apply (Hacc y); [apply elem_of_cons; by right|done].
        -- by subst.
    + split; [done|]. rewrite !Forall_cons. intros ([He _] & _).
      apply objects_get_None in Eg. done.
Qed.

Lemma validate_tags_404 tags acc s m s' :
  validate_tags tags acc s = (inl (Http404 m), s') →
  ∃ t, t ∈ tags ∧ ¬ tag_exists s t.
Proof.
  revert acc. induction tags as [|t tags IH]; intros acc; simpl.
  - unfold_db. intros [=].
  - unfold_db. destruct (objects_get (tbl_tags s) t) as [g|] eqn:Eg.
    + destruct (model_in g acc); [intros [=]|].
      intros (y & Hy & He)%IH. exists y. split; [|done].
      apply elem_of_cons. by right.
    + intros _. exists t. split; [apply elem_of_cons; by left|].
      by apply objects_get_None in Eg.
Qed.

Lemma validate_tags_repeated tags acc s s' :
  validate_tags tags acc s = (inl (ValidationError tags_repeated), s') →
  ¬ (NoDup tags ∧ ∀ t, t ∈ tags → t ∉ tags_id <$> acc).
Proof.
  revert acc. induction tags as [|t tags IH]; intros acc; simpl.
  - unfold_db. intros [=].
  - unfold_db. destruct (objects_get (tbl_tags s) t) as [g|] eqn:Eg;
      [|intros [=]].
    apply objects_get_Some in Eg as [_ Hgpk]. simpl in Hgpk.
    destruct (model_in g acc) eqn:Em.
    + intros _ [_ Hacc]. apply model_in_spec in Em. simpl in Em.
      rewrite Hgpk in Em. apply (Hacc t); [apply elem_of_cons; by left|done].
    + intros Hr%IH [[Hx Hnd]%NoDup_cons Hacc]. apply Hr. split; [done|].
      intros y Hy. rewrite fmap_app, elem_of_app. simpl.
      rewrite Hgpk, list_elem_of_singleton. intros [Hin|Heq].
      * apply (Hacc y); [apply elem_of_cons; by right|done].
      * by subst.
Qed.

Section validate_facts.
Variable validate_amount : Z → bool.

(** The ingredient loop only reads, and fails in one of three ways. *)
Lemma validate_ingredients_shape items acc s :
  ∃ r, validate_ingredients validate_amount items acc s = (r, s) ∧
    match r with
    | inr _ => True
    | inl e => e = Http404 M_Ingredients ∨
               e = ValidationError ingredients_repeated ∨
               e = ValidationError amount_invalid
    end.
Proof.
  revert acc. induction items as [|x items IH]; intros acc; simpl.
  - by exists (inr tt).
  - unfold_db. destruct (objects_get (tbl_ingredients s) (item_id x)) as [g|].
    + destruct (model_in g acc); [eexists; split; [done|]; simpl; tauto|].
      destruct (validate_amount (item_amount x)); [apply IH|].
      eexists; split; [done|]; simpl; tauto.
    + eexists; split; [done|]; simpl; tauto.
Qed.

Lemma validate_ingredients_ok items acc s :
  validate_ingredients validate_amount items acc s = (inr tt, s) ↔
  Forall (ingredient_exists s) items ∧
  Forall (λ x, validate_amount (item_amount x) = true) items ∧
  NoDup (item_id <$> items) ∧
  (∀ x, x ∈ items → item_id x ∉ ingredients_id <$> acc).
Proof.
  revert acc. induction items as [|x items IH]; intros acc; simpl.
  - split; [intros _|done]. repeat split; try constructor.
    intros x Hx. by apply elem_of_nil in Hx.
  - unfold_db. unfold ingredient_exists at 1.
    destruct (objects_get (tbl_ingredients s) (item_id x)) as [g|] eqn:Eg.
    + apply objects_get_Some in Eg as Hg. destruct Hg as [Hgin Hgpk].
      simpl in Hgpk.
      destruct (model_in g acc) eqn:Em.
      { split; [done|]. intros (_ & _ & _ & Hacc). exfalso.
        apply model_in_spec in Em. simpl in Em. rewrite Hgpk in Em.
        apply (Hacc x); [apply elem_of_cons; by left|done]. }
      apply model_in_false in Em. simpl in Em. rewrite Hgpk in Em.
      destruct (validate_amount (item_amount x)) eqn:Ev.
      * rewrite IH, !Forall_cons, NoDup_cons. split.
        -- intros (He & Hv & Hnd & Hacc). repeat split; try done.
           ++ rewrite <- Hgpk. by apply (list_elem_of_fmap_2 ingredients_id).
           ++ intros (y & Hy & Hin)%list_elem_of_fmap.
              apply (Hacc y Hin). rewrite fmap_app, elem_of_app. right.
              simpl. rewrite Hgpk, Hy. apply list_elem_of_singleton. done.
           ++ intros y [->|Hy]%elem_of_cons; [done|].
              specialize (Hacc y Hy). rewrite fmap_app, elem_of_app in Hacc.
              tauto.
        -- intros ((_ & He) & (_ & Hv) & (Hx & Hnd) & Hacc).
           repeat split; try done. intros y Hy.
           rewrite fmap_app, elem_of_app. simpl.
           rewrite Hgpk, list_elem_of_singleton. intros [Hin|Heq].
           ++ apply (Hacc y); [apply elem_of_cons; by right|done].
           ++ apply Hx. rewrite <- Heq. by apply list_elem_of_fmap_2.
      * split; [done|]. rewrite !Forall_cons. intros (_ & [Hv _] & _).
        congruence.
    + split; [done|]. rewrite !Forall_cons. intros ([He _] & _).
      apply objects_get_None in Eg. done.
Qed.
Lemma validate_ingredients_404 items acc s m s' :
  validate_ingredients validate_amount items acc s = (inl (Http404 m), s') →
  ∃ x, x ∈ items ∧ ¬ ingredient_exists s x.
Proof.
  revert acc. induction items as [|x items IH]; intros acc; simpl.
  - unfold_db. intros [=].
  - unfold_db.
    destruct (objects_get (tbl_ingredients s) (item_id x)) as [g|] eqn:Eg.
    + destruct (model_in g acc); [intros [=]|].
      destruct (validate_amount (item_amount x)); [|intros [=]].
      intros (y & Hy & He)%IH. exists y. split; [|done].
      apply elem_of_cons. by right.
    + intros _. exists x. split; [apply elem_of_cons; by left|].
      by apply objects_get_None in Eg.
Qed.

Lemma validate_ingredients_repeated items acc s s' :
  validate_ingredients validate_amount items acc s
    = (inl (ValidationError ingredients_repeated), s') →
  ¬ (NoDup (item_id <$> items) ∧
     ∀ x, x ∈ items → item_id x ∉ ingredients_id <$> acc).
Proof.
  revert acc. induction items as [|x items IH]; intros acc; simpl.
  - unfold_db. intros [=].
  - unfold_db.
    destruct (objects_get (tbl_ingredients s) (item_id x)) as [g|] eqn:Eg;
      [|intros [=]].
    apply objects_get_Some in Eg as [_ Hgpk]. simpl in Hgpk.
    destruct (model_in g acc) eqn:Em.
    + intros _ [_ Hacc]. apply model_in_spec in Em. simpl in Em.
      rewrite Hgpk in Em. apply (Hacc x); [apply elem_of_cons; by left|done].
    + destruct (validate_amount (item_amount x)); [|intros [=]].
      intros Hr%IH [[Hx Hnd]%NoDup_cons Hacc]. apply Hr. split; [done|].
      intros y Hy. rewrite fmap_app, elem_of_app. simpl.
      rewrite Hgpk, list_elem_of_singleton. intros [Hin|Heq].
      * apply (Hacc y); [apply elem_of_cons; by right|done].
      * apply Hx. rewrite <- Heq. by apply list_elem_of_fmap_2.
Qed.

Lemma validate_ingredients_amount items acc s s' :
  validate_ingredients validate_amount items acc s
    = (inl (ValidationError amount_invalid), s') →
  ∃ x, x ∈ items ∧ validate_amount (item_amount x) = false.
Proof.
  revert acc. induction items as [|x items IH]; intros acc; simpl.
  - unfold_db. intros [=].
  - unfold_db.
    destruct (objects_get (tbl_ingredients s) (item_id x)) as [g|];
      [|intros [=]].
    destruct (model_in g acc); [intros [=]|].
    destruct (validate_amount (item_amount x)) eqn:Ev.
    + intros (y & Hy & He)%IH. exists y. split; [|done].
      apply elem_of_cons. by right.
    + intros _. exists x. split; [apply elem_of_cons; by left|done].
Qed.

(** The entry at position [i] does not resolve, and no entry before it
    is repeated or has a refused amount: the loop ends in a 404. *)
Lemma validate_ingredients_first_missing items acc s i x :
  items !! i = Some x → ¬ ingredient_exists s x →
  Forall (λ y, validate_amount (item_amount y) = true) (take i items) →
  NoDup (item_id <$> take i items) →
  (∀ y, y ∈ take i items → item_id y ∉ ingredients_id <$> acc) →
  validate_ingredients validate_amount items acc s = (inl (Http404 M_Ingredients), s).
Proof.
  revert i acc. induction items as [|y items IH]; intros i acc Hi Hx;
    [done|].
  simpl. unfold_db.
  destruct (objects_get (tbl_ingredients s) (item_id y)) as [g|] eqn:Eg;
    [|done].
  destruct i as [|i]; simpl in Hi.
  { injection Hi as ->. apply objects_get_Some in Eg as [Hin Hpk].
    exfalso. apply Hx. unfold ingredient_exists. simpl in Hpk.
    rewrite <- Hpk. by apply (list_elem_of_fmap_2 ingredients_id). }
  simpl. intros [Hv Hvs]%Forall_cons [Hy Hnd]%NoDup_cons Hacc.
  apply objects_get_Some in Eg as [_ Hgpk]. simpl in Hgpk.
  assert (model_in g acc = false) as ->.
  { apply model_in_false. simpl. rewrite Hgpk. apply Hacc.
    apply elem_of_cons. by left. }
  rewrite Hv. apply (IH i); try done.
  intros z Hz. rewrite fmap_app, elem_of_app. simpl.
  rewrite Hgpk, list_elem_of_singleton. intros [Hin|Heq].
  - apply (Hacc z); [apply elem_of_cons; by right|done].
  - apply Hy. rewrite <- Heq. by apply list_elem_of_fmap_2.
Qed.

(** The five ways [validate] can end; it never writes. *)
Lemma validate_cases self init data s :
  (entries init = [] ∧
   validate validate_amount self init data s
     = (inl (ValidationError ingredients_required), s)) ∨
  (entries init ≠ [] ∧ ∃ e,
     validate_ingredients validate_amount (entries init) [] s = (inl e, s) ∧
     validate validate_amount self init data s = (inl e, s)) ∨
  (validate_ingredients validate_amount (entries init) [] s = (inr tt, s) ∧
   entries init ≠ [] ∧ tag_ids init = [] ∧
   validate validate_amount self init data s = (inl (ValidationError tags_required), s)) ∨
  (validate_ingredients validate_amount (entries init) [] s = (inr tt, s) ∧
   entries init ≠ [] ∧ tag_ids init ≠ [] ∧ ∃ e,
     validate_tags (tag_ids init) [] s = (inl e, s) ∧
     validate validate_amount self init data s = (inl e, s)) ∨
  (validate_ingredients validate_amount (entries init) [] s = (inr tt, s) ∧
   entries init ≠ [] ∧ tag_ids init ≠ [] ∧
   validate_tags (tag_ids init) [] s = (inr tt, s) ∧
   validate validate_amount self init data s
     = (inr (mkValidated data (request_user self) (entries init)
               (tag_ids init)), s)).
Proof.
  unfold entries, tag_ids.
  destruct (initial_ingredients init) as [[|x items]|] eqn:Ei; simpl default.
  1, 3: left; split; [done|]; unfold validate; by rewrite Ei.
  destruct (validate_ingredients_shape (x :: items) [] s) as (r1 & E1 & _).
  destruct r1 as [e|[]].
  { right; left. split; [done|]. exists e. split; [done|].
    unfold validate, bind. rewrite Ei. cbv beta iota. by rewrite E1. }
  right; right.
  destruct (initial_tags init) as [[|t tags]|] eqn:Et; simpl default.
  1, 3: left; repeat split; try done; unfold validate, bind; rewrite Ei;
    cbv beta iota; rewrite E1, Et; done.
  right.
  destruct (validate_tags_shape (t :: tags) [] s) as (r2 & E2 & _).
  destruct r2 as [e|[]].
  { left. repeat split; try done. exists e. split; [done|].
    unfold validate, bind. rewrite Ei. cbv beta iota. rewrite E1, Et.
    cbv beta iota. by rewrite E2. }
  right. repeat split; try done.
  unfold validate, bind. rewrite Ei. cbv beta iota. rewrite E1, Et.
  cbv beta iota. by rewrite E2.
Qed.

Lemma validate_read_only self init data :
  read_only (validate validate_amount self init data).
Proof.
  intros s.
  destruct (validate_cases self init data s)
    as [(_ & ->)|[(_ & e & _ & ->)|[(_ & _ & _ & ->)|
        [(_ & _ & _ & e & _ & ->)|(_ & _ & _ & _ & ->)]]]]; done.
Qed.

(** When validation fails, [Create] and [Update] fail with the same
    error and the store is untouched. *)
Lemma Create_validate_fails self init data s e :
  validate validate_amount self init data s = (inl e, s) →
  Create validate_amount self init data s = (inl e, s).
Proof. intros Hv. unfold Create, bind. by rewrite Hv. Qed.

Lemma Update_validate_fails self recipe init data s e :
  validate validate_amount self init data s = (inl e, s) →
  Update validate_amount self recipe init data s = (inl e, s).
Proof. intros Hv. unfold Update, bind. by rewrite Hv. Qed.

Lemma Create_validate_ok self init data s vd :
  validate validate_amount self init data s = (inr vd, s) →
  Create validate_amount self init data s = create vd s.
Proof. intros Hv. unfold Create, bind. by rewrite Hv. Qed.

Lemma Update_validate_ok self recipe init data s vd :
  validate validate_amount self init data s = (inr vd, s) →
  Update validate_amount self recipe init data s = update recipe vd s.
Proof. intros Hv. unfold Update, bind. by rewrite Hv. Qed.

Lemma no_entry_in_nil (items : list ingredient_item) :
  ∀ x, x ∈ items → item_id x ∉ ingredients_id <$> [].
Proof. intros x _ Hx. by apply elem_of_nil in Hx. Qed.

Lemma no_tag_in_nil (tags : list Z) : ∀ t, t ∈ tags → t ∉ tags_id <$> [].
Proof. intros x _ Hx. by apply elem_of_nil in Hx. Qed.

(** Validation succeeds exactly on the inputs without a violation. *)
Lemma validate_succeeds self init data s :
  ¬ ingredients_violation validate_amount s init → ¬ tags_violation s init →
  validate validate_amount self init data s
    = (inr (mkValidated data (request_user self) (entries init)
              (tag_ids init)), s).
Proof.
  unfold ingredients_violation, tags_violation. intros Hi Ht.
  assert (validate_ingredients validate_amount (entries init) [] s = (inr tt, s)) as Hvi.
  { apply validate_ingredients_ok. repeat split.
    - destruct (decide (Forall (ingredient_exists s) (entries init)));
        [done|tauto].
    - destruct (decide (Forall (λ x, validate_amount (item_amount x) = true)
                          (entries init))); [done|tauto].
    - destruct (decide (NoDup (item_id <$> entries init))); [done|tauto].
    - apply no_entry_in_nil. }
  assert (validate_tags (tag_ids init) [] s = (inr tt, s)) as Hvt.
  { apply validate_tags_ok. repeat split.
    - destruct (decide (Forall (tag_exists s) (tag_ids init))); [done|tauto].
    - destruct (decide (NoDup (tag_ids init))); [done|tauto].
    - apply no_tag_in_nil. }
  destruct (validate_cases self init data s)
    as [(? & _)|[(_ & e & E & _)|[(_ & _ & ? & _)|
        [(_ & _ & _ & e & E & _)|(_ & _ & _ & _ & ->)]]]];
    try tauto; congruence.
Qed.
End validate_facts.

(** ** What [validate] rejects, and with which error *)

Ltac by_compute := apply (bool_decide_unpack _); vm_compute; exact I.

Section validate_claims.
Variable validate_amount : Z → bool.

(** C4, amended.  Create fails and writes nothing whenever the ingredient
    list is empty, the tag list is empty, an ingredient id occurs more than
    once or a tag id occurs more than once: repeated ids are never merged.
    The error is a ValidationError when every supplied ingredient id and
    tag id resolves to a row (an empty ingredient list is always a
    ValidationError); an id that does not resolve can be met first and
    turn the failure into a 404. *)
Theorem Create_rejects_empty_or_repeated self init data s :
  entries init = [] ∨ tag_ids init = [] ∨
    ¬ NoDup (item_id <$> entries init) ∨ ¬ NoDup (tag_ids init) →
  ∃ e, Create validate_amount self init data s = (inl e, s) ∧
    (entries init = [] → e = ValidationError ingredients_required) ∧
    (Forall (ingredient_exists s) (entries init) →
     Forall (tag_exists s) (tag_ids init) →
     is_validation_error e = true).
Proof.
  intros Hbad.
  destruct (validate_cases validate_amount self init data s)
    as [(Hnil & Hv)|[(Hne & e & Hl & Hv)|[(Hl & Hne & Hnil & Hv)|
        [(Hl & Hne & Htne & e & Ht & Hv)|(Hl & Hne & Htne & Ht & Hv)]]]].
  - eexists. split; [by apply Create_validate_fails|]. by split.
  - exists e. split; [by apply Create_validate_fails|]. split; [done|].
    intros Hex _.
    destruct (validate_ingredients_shape validate_amount (entries init) [] s)
      as (r & Hr & Hshape).
    rewrite Hl in Hr. injection Hr as <-. simpl in Hshape.
    destruct Hshape as [->|[->| ->]]; try done.
    apply validate_ingredients_404 in Hl as (x & Hx & Hmiss).
    rewrite Forall_forall in Hex. by specialize (Hex x Hx).
  - eexists. split; [by apply Create_validate_fails|]. by split.
  - exists e. split; [by apply Create_validate_fails|]. split; [done|].
    intros _ Hex.
    destruct (validate_tags_shape (tag_ids init) [] s) as (r & Hr & Hshape).
    rewrite Ht in Hr. injection Hr as <-. simpl in Hshape.
    destruct Hshape as [->| ->]; try done.
    apply validate_tags_404 in Ht as (x & Hx & Hmiss).
    rewrite Forall_forall in Hex. by specialize (Hex x Hx).
  - exfalso. apply validate_ingredients_ok in Hl as (_ & _ & Hnd & _).
    apply validate_tags_ok in Ht as (_ & Htnd & _). tauto.
Qed.

(** C5, amended.  Create fails during validation, before any write,
    whenever a supplied ingredient id or tag id does not resolve to a row.
    The error is a 404 when the input breaks no other rule of validation
    (both lists non-empty, no id repeated, every amount accepted); when it
    does, the other rule can be checked first and the error is then a
    ValidationError. *)
Theorem Create_unresolved_id_fails self init data s :
  ¬ Forall (ingredient_exists s) (entries init) ∨
    ¬ Forall (tag_exists s) (tag_ids init) →
  ∃ e, validate validate_amount self init data s = (inl e, s) ∧
    Create validate_amount self init data s = (inl e, s) ∧
    (entries init ≠ [] → tag_ids init ≠ [] →
     NoDup (item_id <$> entries init) → NoDup (tag_ids init) →
     Forall (λ x, validate_amount (item_amount x) = true) (entries init) →
     is_not_found e = true).
Proof.
  intros Hbad.
  destruct (validate_cases validate_amount self init data s)
    as [(Hnil & Hv)|[(Hne & e & Hl & Hv)|[(Hl & Hne & Hnil & Hv)|
        [(Hl & Hne & Htne & e & Ht & Hv)|(Hl & Hne & Htne & Ht & Hv)]]]].
  - eexists. split; [done|]. split; [by apply Create_validate_fails|].
    by intros.
  - exists e. split; [done|]. split; [by apply Create_validate_fails|].
    intros _ _ Hnd _ Hval.
    destruct (validate_ingredients_shape validate_amount (entries init) [] s)
      as (r & Hr & Hshape).
    rewrite Hl in Hr. injection Hr as <-. simpl in Hshape.
    destruct Hshape as [->|[->| ->]]; [done| |].
    + apply validate_ingredients_repeated in Hl. destruct Hl.
      split; [done|]. apply no_entry_in_nil.
    + apply validate_ingredients_amount in Hl as (x & Hx & Hf).
      rewrite Forall_forall in Hval. specialize (Hval x Hx). congruence.
  - eexists. split; [done|]. split; [by apply Create_validate_fails|].
    by intros.
  - exists e. split; [done|]. split; [by apply Create_validate_fails|].
    intros _ _ _ Hnd _.
    destruct (validate_tags_shape (tag_ids init) [] s) as (r & Hr & Hshape).
    rewrite Ht in Hr. injection Hr as <-. simpl in Hshape.
    destruct Hshape as [->| ->]; [done|].
    apply validate_tags_repeated in Ht. destruct Ht.
    split; [done|]. apply no_tag_in_nil.
  - exfalso. apply validate_ingredients_ok in Hl as (Hex & _).
    apply validate_tags_ok in Ht as (Htex & _). tauto.
Qed.

(** C10, amended.  [validate] checks the ingredient entries completely
    before any tag: when the ingredient list and the tag list both break a
    rule, the error concerns the ingredients.  Inside the ingredient loop
    every entry is looked up, then compared with the earlier entries, then
    its amount is checked: when the entry at position [i] does not resolve
    and no entry before [i] is repeated or has a refused amount, the
    failure is a 404, whatever follows position [i]. *)
Theorem validate_checks_in_order self init data s :
  (ingredients_violation validate_amount s init → tags_violation s init →
   ∃ e, validate validate_amount self init data s = (inl e, s) ∧
        concerns_ingredients e = true) ∧
  (∀ i x, entries init !! i = Some x → ¬ ingredient_exists s x →
     NoDup (item_id <$> take i (entries init)) →
     Forall (λ y, validate_amount (item_amount y) = true)
       (take i (entries init)) →
     validate validate_amount self init data s
       = (inl (Http404 M_Ingredients), s)).
Proof.
  split.
  - intros Hi _.
    assert (validate_ingredients validate_amount (entries init) [] s
              = (inr tt, s) → entries init ≠ [] → False) as Hno.
    { intros (? & ? & ? & _)%validate_ingredients_ok ?.
      unfold ingredients_violation in Hi. tauto. }
    destruct (validate_cases validate_amount self init data s)
      as [(Hnil & Hv)|[(Hne & e & Hl & Hv)|[(Hl & Hne & _)|
          [(Hl & Hne & _)|(Hl & Hne & _)]]]];
      [by eexists| |by destruct Hno..].
    exists e. split; [done|].
    destruct (validate_ingredients_shape validate_amount (entries init)
                [] s) as (r & Hr & Hshape).
    rewrite Hl in Hr. injection Hr as <-. simpl in Hshape.
    by destruct Hshape as [->|[->| ->]].
  - intros i x Hi Hx Hnd Hval.
    assert (validate_ingredients validate_amount (entries init) [] s
              = (inl (Http404 M_Ingredients), s)) as Hl.
    { apply (validate_ingredients_first_missing _ _ _ _ i x); try done.
      intros y _. apply not_elem_of_nil. }
    destruct (validate_cases validate_amount self init data s)
      as [(Hnil & Hv)|[(Hne & e & Hl' & Hv)|[(Hl' & _)|[(Hl' & _)|(Hl' & _)]]]];
      try congruence.
    rewrite Hnil in Hi. done.
Qed.
End validate_claims.

Lemma Create_rejects_empty_or_repeated_witness :
  (entries demo_init_repeated = [] ∨ tag_ids demo_init_repeated = [] ∨
     ¬ NoDup (item_id <$> entries demo_init_repeated) ∨
     ¬ NoDup (tag_ids demo_init_repeated)) ∧
  ∃ e, Create demo_validate_amount demo_request demo_init_repeated demo_attrs
         demo_store = (inl e, demo_store) ∧
    (entries demo_init_repeated = [] →
     e = ValidationError ingredients_required) ∧
    (Forall (ingredient_exists demo_store) (entries demo_init_repeated) →
     Forall (tag_exists demo_store) (tag_ids demo_init_repeated) →
     is_validation_error e = true).
Proof.
  assert (¬ NoDup (item_id <$> entries demo_init_repeated)) as Hrep
    by by_compute.
  split; [tauto|].
  apply (Create_rejects_empty_or_repeated demo_validate_amount). tauto.
Defined.

(** C4 as stated fails: with no tag and an ingredient id that does not
    resolve, Create fails with a 404, not with a ValidationError. *)
Lemma Create_empty_tags_not_found :
  tag_ids demo_init_no_tags = [] ∧
  Create demo_validate_amount demo_request demo_init_no_tags demo_attrs
    demo_store = (inl (Http404 M_Ingredients), demo_store) ∧
  is_validation_error (Http404 M_Ingredients) = false.
Proof. by vm_compute. Qed.

Lemma Create_unresolved_id_fails_witness :
  (¬ Forall (ingredient_exists demo_store) (entries demo_init_missing) ∨
   ¬ Forall (tag_exists demo_store) (tag_ids demo_init_missing)) ∧
  ∃ e, validate demo_validate_amount demo_request demo_init_missing demo_attrs
         demo_store = (inl e, demo_store) ∧
    Create demo_validate_amount demo_request demo_init_missing demo_attrs
      demo_store = (inl e, demo_store) ∧
    (entries demo_init_missing ≠ [] → tag_ids demo_init_missing ≠ [] →
     NoDup (item_id <$> entries demo_init_missing) →
     NoDup (tag_ids demo_init_missing) →
     Forall (λ x, demo_validate_amount (item_amount x) = true)
       (entries demo_init_missing) →
     is_not_found e = true).
Proof.
  assert (¬ Forall (ingredient_exists demo_store) (entries demo_init_missing))
    as Hmiss by by_compute.
  split; [tauto|].
  apply (Create_unresolved_id_fails demo_validate_amount). tauto.
Defined.

(** C5 as stated fails: with an empty ingredient list and a tag id that
    does not resolve, Create fails with a ValidationError, not with a 404. *)
Lemma Create_unresolved_tag_validation_error :
  ¬ Forall (tag_exists demo_store) (tag_ids demo_init_no_ingredients) ∧
  Create demo_validate_amount demo_request demo_init_no_ingredients demo_attrs
    demo_store = (inl (ValidationError ingredients_required), demo_store) ∧
  is_not_found (ValidationError ingredients_required) = false.
Proof. split; [by_compute|by vm_compute]. Qed.

Lemma validate_checks_in_order_witness :
  (ingredients_violation demo_validate_amount demo_store
     demo_init_missing_then_repeated ∧
   tags_violation demo_store demo_init_missing_then_repeated ∧
   ∃ e, validate demo_validate_amount demo_request
          demo_init_missing_then_repeated demo_attrs demo_store
          = (inl e, demo_store) ∧
        concerns_ingredients e = true) ∧
  (entries demo_init_missing_then_repeated !! 1%nat = Some (mkItem 99 1) ∧
   ¬ ingredient_exists demo_store (mkItem 99 1) ∧
   NoDup (item_id <$> take 1 (entries demo_init_missing_then_repeated)) ∧
   Forall (λ y, demo_validate_amount (item_amount y) = true)
     (take 1 (entries demo_init_missing_then_repeated)) ∧
   validate demo_validate_amount demo_request demo_init_missing_then_repeated
     demo_attrs demo_store = (inl (Http404 M_Ingredients), demo_store)).
Proof.
  destruct (validate_checks_in_order demo_validate_amount demo_request
              demo_init_missing_then_repeated demo_attrs demo_store)
    as [Hfirst Hloop].
  assert (ingredients_violation demo_validate_amount demo_store
            demo_init_missing_then_repeated) as Hi.
  { right; left. by_compute. }
  assert (tags_violation demo_store demo_init_missing_then_repeated) as Ht.
  { by left. }
  assert (¬ ingredient_exists demo_store (mkItem 99 1)) as Hx by by_compute.
  assert (NoDup (item_id <$> take 1 (entries demo_init_missing_then_repeated)))
    as Hnd by by_compute.
  assert (Forall (λ y, demo_validate_amount (item_amount y) = true)
            (take 1 (entries demo_init_missing_then_repeated))) as Hval.
  { repeat constructor. }
  split; [split; [done|]; split; [done|]; by apply Hfirst|].
  split; [done|]. split; [done|]. split; [done|]. split; [done|].
  by apply (Hloop 1%nat (mkItem 99 1)).
Defined.

(** C10 as stated fails: position 1 does not resolve and the only repeated
    id is at position 2, yet the failure is the ValidationError of the
    amount at position 0, which is checked before position 1 is looked up. *)
Lemma validate_amount_checked_before_later_lookup :
  entries demo_init_amount_first !! 1%nat = Some (mkItem 99 1) ∧
  ¬ ingredient_exists demo_store (mkItem 99 1) ∧
  NoDup (item_id <$> take 2 (entries demo_init_amount_first)) ∧
  ¬ NoDup (item_id <$> take 3 (entries demo_init_amount_first)) ∧
  validate demo_validate_amount demo_request demo_init_amount_first demo_attrs
    demo_store = (inl (ValidationError amount_invalid), demo_store) ∧
  Create demo_validate_amount demo_request demo_init_amount_first demo_attrs
    demo_store = (inl (ValidationError amount_invalid), demo_store) ∧
  is_not_found (ValidationError amount_invalid) = false.
Proof.
  split; [done|]. split; [by_compute|]. split; [by_compute|].
  split; [by_compute|]. by vm_compute.
Qed.

(** ** Orderings *)

Section ordering_facts.
Context {A : Type} `{Model A}.

Global Instance id_asc_total : Total (id_asc (A:=A)).
Proof. intros a b. unfold id_asc. lia. Qed.
Global Instance id_desc_total : Total (id_desc (A:=A)).
Proof. intros a b. unfold id_desc. lia. Qed.
Global Instance id_asc_trans : Transitive (id_asc (A:=A)).
Proof. intros a b c. unfold id_asc. lia. Qed.
Global Instance id_desc_trans : Transitive (id_desc (A:=A)).
Proof. intros a b c. unfold id_desc. lia. Qed.

Lemma order_by_id_perm (l : list A) : order_by_id l ≡ₚ l.
Proof. apply merge_sort_Permutation. Qed.

Lemma order_by_id_desc_perm (l : list A) : order_by_id_desc l ≡ₚ l.
Proof. apply merge_sort_Permutation. Qed.

Lemma order_by_id_desc_sorted (l : list A) :
  StronglySorted id_desc (order_by_id_desc l).
Proof. apply StronglySorted_merge_sort; apply _. Qed.

Lemma order_by_id_sorted (l : list A) : StronglySorted id_asc (order_by_id l).
Proof. apply StronglySorted_merge_sort; apply _. Qed.
End ordering_facts.

(** ** Deleting a recipe *)

Lemma not_elem_of_fmap_filter_ne {A} (f : A → Z) (x : Z) (l : list A) :
  x ∉ f <$> filter (λ r, ¬ f r = x) l.
Proof.
  intros (r & Hr & Hin)%list_elem_of_fmap.
  apply list_elem_of_filter in Hin as [Hne _]. by apply Hne.
Qed.

(** C9.  Delete removes the recipe row and every IngredientInRecipe,
    Favorite and Cart row that references the recipe (and the recipe's rows
    in the tags table): afterwards no row of these tables references the
    deleted recipe.  The rows of the other recipes, the ingredients, the
    tags and the subscriptions are left as they were. *)
Theorem Delete_cascades (recipe : Recipes) (s : store) :
  ∃ s', Delete recipe s = (inr tt, s') ∧
    (recipes_id recipe ∉ recipes_id <$> rows (tbl_recipes s')) ∧
    (recipes_id recipe ∉ iir_recipe <$> rows (tbl_iir s')) ∧
    (recipes_id recipe ∉ fc_recipe <$> rows (tbl_favorite s')) ∧
    (recipes_id recipe ∉ fc_recipe <$> rows (tbl_cart s')) ∧
    (recipes_id recipe ∉ rt_recipes <$> rows (tbl_recipes_tags s')) ∧
    (∀ r, r ∈ rows (tbl_recipes s') ↔
          r ∈ rows (tbl_recipes s) ∧ recipes_id r ≠ recipes_id recipe) ∧
    (∀ r, r ∈ rows (tbl_iir s') ↔
          r ∈ rows (tbl_iir s) ∧ iir_recipe r ≠ recipes_id recipe) ∧
    (∀ r, r ∈ rows (tbl_favorite s') ↔
          r ∈ rows (tbl_favorite s) ∧ fc_recipe r ≠ recipes_id recipe) ∧
    (∀ r, r ∈ rows (tbl_cart s') ↔
          r ∈ rows (tbl_cart s) ∧ fc_recipe r ≠ recipes_id recipe) ∧
    tbl_ingredients s' = tbl_ingredients s ∧ tbl_tags s' = tbl_tags s ∧
    tbl_subscribe s' = tbl_subscribe s.
Proof.
  eexists. split; [reflexivity|]. simpl.
  repeat split; try apply not_elem_of_fmap_filter_ne;
    try (by intros [? ?]; apply list_elem_of_filter);
    match goal with
    | Hin : _ ∈ filter _ _ |- _ => by apply list_elem_of_filter in Hin as [? ?]
    end.
Qed.

(** ** The subscription summary *)

(** What [get_is_subscribed] computes: the [user] of the summarized
    Subscription has at least one subscription, to whatever author.  Neither
    [obj.author] nor the request is read. *)
Lemma get_is_subscribed_spec (self : request) (obj : Subscribe) (s : store) :
  get_is_subscribed self obj s = true ↔
  ∃ f, f ∈ rows (tbl_subscribe s) ∧ subscribe_user f = subscribe_user obj.
Proof.
  unfold get_is_subscribed, follower. split.
  - destruct (filter _ _) as [|f fs] eqn:E; [done|]. intros _.
    assert (f ∈ filter (λ f, subscribe_user f = subscribe_user obj)
                  (rows (tbl_subscribe s))) as Hin.
    { rewrite E. apply elem_of_cons. by left. }
    apply list_elem_of_filter in Hin as [? ?]. by exists f.
  - intros (f & Hin & Hf).
    assert (f ∈ filter (λ f, subscribe_user f = subscribe_user obj)
                  (rows (tbl_subscribe s))) as Hin'.
    { by apply list_elem_of_filter. }
    destruct (filter _ _); [by apply elem_of_nil in Hin'|done].
Qed.

(** On a stored Subscription row summarized for its own subscriber the
    field is true, and the row itself links the requester to the author. *)
Lemma get_is_subscribed_stored (self : request) (obj : Subscribe) (s : store) :
  obj ∈ rows (tbl_subscribe s) →
  request_user self = subscribe_user obj →
  get_is_subscribed self obj s = true ∧
  ∃ f, f ∈ rows (tbl_subscribe s) ∧
       subscribe_user f = request_user self ∧
       subscribe_author f = subscribe_author obj.
Proof.
  intros Hobj Hreq. split.
  - apply get_is_subscribed_spec. by exists obj.
  - exists obj. by rewrite Hreq.
Qed.

(** C6.  [is_subscribed] is not the answer to "does the requesting user
    follow the summarized author".  In the example store the only
    Subscription row is (user 10, author 20).  The summary of that row
    requested by user 30, who follows nobody, has [is_subscribed] true; so
    has the summary, requested by user 10, of a Subscription (user 10,
    author 30) that is not a row of the store. *)
Theorem get_is_subscribed_ignores_author :
  rows (tbl_subscribe demo_store) = [mkSubscribe 1 10 20] ∧
  get_is_subscribed (mkRequest 30 (λ _, None)) (mkSubscribe 1 10 20) demo_store
    = true ∧
  ¬ (∃ f, f ∈ rows (tbl_subscribe demo_store) ∧
          subscribe_user f = 30 ∧ subscribe_author f = 20) ∧
  get_is_subscribed demo_request (mkSubscribe 2 10 30) demo_store = true ∧
  ¬ (∃ f, f ∈ rows (tbl_subscribe demo_store) ∧
          subscribe_user f = request_user demo_request ∧
          subscribe_author f = 30).
Proof.
  split; [done|]. split; [done|]. split; [|split; [done|]].
  - intros (f & Hin & Hu & _). simpl in Hin.
    apply list_elem_of_singleton in Hin. by subst.
  - intros (f & Hin & _ & Ha). simpl in Hin.
    apply list_elem_of_singleton in Hin. by subst.
Qed.

Section subscription_summary.
Variable int : string → option Z.
Variable url : string → string.

End subscription_summary.



(** ** Inserting rows *)

Lemma violated_single_None {A K} `{Model A} name (same : A → A → bool)
    (key : A → K) (t : table A) (r : A) :
  (∀ a b, same a b = true ↔ key a = key b) →
  violated [mkUnique name same] t r = None ↔ key r ∉ key <$> rows t.
Proof.
  intros Hsame. rewrite violated_None, Forall_singleton. simpl. split.
  - intros Hall (y & Hy & Hin)%list_elem_of_fmap.
    rewrite Forall_forall in Hall. specialize (Hall y Hin).
    apply Hsame in Hy. congruence.
  - intros Hnin. apply Forall_forall. intros y Hin.
    destruct (same r y) eqn:E; [|done]. apply Hsame in E.
    exfalso. apply Hnin. rewrite E. by apply list_elem_of_fmap_2.
Qed.

Lemma violated_single_Some {A} `{Model A} name (same : A → A → bool)
    (t : table A) (r : A) c :
  violated [mkUnique name same] t r = Some c → c = name.
Proof.
  unfold violated. simpl. destruct (existsb _ _); simpl; congruence.
Qed.

Lemma pair_same_key (a1 a2 b1 b2 : Z) :
  bool_decide (a1 = a2) && bool_decide (b1 = b2) = true ↔ (a1, b1) = (a2, b2).
Proof.
  rewrite andb_true_iff, !bool_decide_eq_true. split.
  - by intros [-> ->].
  - by intros [= -> ->].
Qed.

Lemma ingredient_same_key (a b : Ingredients) :
  bool_decide (ingredients_name a = ingredients_name b) &&
  bool_decide (ingredients_measurement_unit a = ingredients_measurement_unit b)
    = true ↔ ingredient_key a = ingredient_key b.
Proof.
  unfold ingredient_key. rewrite andb_true_iff, !bool_decide_eq_true. split.
  - by intros [-> ->].
  - by intros [= -> ->].
Qed.

Lemma objects_create_cases {A} `{Model A} (get : store → table A) set cs mk s :
  (∃ c, violated cs (get s) (mk (next_pk (get s))) = Some c ∧
        objects_create get set cs mk s = (inl (IntegrityError c), s)) ∨
  (violated cs (get s) (mk (next_pk (get s))) = None ∧
   objects_create get set cs mk s
     = (inr (mk (next_pk (get s))),
        set (Table (rows (get s) ++ [mk (next_pk (get s))])
               (next_pk (get s) + 1)) s)).
Proof.
  unfold objects_create, table_insert.
  destruct (violated cs (get s) (mk (next_pk (get s)))) as [c|]; eauto.
Qed.

Lemma ingredient_get_is_Some s x :
  is_Some (objects_get (tbl_ingredients s) x) ↔
  x ∈ ingredients_id <$> rows (tbl_ingredients s).
Proof. exact (objects_get_is_Some (tbl_ingredients s) x). Qed.

Lemma tag_get_is_Some s x :
  is_Some (objects_get (tbl_tags s) x) ↔ x ∈ tags_id <$> rows (tbl_tags s).
Proof. exact (objects_get_is_Some (tbl_tags s) x). Qed.

Lemma recipe_get_is_Some s x :
  is_Some (objects_get (tbl_recipes s) x) ↔
  x ∈ recipes_id <$> rows (tbl_recipes s).
Proof. exact (objects_get_is_Some (tbl_recipes s) x). Qed.

(** The store after one through row of [recipe] has been appended. *)
Lemma bulk_create1_cases ingredient_id recipe amount s :
  (∃ e, IngredientInRecipe_bulk_create1 ingredient_id recipe amount s
          = (inl e, s)) ∨
  (ingredient_id ∈ ingredients_id <$> rows (tbl_ingredients s) ∧
   recipes_id recipe ∈ recipes_id <$> rows (tbl_recipes s) ∧
   ((ingredient_id, recipes_id recipe) ∉ iir_key <$> rows (tbl_iir s)) ∧
   IngredientInRecipe_bulk_create1 ingredient_id recipe amount s
     = (inr tt,
        set_iir (Table (rows (tbl_iir s) ++
                        [mkIngredientInRecipe (next_pk (tbl_iir s))
                           ingredient_id (recipes_id recipe) amount])
                   (next_pk (tbl_iir s) + 1)) s)).
Proof.
  unfold IngredientInRecipe_bulk_create1, fk_check, bind, ret.
  destruct (objects_get (tbl_ingredients s) ingredient_id) as [g|] eqn:Eg;
    [|left; by eexists].
  destruct (objects_get (tbl_recipes s) (recipes_id recipe)) as [r|] eqn:Er;
    [|left; by eexists].
  destruct (objects_create_cases tbl_iir set_iir IngredientInRecipe_constraints
              (λ i, mkIngredientInRecipe i ingredient_id (recipes_id recipe)
                      amount) s) as [(c & _ & ->)|[Hv ->]];
    [left; by eexists|].
  right. split; [|split; [|split; [|done]]].
  - apply ingredient_get_is_Some. by eexists.
  - apply recipe_get_is_Some. by eexists.
  - apply (violated_single_None _ _ iir_key) in Hv; [done|].
    intros a b. apply pair_same_key.
Qed.

Lemma bulk_create1_ok ingredient_id recipe amount s :
  ingredient_id ∈ ingredients_id <$> rows (tbl_ingredients s) →
  recipes_id recipe ∈ recipes_id <$> rows (tbl_recipes s) →
  (ingredient_id, recipes_id recipe) ∉ iir_key <$> rows (tbl_iir s) →
  IngredientInRecipe_bulk_create1 ingredient_id recipe amount s
    = (inr tt,
       set_iir (Table (rows (tbl_iir s) ++
                       [mkIngredientInRecipe (next_pk (tbl_iir s))
                          ingredient_id (recipes_id recipe) amount])
                  (next_pk (tbl_iir s) + 1)) s).
Proof.
  intros Hi Hr Hk.
  apply ingredient_get_is_Some in Hi as [g Eg].
  apply recipe_get_is_Some in Hr as [r Er].
  unfold IngredientInRecipe_bulk_create1, fk_check, bind, ret.
  rewrite Eg, Er.
  destruct (objects_create_cases tbl_iir set_iir IngredientInRecipe_constraints
              (λ i, mkIngredientInRecipe i ingredient_id (recipes_id recipe)
                      amount) s) as [(c & Hv & _)|[_ ->]]; [|done].
  assert (violated IngredientInRecipe_constraints (tbl_iir s)
            (mkIngredientInRecipe (next_pk (tbl_iir s)) ingredient_id
               (recipes_id recipe) amount) = None) as Hnone; [|congruence].
  apply (violated_single_None _ _ iir_key); [|done].
  intros a b. apply pair_same_key.
Qed.

Lemma set_iir_id s : set_iir (tbl_iir s) s = s.
Proof. by destruct s. Qed.

Lemma set_recipes_tags_id s : set_recipes_tags (tbl_recipes_tags s) s = s.
Proof. by destruct s. Qed.

Lemma with_new_iir_nil rid s : with_new_iir rid [] s = s.
Proof.
  unfold with_new_iir. simpl. rewrite app_nil_r, Z.add_0_r.
  destruct s as [? ? ? [? ?] ? ? ? ?]. done.
Qed.

Lemma with_new_iir_cons rid x items s :
  with_new_iir rid (x :: items) s
  = with_new_iir rid items
      (set_iir (Table (rows (tbl_iir s) ++
                       [mkIngredientInRecipe (next_pk (tbl_iir s)) (item_id x)
                          rid (item_amount x)])
                  (next_pk (tbl_iir s) + 1)) s).
Proof.
  unfold with_new_iir, set_iir. simpl. rewrite <- app_assoc. simpl.
  do 2 f_equal. lia.
Qed.

Lemma create_ingredients_inv items recipe s s' :
  create_ingredients items recipe s = (inr tt, s') →
  s' = with_new_iir (recipes_id recipe) items s.
Proof.
  unfold create_ingredients. revert s.
  induction items as [|x items IH]; intros s; simpl.
  - rewrite with_new_iir_nil. unfold ret. by intros [= <-].
  - rewrite with_new_iir_cons. unfold bind at 1.
    destruct (bulk_create1_cases (item_id x) recipe (item_amount x) s)
      as [(e & ->)|(_ & _ & _ & ->)]; [by intros [=]|].
    apply IH.
Qed.

Lemma create_ingredients_ok items recipe s :
  Forall (ingredient_exists s) items →
  recipes_id recipe ∈ recipes_id <$> rows (tbl_recipes s) →
  NoDup (item_id <$> items) →
  (∀ x, x ∈ items →
        (item_id x, recipes_id recipe) ∉ iir_key <$> rows (tbl_iir s)) →
  create_ingredients items recipe s
    = (inr tt, with_new_iir (recipes_id recipe) items s).
Proof.
  unfold create_ingredients. revert s.
  induction items as [|x items IH]; intros s; simpl.
  - intros _ _ _ _. by rewrite with_new_iir_nil.
  - intros [Hx Hex]%Forall_cons Hr [Hnx Hnd]%NoDup_cons Hkeys.
    rewrite with_new_iir_cons. unfold bind at 1.
    rewrite bulk_create1_ok; [|done|done|].
    2:{ apply Hkeys. apply elem_of_cons. by left. }
    apply IH; try done.
    intros y Hy. simpl. rewrite fmap_app, elem_of_app. intros [Hin|Hin].
    + apply (Hkeys y); [apply elem_of_cons; by right|done].
    + simpl in Hin. apply list_elem_of_singleton in Hin.
      injection Hin as Hid. apply Hnx. rewrite <- Hid.
      by apply list_elem_of_fmap_2.
Qed.

Lemma new_iir_pairs n rid items :
  iir_pair <$> new_iir n rid items = item_pair <$> items.
Proof.
  revert n. induction items as [|x items IH]; intros n; simpl; [done|].
  by rewrite IH.
Qed.

Lemma new_iir_filter n rid items :
  filter (λ r, iir_recipe r = rid) (new_iir n rid items) = new_iir n rid items.
Proof.
  revert n. induction items as [|x items IH]; intros n; simpl; [done|].
  rewrite filter_cons_True by done. by rewrite IH.
Qed.

Lemma filter_none {A} (P : A → Prop) `{∀ x, Decision (P x)} (l : list A) :
  (∀ x, x ∈ l → ¬ P x) → filter P l = [].
Proof.
  induction l as [|y l IH]; intros Hl; [done|].
  rewrite filter_cons_False; [|apply Hl, elem_of_cons; by left].
  apply IH. intros x Hx. apply Hl, elem_of_cons. by right.
Qed.

Lemma filter_all {A} (P : A → Prop) `{∀ x, Decision (P x)} (l : list A) :
  (∀ x, x ∈ l → P x) → filter P l = l.
Proof.
  induction l as [|y l IH]; intros Hl; [done|].
  rewrite filter_cons_True; [|apply Hl, elem_of_cons; by left].
  f_equal. apply IH. intros x Hx. apply Hl, elem_of_cons. by right.
Qed.

(** Reading the ingredients of a recipe back when its through rows are
    exactly the appended ones. *)
Lemma ingredientinrecipe_set_new rid s old n items :
  rows (tbl_iir s) = old ++ new_iir n rid items →
  rid ∉ iir_recipe <$> old →
  iir_pair <$> ingredientinrecipe_set rid s ≡ₚ item_pair <$> items.
Proof.
  intros Hrows Hold. unfold ingredientinrecipe_set.
  rewrite order_by_id_desc_perm, Hrows, filter_app, new_iir_filter.
  rewrite (filter_none _ old); [simpl; by rewrite new_iir_pairs|].
  intros r Hr Heq. apply Hold. rewrite <- Heq. by apply list_elem_of_fmap_2.
Qed.

(** ** The tags of a recipe *)

Lemma rt_create1_cases recipe tag s :
  (∃ e, RecipesTags_bulk_create1 recipe tag s = (inl e, s)) ∨
  (tag ∈ tags_id <$> rows (tbl_tags s) ∧
   recipes_id recipe ∈ recipes_id <$> rows (tbl_recipes s) ∧
   ((recipes_id recipe, tag) ∉ rt_key <$> rows (tbl_recipes_tags s)) ∧
   RecipesTags_bulk_create1 recipe tag s
     = (inr tt,
        set_recipes_tags
          (Table (rows (tbl_recipes_tags s) ++
                  [mkRecipesTags (next_pk (tbl_recipes_tags s))
                     (recipes_id recipe) tag])
             (next_pk (tbl_recipes_tags s) + 1)) s)).
Proof.
  unfold RecipesTags_bulk_create1, fk_check, bind, ret.
  destruct (objects_get (tbl_tags s) tag) as [g|] eqn:Eg;
    [|left; by eexists].
  destruct (objects_get (tbl_recipes s) (recipes_id recipe)) as [r|] eqn:Er;
    [|left; by eexists].
  destruct (objects_create_cases tbl_recipes_tags set_recipes_tags
              RecipesTags_constraints
              (λ i, mkRecipesTags i (recipes_id recipe) tag) s)
    as [(c & _ & ->)|[Hv ->]]; [left; by eexists|].
  right. split; [|split; [|split; [|done]]].
  - apply tag_get_is_Some. by eexists.
  - apply recipe_get_is_Some. by eexists.
  - apply (violated_single_None _ _ rt_key) in Hv; [done|].
    intros a b. apply pair_same_key.
Qed.

Lemma rt_create1_ok recipe tag s :
  tag ∈ tags_id <$> rows (tbl_tags s) →
  recipes_id recipe ∈ recipes_id <$> rows (tbl_recipes s) →
  (recipes_id recipe, tag) ∉ rt_key <$> rows (tbl_recipes_tags s) →
  RecipesTags_bulk_create1 recipe tag s
    = (inr tt,
       set_recipes_tags
         (Table (rows (tbl_recipes_tags s) ++
                 [mkRecipesTags (next_pk (tbl_recipes_tags s))
                    (recipes_id recipe) tag])
            (next_pk (tbl_recipes_tags s) + 1)) s).
Proof.
  intros Ht Hr Hk.
  destruct (rt_create1_cases recipe tag s) as [(e & He)|(_ & _ & _ & ->)];
    [|done].
  exfalso. revert He.
  apply tag_get_is_Some in Ht as [g Eg].
  apply recipe_get_is_Some in Hr as [r Er].
  unfold RecipesTags_bulk_create1, fk_check, bind, ret. rewrite Eg, Er.
  destruct (objects_create_cases tbl_recipes_tags set_recipes_tags
              RecipesTags_constraints
              (λ i, mkRecipesTags i (recipes_id recipe) tag) s)
    as [(c & Hv & _)|[_ ->]]; [|by intros [=]].
  assert (violated RecipesTags_constraints (tbl_recipes_tags s)
            (mkRecipesTags (next_pk (tbl_recipes_tags s)) (recipes_id recipe)
               tag) = None) as Hnone; [|congruence].
  apply (violated_single_None _ _ rt_key); [|done].
  intros a b. apply pair_same_key.
Qed.

Lemma with_new_rt_nil rid s : with_new_rt rid [] s = s.
Proof.
  unfold with_new_rt. simpl. rewrite app_nil_r, Z.add_0_r.
  destruct s as [? ? ? ? [? ?] ? ? ?]. done.
Qed.

Lemma with_new_rt_cons rid t ts s :
  with_new_rt rid (t :: ts) s
  = with_new_rt rid ts
      (set_recipes_tags
         (Table (rows (tbl_recipes_tags s) ++
                 [mkRecipesTags (next_pk (tbl_recipes_tags s)) rid t])
            (next_pk (tbl_recipes_tags s) + 1)) s).
Proof.
  unfold with_new_rt, set_recipes_tags. simpl. rewrite <- app_assoc. simpl.
  do 2 f_equal. lia.
Qed.

Lemma add_links_inv ts recipe s s' :
  for_each ts (RecipesTags_bulk_create1 recipe) s = (inr tt, s') →
  s' = with_new_rt (recipes_id recipe) ts s.
Proof.
  revert s. induction ts as [|t ts IH]; intros s; simpl.
  - rewrite with_new_rt_nil. unfold ret. by intros [= <-].
  - rewrite with_new_rt_cons. unfold bind at 1.
    destruct (rt_create1_cases recipe t s) as [(e & ->)|(_ & _ & _ & ->)];
      [by intros [=]|].
    apply IH.
Qed.

Lemma add_links_ok ts recipe s :
  Forall (tag_exists s) ts →
  recipes_id recipe ∈ recipes_id <$> rows (tbl_recipes s) →
  NoDup ts →
  (∀ t, t ∈ ts →
        (recipes_id recipe, t) ∉ rt_key <$> rows (tbl_recipes_tags s)) →
  for_each ts (RecipesTags_bulk_create1 recipe) s
    = (inr tt, with_new_rt (recipes_id recipe) ts s).
Proof.
  revert s. induction ts as [|t ts IH]; intros s; simpl.
  - intros _ _ _ _. by rewrite with_new_rt_nil.
  - intros [Hx Hex]%Forall_cons Hr [Hnx Hnd]%NoDup_cons Hkeys.
    rewrite with_new_rt_cons. unfold bind at 1.
    rewrite rt_create1_ok; [|done|done|].
    2:{ apply Hkeys. apply elem_of_cons. by left. }
    apply IH; try done.
    intros y Hy. simpl. rewrite fmap_app, elem_of_app. intros [Hin|Hin].
    + apply (Hkeys y); [apply elem_of_cons; by right|done].
    + simpl in Hin. apply list_elem_of_singleton in Hin.
      injection Hin as Hid. by subst.
Qed.

Lemma rt_key_values rid t s :
  (rid, t) ∈ rt_key <$> rows (tbl_recipes_tags s) ↔
  t ∈ tags_values_list rid s.
Proof.
  unfold tags_values_list, tags_through. rewrite !list_elem_of_fmap. split.
  - intros (l & Hk & Hin). injection Hk as -> ->. exists l.
    split; [done|]. by apply list_elem_of_filter.
  - intros (l & -> & [<- Hin]%list_elem_of_filter). by exists l.
Qed.

Lemma new_rt_tags n rid ts : rt_tags <$> new_rt n rid ts = ts.
Proof.
  revert n. induction ts as [|t ts IH]; intros n; simpl; [done|].
  by rewrite IH.
Qed.

Lemma new_rt_filter n rid ts :
  filter (λ l, rt_recipes l = rid) (new_rt n rid ts) = new_rt n rid ts.
Proof.
  revert n. induction ts as [|t ts IH]; intros n; simpl; [done|].
  rewrite filter_cons_True by done. by rewrite IH.
Qed.

Lemma tags_values_list_new rid ts s :
  tags_values_list rid (with_new_rt rid ts s) = tags_values_list rid s ++ ts.
Proof.
  unfold tags_values_list, tags_through. simpl.
  by rewrite filter_app, fmap_app, new_rt_filter, new_rt_tags.
Qed.

Lemma tags_values_list_remove recipe (ids : gset Z) s :
  tags_values_list (recipes_id recipe) (snd (tags_remove recipe ids s))
  = filter (λ t, t ∉ ids) (tags_values_list (recipes_id recipe) s).
Proof.
  unfold tags_values_list, tags_through, tags_remove, modify. simpl.
  induction (rows (tbl_recipes_tags s)) as [|l ls IH]; [done|].
  rewrite !filter_cons.
  destruct (decide (rt_recipes l = recipes_id recipe)) as [Hr|Hr].
  - destruct (decide (rt_tags l ∈ ids)) as [Hi|Hi].
    + rewrite decide_False by tauto. simpl.
      rewrite filter_cons_False by tauto. apply IH.
    + rewrite decide_True by tauto. rewrite filter_cons_True by done. simpl.
      rewrite filter_cons_True by done. f_equal. apply IH.
  - rewrite decide_True by tauto. rewrite filter_cons_False by done. apply IH.
Qed.

Lemma tags_set_split_spec objs (old : gset Z) new old' new' :
  tags_set_split objs old new = (old', new') →
  old' = old ∖ list_to_set objs ∧
  (∀ t, t ∈ new' → t ∈ new ∨ t ∈ objs) ∧
  (∀ t, t ∈ new → t ∈ new') ∧
  (∀ t, t ∈ objs → t ∈ old ∨ t ∈ new').
Proof.
  revert old new. induction objs as [|x objs IH]; intros old new; simpl.
  - intros [= <- <-]. split; [set_solver|]. split; [tauto|]. split; [done|].
    intros t Ht. by apply elem_of_nil in Ht.
  - destruct (decide (x ∈ old)) as [Hx|Hx].
    + intros (-> & H1 & H2 & H3)%IH. split; [set_solver|].
      split; [|split; [done|]].
      * intros t Ht. destruct (H1 t Ht); [by left|right].
        apply elem_of_cons. by right.
      * intros t [->|Ht]%elem_of_cons; [by left|].
        destruct (H3 t Ht) as [Hin|Hin]; [|by right].
        left. set_solver.
    + intros (-> & H1 & H2 & H3)%IH. split; [set_solver|].
      split; [|split].
      * intros t Ht. destruct (H1 t Ht) as [Hin|Hin].
        -- apply elem_of_app in Hin as [Hin|Hin]; [by left|right].
           apply list_elem_of_singleton in Hin. subst. apply elem_of_cons.
           by left.
        -- right. apply elem_of_cons. by right.
      * intros t Ht. apply H2, elem_of_app. by left.
      * intros t [->|Ht]%elem_of_cons.
        -- right. apply H2, elem_of_app. right.
           by apply list_elem_of_singleton.
        -- by apply H3.
Qed.

Lemma tags_add_inv recipe objs s s' :
  tags_add recipe objs s = (inr tt, s') →
  s' = with_new_rt (recipes_id recipe)
         (elements (list_to_set objs ∖
                    list_to_set (tags_values_list (recipes_id recipe) s)
                    : gset Z)) s.
Proof. unfold tags_add, bind, gets. apply add_links_inv. Qed.

Lemma tags_add_ok recipe objs s :
  (∀ t, t ∈ objs → tag_exists s t) →
  recipes_id recipe ∈ recipes_id <$> rows (tbl_recipes s) →
  tags_add recipe objs s
  = (inr tt,
     with_new_rt (recipes_id recipe)
       (elements (list_to_set objs ∖
                  list_to_set (tags_values_list (recipes_id recipe) s)
                  : gset Z)) s).
Proof.
  intros Hex Hr. unfold tags_add, bind, gets. apply add_links_ok; [|done| |].
  - apply Forall_forall. intros t Ht%elem_of_elements. apply Hex. set_solver.
  - apply NoDup_elements.
  - intros t Ht%elem_of_elements Hk%rt_key_values. set_solver.
Qed.

Lemma set_recipes_tags_twice T1 T2 s :
  set_recipes_tags T2 (set_recipes_tags T1 s) = set_recipes_tags T2 s.
Proof. done. Qed.

(** What [recipe.tags.set] leaves: the recipe is linked to exactly the
    given tags, and only the many-to-many table has changed. *)
Lemma tags_set_inv recipe objs s s' :
  tags_set recipe objs s = (inr tt, s') →
  (∃ T, s' = set_recipes_tags T s) ∧
  (∀ t, t ∈ tags_values_list (recipes_id recipe) s' ↔ t ∈ objs) ∧
  (NoDup (tags_values_list (recipes_id recipe) s) →
   NoDup (tags_values_list (recipes_id recipe) s')).
Proof.
  unfold tags_set, bind at 1, gets.
  destruct (tags_set_split objs
              (list_to_set (tags_values_list (recipes_id recipe) s)) [])
    as [old new] eqn:E.
  apply tags_set_split_spec in E as (Hold & H1 & _ & H3).
  unfold bind. simpl. intros ->%tags_add_inv.
  pose proof (tags_values_list_remove recipe old s) as Hrem. simpl in Hrem.
  split; [by eexists|].
  rewrite tags_values_list_new, Hrem. split.
  - intros t. rewrite elem_of_app, list_elem_of_filter, elem_of_elements.
    rewrite elem_of_difference, !elem_of_list_to_set, list_elem_of_filter.
    rewrite Hold, elem_of_difference, !elem_of_list_to_set. split.
    + intros [[Hno Hv]|[Hn _]].
      * destruct (decide (t ∈ objs)); [done|]. tauto.
      * destruct (H1 t Hn) as [Hnil|?]; [by apply elem_of_nil in Hnil|done].
    + intros Ht. destruct (H3 t Ht) as [Hv|Hn].
      * apply elem_of_list_to_set in Hv. left. tauto.
      * destruct (decide (t ∈ tags_values_list (recipes_id recipe) s));
          [left|right]; tauto.
  - intros Hnd. apply NoDup_app. split; [by apply NoDup_filter|].
    split; [|apply NoDup_elements].
    intros t Ht. rewrite elem_of_elements, elem_of_difference.
    rewrite !elem_of_list_to_set. tauto.
Qed.

Lemma tags_set_ok recipe objs s :
  (∀ t, t ∈ objs → tag_exists s t) →
  recipes_id recipe ∈ recipes_id <$> rows (tbl_recipes s) →
  ∃ s', tags_set recipe objs s = (inr tt, s').
Proof.
  intros Hex Hr. unfold tags_set, bind at 1, gets.
  destruct (tags_set_split objs
              (list_to_set (tags_values_list (recipes_id recipe) s)) [])
    as [old new] eqn:E.
  apply tags_set_split_spec in E as (_ & H1 & _ & _).
  unfold bind. simpl. eexists. apply tags_add_ok; [|done].
  intros t Ht. destruct (H1 t Ht) as [Hnil|?];
    [by apply elem_of_nil in Hnil|]. by apply Hex.
Qed.

(** ** The recipe row *)

Lemma Recipes_objects_create_cases image data author s :
  (∃ e, Recipes_objects_create image data author s = (inl e, s)) ∨
  (∃ ct, attrs_cooking_time data = Some ct ∧
     Recipes_objects_create image data author s
     = (inr (mkRecipes (next_pk (tbl_recipes s)) (default "" (attrs_name data))
               (default "" (attrs_text data)) image ct author),
        set_recipes
          (Table (rows (tbl_recipes s) ++
                  [mkRecipes (next_pk (tbl_recipes s))
                     (default "" (attrs_name data))
                     (default "" (attrs_text data)) image ct author])
             (next_pk (tbl_recipes s) + 1)) s)).
Proof.
  unfold Recipes_objects_create.
  destruct (attrs_cooking_time data) as [ct|]; [|left; by eexists].
  right. exists ct. split; [done|]. unfold objects_create, table_insert.
  done.
Qed.

Lemma Recipes_save_frame recipe s :
  ∃ T, Recipes_save recipe s = (inr tt, set_recipes T s).
Proof.
  unfold Recipes_save, modify. simpl.
  destruct (existsb _ _); by eexists.
Qed.

Lemma Recipes_save_in recipe s :
  recipe ∈ rows (tbl_recipes (snd (Recipes_save recipe s))).
Proof.
  unfold Recipes_save, modify. simpl.
  destruct (existsb _ _) eqn:E; simpl.
  - apply existsb_exists in E as (y & Hin & Hy).
    apply bool_decide_eq_true in Hy. apply list_elem_of_fmap. exists y.
    rewrite bool_decide_eq_true_2 by done. split; [done|].
    by apply list_elem_of_In.
  - apply elem_of_app. right. by apply list_elem_of_singleton.
Qed.

(** Saving a recipe whose key is in the table keeps the keys of the table. *)
Lemma Recipes_save_ids recipe s :
  recipes_id recipe ∈ recipes_id <$> rows (tbl_recipes s) →
  recipes_id <$> rows (tbl_recipes (snd (Recipes_save recipe s)))
  = recipes_id <$> rows (tbl_recipes s) ∧
  next_pk (tbl_recipes (snd (Recipes_save recipe s))) = next_pk (tbl_recipes s).
Proof.
  intros Hin. unfold Recipes_save, modify. simpl.
  destruct (existsb _ _) eqn:E; simpl.
  - split; [|done]. rewrite <- list_fmap_compose. apply list_fmap_ext.
    intros i y _. simpl. by case_bool_decide.
  - exfalso. apply list_elem_of_fmap in Hin as (y & Hy & Hin).
    assert (existsb (λ x, bool_decide (recipes_id x = recipes_id recipe))
              (rows (tbl_recipes s)) = true) as Hex; [|congruence].
    apply existsb_exists. exists y. split; [by apply list_elem_of_In|].
    by apply bool_decide_eq_true.
Qed.

Lemma new_iir_elem n rid items x :
  x ∈ items →
  ∃ r, r ∈ new_iir n rid items ∧ iir_recipe r = rid ∧ iir_pair r = item_pair x.
Proof.
  revert n. induction items as [|y items IH]; intros n Hx;
    [by apply elem_of_nil in Hx|].
  apply elem_of_cons in Hx as [->|Hx]; simpl.
  - eexists. split; [apply elem_of_cons; by left|]. done.
  - destruct (IH (n + 1) Hx) as (r & Hr & ? & ?). exists r.
    split; [apply elem_of_cons; by right|]. done.
Qed.

(** ** The bodies of [create] and [update] *)

(** The steps of a [create] that returns. *)
Lemma create_body_inv vd s recipe s' :
  create_body vd s = (inr recipe, s') →
  ∃ image ct s2,
    attrs_image (data_attrs vd) = Some image ∧
    attrs_cooking_time (data_attrs vd) = Some ct ∧
    recipe = mkRecipes (next_pk (tbl_recipes s))
               (default "" (attrs_name (data_attrs vd)))
               (default "" (attrs_text (data_attrs vd))) image ct
               (data_author vd) ∧
    tags_set recipe (data_tags vd)
      (set_recipes (Table (rows (tbl_recipes s) ++ [recipe])
                      (next_pk (tbl_recipes s) + 1)) s) = (inr tt, s2) ∧
    create_ingredients (data_ingredients vd) recipe s2
      = (inr tt, with_new_iir (recipes_id recipe) (data_ingredients vd) s2) ∧
    Recipes_save recipe
      (with_new_iir (recipes_id recipe) (data_ingredients vd) s2)
      = (inr tt, s').
Proof.
  unfold create_body, bind.
  destruct (attrs_image (data_attrs vd)) as [image|]; [|by intros [=]].
  unfold ret at 1.
  destruct (Recipes_objects_create_cases image (data_attrs vd) (data_author vd)
              s) as [(e & ->)|(ct & Hct & ->)]; [by intros [=]|].
  match goal with
  | |- context [tags_set ?r ?t ?s1] =>
      destruct (tags_set r t s1) as [[e|[]] s2] eqn:Ets; [by intros [=]|]
  end.
  match goal with
  | |- context [create_ingredients ?i ?r ?s2] =>
      destruct (create_ingredients i r s2) as [[e|[]] s3] eqn:Eci;
        [by intros [=]|]
  end.
  apply create_ingredients_inv in Eci as Hs3. subst s3.
  match goal with
  | |- context [Recipes_save ?r ?s3] =>
      destruct (Recipes_save r s3) as [[e|[]] s4] eqn:Esave; [by intros [=]|]
  end.
  unfold ret. intros [= <- <-]. exists image, ct, s2. by repeat split.
Qed.

(** The steps of an [update] that returns. *)
Lemma update_body_inv recipe vd s recipe' s' :
  update_body recipe vd s = (inr recipe', s') →
  ∃ s3,
    recipe' = mkRecipes (recipes_id recipe)
                (default (recipes_name recipe) (attrs_name (data_attrs vd)))
                (default (recipes_text recipe) (attrs_text (data_attrs vd)))
                (default (recipes_image recipe) (attrs_image (data_attrs vd)))
                (default (recipes_cooking_time recipe)
                   (attrs_cooking_time (data_attrs vd)))
                (data_author vd) ∧
    create_ingredients (data_ingredients vd) recipe
      (snd (ingredients_clear recipe s))
      = (inr tt, with_new_iir (recipes_id recipe) (data_ingredients vd)
                   (snd (ingredients_clear recipe s))) ∧
    tags_set recipe (data_tags vd)
      (with_new_iir (recipes_id recipe) (data_ingredients vd)
         (snd (ingredients_clear recipe s))) = (inr tt, s3) ∧
    Recipes_save recipe' s3 = (inr tt, s').
Proof.
  unfold update_body, bind. unfold ingredients_clear at 1, modify at 1.
  match goal with
  | |- context [create_ingredients ?i ?r ?s1] =>
      destruct (create_ingredients i r s1) as [[e|[]] s2] eqn:Eci;
        [by intros [=]|]
  end.
  apply create_ingredients_inv in Eci as Hs2. subst s2.
  match goal with
  | |- context [tags_set ?r ?t ?s2] =>
      destruct (tags_set r t s2) as [[e|[]] s3] eqn:Ets; [by intros [=]|]
  end.
  unfold ModelSerializer_update, bind.
  match goal with
  | |- context [Recipes_save ?r ?s3] =>
      destruct (Recipes_save r s3) as [[e|[]] s4] eqn:Esave; [by intros [=]|]
  end.
  unfold ret. intros [= <- <-]. exists s3. by repeat split.
Qed.

Lemma create_body_persisted vd s recipe s' :
  create_body vd s = (inr recipe, s') →
  persisted s' recipe vd ∧ scalars_set recipe vd.
Proof.
  intros (image & ct & s2 & Himg & Hct & Hrec & Hts & _ & Hsave)%create_body_inv.
  apply tags_set_inv in Hts as ([T ->] & Htags & _).
  destruct (Recipes_save_frame recipe
              (with_new_iir (recipes_id recipe) (data_ingredients vd)
                 (set_recipes_tags T
                    (set_recipes
                       (Table (rows (tbl_recipes s) ++ [recipe])
                          (next_pk (tbl_recipes s) + 1)) s)))) as [T' Hfr].
  pose proof (Recipes_save_in recipe
                (with_new_iir (recipes_id recipe) (data_ingredients vd)
                   (set_recipes_tags T
                      (set_recipes
                         (Table (rows (tbl_recipes s) ++ [recipe])
                            (next_pk (tbl_recipes s) + 1)) s)))) as Hin.
  rewrite Hsave in Hin. rewrite Hsave in Hfr. injection Hfr as ->.
  split; [split; [done|split]|].
  - intros t Ht. by apply Htags.
  - intros x Hx. simpl.
    destruct (new_iir_elem (next_pk (tbl_iir s)) (recipes_id recipe)
                (data_ingredients vd) x Hx) as (r & Hr & ? & ?).
    exists r. split; [|done]. apply elem_of_app. by right.
  - rewrite Hrec. unfold scalars_set. simpl. rewrite Himg, Hct.
    repeat split; try (intros v [= ->]; done); intros v ->; done.
Qed.

Lemma update_body_persisted recipe vd s recipe' s' :
  update_body recipe vd s = (inr recipe', s') →
  persisted s' recipe' vd ∧ scalars_set recipe' vd ∧
  recipes_id recipe' = recipes_id recipe.
Proof.
  intros (s3 & Hrec & _ & Hts & Hsave)%update_body_inv.
  apply tags_set_inv in Hts as ([T ->] & Htags & _).
  destruct (Recipes_save_frame recipe'
              (set_recipes_tags T
                 (with_new_iir (recipes_id recipe) (data_ingredients vd)
                    (snd (ingredients_clear recipe s))))) as [T' Hfr].
  pose proof (Recipes_save_in recipe'
                (set_recipes_tags T
                   (with_new_iir (recipes_id recipe) (data_ingredients vd)
                      (snd (ingredients_clear recipe s))))) as Hin.
  rewrite Hsave in Hin. rewrite Hsave in Hfr. injection Hfr as ->.
  assert (recipes_id recipe' = recipes_id recipe) as Hid by by rewrite Hrec.
  split; [split; [done|split]|split; [|done]].
  - intros t Ht. rewrite Hid. by apply Htags.
  - intros x Hx. simpl. rewrite Hid.
    destruct (new_iir_elem
                (next_pk (tbl_iir (snd (ingredients_clear recipe s))))
                (recipes_id recipe) (data_ingredients vd) x Hx)
      as (r & Hr & ? & ?).
    exists r. split; [|done]. apply elem_of_app. by right.
  - rewrite Hrec. unfold scalars_set. simpl.
    repeat split; intros v ->; done.
Qed.

Section atomicity.
Variable validate_amount : Z → bool.

(** C2.  [create] and [update], and with them the operations Create and
    Update, are all or nothing.  When they raise, at whatever point of the
    transaction, the store is exactly the store before the call.  When they
    return, every write is in the store: the recipe row with the scalar
    fields of the input, a link to every tag and a through row for every
    ingredient entry. *)
Theorem create_update_atomic (self : request) (init : initial_data)
    (data : attrs) (vd : validated_data) (recipe : Recipes) (s : store) :
  all_or_nothing (create vd) s
    (λ r s', persisted s' r vd ∧ scalars_set r vd) ∧
  all_or_nothing (update recipe vd) s
    (λ r s', persisted s' r vd ∧ scalars_set r vd ∧
             recipes_id r = recipes_id recipe) ∧
  all_or_nothing (Create validate_amount self init data) s
    (λ r s', persisted s' r (validated self init data) ∧
             scalars_set r (validated self init data)) ∧
  all_or_nothing (Update validate_amount self recipe init data) s
    (λ r s', persisted s' r (validated self init data) ∧
             scalars_set r (validated self init data) ∧
             recipes_id r = recipes_id recipe).
Proof.
  assert (∀ vd', all_or_nothing (create vd') s
            (λ r s', persisted s' r vd' ∧ scalars_set r vd')) as Hc.
  { intros vd'. unfold all_or_nothing, create, atomic.
    destruct (create_body vd' s) as [[e|r] s'] eqn:E; [done|].
    by apply create_body_persisted in E. }
  assert (∀ vd', all_or_nothing (update recipe vd') s
            (λ r s', persisted s' r vd' ∧ scalars_set r vd' ∧
                     recipes_id r = recipes_id recipe)) as Hu.
  { intros vd'. unfold all_or_nothing, update, atomic.
    destruct (update_body recipe vd' s) as [[e|r] s'] eqn:E; [done|].
    by apply update_body_persisted in E. }
  split; [apply Hc|]. split; [apply Hu|].
  destruct (validate_cases validate_amount self init data s)
    as [(_ & Hv)|[(_ & e & _ & Hv)|[(_ & _ & _ & Hv)|
        [(_ & _ & _ & e & _ & Hv)|(_ & _ & _ & _ & Hv)]]]].
  1-4: split; unfold all_or_nothing;
    [rewrite (Create_validate_fails _ _ _ _ _ _ Hv)
    |rewrite (Update_validate_fails _ _ _ _ _ _ _ Hv)]; done.
  split; unfold all_or_nothing;
    [rewrite (Create_validate_ok _ _ _ _ _ _ Hv); apply Hc
    |rewrite (Update_validate_ok _ _ _ _ _ _ _ Hv); apply Hu].
Qed.
End atomicity.

(** The rollback at work: the second through row violates the unique pair,
    the body has by then written the recipe row, the tag link and the first
    through row, and [create] hands back the store it started from. *)
Lemma create_rolls_back :
  fst (create_body demo_validated_repeated demo_store)
    = inl (IntegrityError "unique ingredient in recipe") ∧
  rows (tbl_recipes (snd (create_body demo_validated_repeated demo_store)))
    ≠ rows (tbl_recipes demo_store) ∧
  create demo_validated_repeated demo_store
    = (inl (IntegrityError "unique ingredient in recipe"), demo_store).
Proof. split; [by vm_compute|]. split; [by vm_compute|by vm_compute]. Qed.

(** ** Reading a recipe back *)

Lemma tags_values_list_NoDup rid s :
  unique_on rt_key (tbl_recipes_tags s) → NoDup (tags_values_list rid s).
Proof.
  unfold unique_on, tags_values_list, tags_through.
  induction (rows (tbl_recipes_tags s)) as [|l ls IH]; [constructor|].
  simpl. intros [Hl Hls]%NoDup_cons. rewrite filter_cons.
  destruct (decide (rt_recipes l = rid)) as [Hr|Hr]; [|by apply IH].
  simpl. apply NoDup_cons. split; [|by apply IH].
  intros (l' & Ht & [Hr' Hin]%list_elem_of_filter)%list_elem_of_fmap.
  apply Hl, list_elem_of_fmap. exists l'. split; [|done].
  unfold rt_key. congruence.
Qed.

(** The tags read back are the tags of the through rows. *)
Lemma tags_all_ids rid s :
  NoDup (tags_id <$> rows (tbl_tags s)) →
  (∀ t, t ∈ tags_values_list rid s → tag_exists s t) →
  tags_id <$> tags_all rid s ≡ₚ tags_values_list rid s.
Proof.
  intros Hnd Hex. unfold tags_all. rewrite order_by_id_perm.
  unfold tags_values_list in *.
  induction (tags_through rid s) as [|l ls IH]; [done|].
  simpl. rewrite fmap_app.
  assert (tag_exists s (rt_tags l)) as Hl.
  { apply Hex. simpl. apply elem_of_cons. by left. }
  apply tag_get_is_Some in Hl as [g Hg].
  pose proof (filter_pk_unique (tbl_tags s) (rt_tags l) g Hnd Hg) as Hf.
  apply objects_get_Some in Hg as [_ Hpk]. simpl in *.
  rewrite Hf. simpl. rewrite Hpk. constructor. apply IH.
  intros t Ht. apply Hex. simpl. apply elem_of_cons. by right.
Qed.

(** In a well-formed store nothing references the next recipe key. *)
Lemma next_recipe_fresh s :
  store_ok s →
  (next_pk (tbl_recipes s) ∉ recipes_id <$> rows (tbl_recipes s)) ∧
  (next_pk (tbl_recipes s) ∉ iir_recipe <$> rows (tbl_iir s)) ∧
  (next_pk (tbl_recipes s) ∉ rt_recipes <$> rows (tbl_recipes_tags s)).
Proof.
  intros Hok.
  assert (next_pk (tbl_recipes s) ∉ recipes_id <$> rows (tbl_recipes s))
    as Hfresh.
  { intros (r & Hr & Hin)%list_elem_of_fmap.
    destruct (ok_recipes s Hok) as [_ Hlt]. rewrite Forall_forall in Hlt.
    specialize (Hlt r Hin). simpl in Hlt. lia. }
  split; [done|]. split.
  - intros (r & Hr & Hin)%list_elem_of_fmap. apply Hfresh.
    pose proof (fk_iir_recipe s Hok) as Hfk. unfold references in Hfk.
    rewrite Forall_forall in Hfk. rewrite Hr. by apply Hfk.
  - intros (r & Hr & Hin)%list_elem_of_fmap. apply Hfresh.
    pose proof (fk_rt_recipes s Hok) as Hfk. unfold references in Hfk.
    rewrite Forall_forall in Hfk. rewrite Hr. by apply Hfk.
Qed.

Lemma tags_values_list_frame rid s s' :
  tbl_recipes_tags s' = tbl_recipes_tags s →
  tags_values_list rid s' = tags_values_list rid s.
Proof. unfold tags_values_list, tags_through. by intros ->. Qed.

Lemma tags_all_frame rid s s' :
  tbl_recipes_tags s' = tbl_recipes_tags s → tbl_tags s' = tbl_tags s →
  tags_all rid s' = tags_all rid s.
Proof. unfold tags_all, tags_through. by intros -> ->. Qed.

(** ** Create and Update on valid input *)

Lemma violated_nil {A} `{Model A} (t : table A) (r : A) :
  violated [] t r = None.
Proof. done. Qed.

Lemma create_body_ok vd s image ct :
  store_ok s →
  attrs_image (data_attrs vd) = Some image →
  attrs_cooking_time (data_attrs vd) = Some ct →
  Forall (ingredient_exists s) (data_ingredients vd) →
  NoDup (item_id <$> data_ingredients vd) →
  Forall (tag_exists s) (data_tags vd) →
  ∃ recipe s', create_body vd s = (inr recipe, s').
Proof.
  intros Hok Himg Hct Hex Hnd Htex.
  destruct (next_recipe_fresh s Hok) as (_ & Hfresh & _).
  unfold create_body, bind. rewrite Himg. unfold ret at 1.
  unfold Recipes_objects_create. rewrite Hct.
  unfold objects_create, table_insert. rewrite violated_nil.
  cbv beta iota zeta.
  set (recipe := mkRecipes (next_pk (tbl_recipes s))
                   (default "" (attrs_name (data_attrs vd)))
                   (default "" (attrs_text (data_attrs vd))) image ct
                   (data_author vd)).
  set (s1 := set_recipes (Table (rows (tbl_recipes s) ++ [recipe])
                            (next_pk (tbl_recipes s) + 1)) s).
  assert (recipes_id recipe ∈ recipes_id <$> rows (tbl_recipes s1)) as Hr.
  { simpl. rewrite fmap_app, elem_of_app. right.
    by apply list_elem_of_singleton. }
  destruct (tags_set_ok recipe (data_tags vd) s1) as [s2 Hts]; [|done|].
  { intros t Ht. rewrite Forall_forall in Htex. by apply Htex. }
  rewrite Hts. apply tags_set_inv in Hts as ([T ->] & _).
  rewrite create_ingredients_ok; [|done|done|done|].
  - destruct (Recipes_save_frame recipe
                (with_new_iir (recipes_id recipe) (data_ingredients vd)
                   (set_recipes_tags T s1))) as [T' ->].
    by eexists _, _.
  - intros x Hx (r & Hk & Hin)%list_elem_of_fmap. simpl in Hin.
    apply Hfresh. injection Hk as _ Hk. simpl in Hk. rewrite Hk.
    by apply list_elem_of_fmap_2.
Qed.

Section create_claim.
Variable validate_amount : Z → bool.

(** C1.  A valid Create call with N >= 1 distinct existing ingredient
    entries and M >= 1 distinct existing tag ids commits a recipe with
    exactly N through rows, one per entry with the entry's amount, and
    exactly M tag links; reading the recipe back right after Create yields
    exactly those ingredient entries and those tags. *)
Theorem Create_persists (self : request) (init : initial_data) (data : attrs)
    (s : store) (image : string) (cooking_time : Z) :
  store_ok s →
  attrs_image data = Some image →
  attrs_cooking_time data = Some cooking_time →
  entries init ≠ [] → tag_ids init ≠ [] →
  NoDup (item_id <$> entries init) → NoDup (tag_ids init) →
  Forall (ingredient_exists s) (entries init) →
  Forall (tag_exists s) (tag_ids init) →
  Forall (λ x, validate_amount (item_amount x) = true) (entries init) →
  ∃ recipe s',
    Create validate_amount self init data s = (inr recipe, s') ∧
    recipe ∈ rows (tbl_recipes s') ∧
    iir_pair <$> ingredientinrecipe_set (recipes_id recipe) s'
      ≡ₚ item_pair <$> entries init ∧
    length (ingredientinrecipe_set (recipes_id recipe) s')
      = length (entries init) ∧
    tags_id <$> tags_all (recipes_id recipe) s' ≡ₚ tag_ids init ∧
    length (tags_through (recipes_id recipe) s') = length (tag_ids init).
Proof.
  intros Hok Himg Hct Hne Htne Hnd Htnd Hex Htex Hval.
  rewrite (Create_validate_ok validate_amount self init data s
             (validated self init data)).
  2:{ apply validate_succeeds.
      - unfold ingredients_violation. tauto.
      - unfold tags_violation. tauto. }
  destruct (create_body_ok (validated self init data) s image cooking_time)
    as (recipe & s' & Hbody); try done.
  exists recipe, s'. split; [unfold create; by apply atomic_returns|].
  destruct (next_recipe_fresh s Hok) as (_ & Hfi & Hft).
  apply create_body_inv in Hbody
    as (image' & ct' & s2 & _ & _ & Hrec & Hts & _ & Hsave).
  assert (recipes_id recipe = next_pk (tbl_recipes s)) as Hid
    by by rewrite Hrec.
  apply tags_set_inv in Hts as ([T ->] & Htags & Htagsnd).
  destruct (Recipes_save_frame recipe
              (with_new_iir (recipes_id recipe)
                 (data_ingredients (validated self init data))
                 (set_recipes_tags T
                    (set_recipes
                       (Table (rows (tbl_recipes s) ++ [recipe])
                          (next_pk (tbl_recipes s) + 1)) s)))) as [T' Hfr].
  pose proof (Recipes_save_in recipe
                (with_new_iir (recipes_id recipe)
                   (data_ingredients (validated self init data))
                   (set_recipes_tags T
                      (set_recipes
                         (Table (rows (tbl_recipes s) ++ [recipe])
                            (next_pk (tbl_recipes s) + 1)) s)))) as Hin.
  rewrite Hsave in Hin. rewrite Hsave in Hfr. injection Hfr as ->.
  simpl in Htags, Htagsnd.
  assert (iir_pair <$> ingredientinrecipe_set (recipes_id recipe)
            (set_recipes T'
               (with_new_iir (recipes_id recipe) (entries init)
                  (set_recipes_tags T
                     (set_recipes
                        (Table (rows (tbl_recipes s) ++ [recipe])
                           (next_pk (tbl_recipes s) + 1)) s))))
          ≡ₚ item_pair <$> entries init) as Hiir.
  { eapply ingredientinrecipe_set_new; [reflexivity|]. simpl.
    by rewrite Hid. }
  set (s' := set_recipes T' _) in *.
  assert (tags_values_list (recipes_id recipe) s' ≡ₚ tag_ids init) as Hvals.
  { apply NoDup_Permutation; [|done|done]. apply Htagsnd.
    rewrite (tags_values_list_frame _ s) by done.
    by apply tags_values_list_NoDup, uniq_recipes_tags. }
  split; [done|]. split; [done|]. split; [|split].
  - apply Permutation_length in Hiir. by rewrite !length_fmap in Hiir.
  - rewrite tags_all_ids; [done| |].
    + apply (ok_tags s Hok).
    + intros t Ht. rewrite Hvals in Ht. rewrite Forall_forall in Htex.
      by apply Htex.
  - apply Permutation_length in Hvals. unfold tags_values_list in Hvals.
    by rewrite length_fmap in Hvals.
Qed.
End create_claim.

Lemma demo_store_ok : store_ok demo_store.
Proof. constructor; by_compute. Qed.

Lemma Create_persists_witness :
  store_ok demo_store ∧
  NoDup (item_id <$> entries demo_init) ∧ NoDup (tag_ids demo_init) ∧
  ∃ recipe s',
    Create demo_validate_amount demo_request demo_init demo_attrs demo_store
      = (inr recipe, s') ∧
    recipe ∈ rows (tbl_recipes s') ∧
    iir_pair <$> ingredientinrecipe_set (recipes_id recipe) s'
      ≡ₚ item_pair <$> entries demo_init ∧
    length (ingredientinrecipe_set (recipes_id recipe) s')
      = length (entries demo_init) ∧
    tags_id <$> tags_all (recipes_id recipe) s' ≡ₚ tag_ids demo_init ∧
    length (tags_through (recipes_id recipe) s') = length (tag_ids demo_init).
Proof.
  assert (NoDup (item_id <$> entries demo_init)) as Hnd by by_compute.
  assert (NoDup (tag_ids demo_init)) as Htnd by by_compute.
  split; [apply demo_store_ok|]. split; [done|]. split; [done|].
  apply (Create_persists demo_validate_amount demo_request demo_init
           demo_attrs demo_store "soup.png" 40);
    [apply demo_store_ok|done|done|done|done|done|done|by_compute|by_compute|].
  repeat constructor.
Defined.

Lemma update_body_ok recipe vd s :
  recipes_id recipe ∈ recipes_id <$> rows (tbl_recipes s) →
  Forall (ingredient_exists s) (data_ingredients vd) →
  NoDup (item_id <$> data_ingredients vd) →
  Forall (tag_exists s) (data_tags vd) →
  ∃ recipe' s', update_body recipe vd s = (inr recipe', s').
Proof.
  intros Hr Hex Hnd Htex.
  unfold update_body, bind. unfold ingredients_clear at 1, modify at 1.
  cbv beta iota zeta.
  set (s1 := set_iir (table_delete (λ r, iir_recipe r = recipes_id recipe)
                        (tbl_iir s)) s).
  rewrite create_ingredients_ok; [|done|done|done|].
  2:{ intros x Hx (r & Hk & Hin)%list_elem_of_fmap. simpl in Hin.
      apply list_elem_of_filter in Hin as [Hne _]. apply Hne.
      by injection Hk as _ ->. }
  destruct (tags_set_ok recipe (data_tags vd)
              (with_new_iir (recipes_id recipe) (data_ingredients vd) s1))
    as [s3 Hts]; [|done|].
  { intros t Ht. rewrite Forall_forall in Htex. by apply Htex. }
  rewrite Hts. unfold ModelSerializer_update, bind.
  match goal with
  | |- context [Recipes_save ?r ?s3] =>
      destruct (Recipes_save_frame r s3) as [T' ->]
  end.
  by eexists _, _.
Qed.

Section update_claim.
Variable validate_amount : Z → bool.

(** C3.  Update replaces the association sets, it does not merge them:
    after a valid Update the ingredient associations of the recipe are
    exactly the supplied entries, whatever they were before (a recipe with
    {A:2, B:3} updated with {C:1} is left with exactly {C:1}), and its tags
    are exactly the supplied tag ids. *)
Theorem Update_replaces (self : request) (recipe : Recipes)
    (init : initial_data) (data : attrs) (s : store) :
  store_ok s →
  recipes_id recipe ∈ recipes_id <$> rows (tbl_recipes s) →
  entries init ≠ [] → tag_ids init ≠ [] →
  NoDup (item_id <$> entries init) → NoDup (tag_ids init) →
  Forall (ingredient_exists s) (entries init) →
  Forall (tag_exists s) (tag_ids init) →
  Forall (λ x, validate_amount (item_amount x) = true) (entries init) →
  ∃ recipe' s',
    Update validate_amount self recipe init data s = (inr recipe', s') ∧
    recipes_id recipe' = recipes_id recipe ∧
    recipe' ∈ rows (tbl_recipes s') ∧
    iir_pair <$> ingredientinrecipe_set (recipes_id recipe) s'
      ≡ₚ item_pair <$> entries init ∧
    tags_values_list (recipes_id recipe) s' ≡ₚ tag_ids init ∧
    tags_id <$> tags_all (recipes_id recipe) s' ≡ₚ tag_ids init.
Proof.
  intros Hok Hr Hne Htne Hnd Htnd Hex Htex Hval.
  rewrite (Update_validate_ok validate_amount self recipe init data s
             (validated self init data)).
  2:{ apply validate_succeeds.
      - unfold ingredients_violation. tauto.
      - unfold tags_violation. tauto. }
  destruct (update_body_ok recipe (validated self init data) s)
    as (recipe' & s' & Hbody); try done.
  exists recipe', s'. split; [unfold update; by apply atomic_returns|].
  apply update_body_inv in Hbody as (s3 & Hrec & _ & Hts & Hsave).
  assert (recipes_id recipe' = recipes_id recipe) as Hid by by rewrite Hrec.
  apply tags_set_inv in Hts as ([T ->] & Htags & Htagsnd).
  match type of Hsave with
  | Recipes_save ?r ?s3 = _ =>
      destruct (Recipes_save_frame r s3) as [T' Hfr];
      pose proof (Recipes_save_in r s3) as Hin
  end.
  rewrite Hsave in Hin. rewrite Hsave in Hfr. injection Hfr as ->.
  simpl in Htags, Htagsnd.
  split; [done|]. split; [done|].
  assert (tags_values_list (recipes_id recipe)
            (set_recipes T'
               (set_recipes_tags T
                  (with_new_iir (recipes_id recipe) (entries init)
                     (snd (ingredients_clear recipe s)))))
          ≡ₚ tag_ids init) as Hvals.
  { apply NoDup_Permutation; [|done|done]. apply Htagsnd.
    rewrite (tags_values_list_frame _ s) by done.
    by apply tags_values_list_NoDup, uniq_recipes_tags. }
  split; [|split; [done|]].
  - eapply ingredientinrecipe_set_new; [reflexivity|]. simpl.
    apply not_elem_of_fmap_filter_ne.
  - rewrite tags_all_ids; [done| |].
    + apply (ok_tags s Hok).
    + intros t Ht. rewrite Hvals in Ht. rewrite Forall_forall in Htex.
      by apply Htex.
Qed.
End update_claim.

Lemma Update_replaces_witness :
  store_ok demo_store ∧
  iir_pair <$> ingredientinrecipe_set 1 demo_store = [(2, 3); (1, 2)] ∧
  entries demo_init_oil = [mkItem 3 1] ∧
  ∃ recipe' s',
    Update demo_validate_amount demo_request
      (mkRecipes 1 "porridge" "boil" "1.png" 10 20) demo_init_oil demo_attrs
      demo_store = (inr recipe', s') ∧
    recipes_id recipe' = 1 ∧
    recipe' ∈ rows (tbl_recipes s') ∧
    iir_pair <$> ingredientinrecipe_set 1 s' ≡ₚ [(3, 1)] ∧
    tags_values_list 1 s' ≡ₚ [2] ∧
    tags_id <$> tags_all 1 s' ≡ₚ [2].
Proof.
  split; [apply demo_store_ok|]. split; [by vm_compute|]. split; [done|].
  apply (Update_replaces demo_validate_amount demo_request
           (mkRecipes 1 "porridge" "boil" "1.png" 10 20) demo_init_oil
           demo_attrs demo_store);
    [apply demo_store_ok|by_compute|done|done|by_compute|by_compute
    |by_compute|by_compute|].
  repeat constructor.
Defined.

(** ** The invariant is kept by every writer *)

Section references_facts.
Context {A B : Type} `{Model B}.
Implicit Types (child : table A) (parent : table B) (fk : A → Z).

Lemma references_delete fk (P : A → Prop) `{∀ r, Decision (P r)} child parent :
  references fk child parent → references fk (table_delete P child) parent.
Proof.
  unfold references. simpl. intros Hall. apply Forall_forall.
  intros r [_ Hin]%list_elem_of_filter. rewrite Forall_forall in Hall.
  by apply Hall.
Qed.

Lemma references_insert fk child parent r n :
  references fk child parent → fk r ∈ pk_of <$> rows parent →
  references fk (Table (rows child ++ [r]) n) parent.
Proof.
  unfold references. simpl. intros Hall Hr. apply Forall_app.
  split; [done|]. by constructor.
Qed.

Lemma references_parent fk child parent parent' :
  references fk child parent →
  (∀ x, x ∈ pk_of <$> rows parent → x ∈ pk_of <$> rows parent') →
  references fk child parent'.
Proof.
  unfold references. intros Hall Hsub. eapply Forall_impl; [done|].
  intros r. apply Hsub.
Qed.
End references_facts.

Lemma store_ok_set_iir T s :
  store_ok s → table_ok T → unique_on iir_key T →
  references iir_ingredient T (tbl_ingredients s) →
  references iir_recipe T (tbl_recipes s) →
  store_ok (set_iir T s).
Proof. intros []. by constructor. Qed.

Lemma store_ok_set_recipes_tags T s :
  store_ok s → table_ok T → unique_on rt_key T →
  references rt_recipes T (tbl_recipes s) →
  references rt_tags T (tbl_tags s) →
  store_ok (set_recipes_tags T s).
Proof. intros []. by constructor. Qed.

Lemma store_ok_set_recipes T s :
  store_ok s → table_ok T →
  (∀ x, x ∈ recipes_id <$> rows (tbl_recipes s) → x ∈ recipes_id <$> rows T) →
  store_ok (set_recipes T s).
Proof.
  intros [] HT Hsub. constructor; simpl; try done.
  - by apply (references_parent _ _ (tbl_recipes s)).
  - by apply (references_parent _ _ (tbl_recipes s)).
  - by apply (references_parent _ _ (tbl_recipes s)).
  - by apply (references_parent _ _ (tbl_recipes s)).
Qed.

Lemma store_ok_set_favorite T s :
  store_ok s → table_ok T → unique_on fc_key T →
  references fc_recipe T (tbl_recipes s) →
  store_ok (set_favorite T s).
Proof. intros []. by constructor. Qed.

Lemma store_ok_set_cart T s :
  store_ok s → table_ok T → unique_on fc_key T →
  references fc_recipe T (tbl_recipes s) →
  store_ok (set_cart T s).
Proof. intros []. by constructor. Qed.

Lemma store_ok_set_subscribe T s :
  store_ok s → table_ok T → unique_on subscribe_key T →
  store_ok (set_subscribe T s).
Proof. intros []. by constructor. Qed.

Lemma store_ok_set_ingredients T s :
  store_ok s → table_ok T → unique_on ingredient_key T →
  (∀ x, x ∈ ingredients_id <$> rows (tbl_ingredients s) →
        x ∈ ingredients_id <$> rows T) →
  store_ok (set_ingredients T s).
Proof.
  intros [] HT Hu Hsub. constructor; simpl; try done.
  by apply (references_parent _ _ (tbl_ingredients s)).
Qed.

Lemma store_ok_set_tags T s :
  store_ok s → table_ok T → unique_on tags_name T → unique_on tags_color T →
  unique_on tags_slug T →
  (∀ x, x ∈ tags_id <$> rows (tbl_tags s) → x ∈ tags_id <$> rows T) →
  store_ok (set_tags T s).
Proof.
  intros [] HT Hn Hc Hs Hsub. constructor; simpl; try done.
  by apply (references_parent _ _ (tbl_tags s)).
Qed.

Lemma empty_store_ok : store_ok empty_store.
Proof. constructor; by_compute. Qed.

Lemma keeps_ret {A B} (f : store → B) (a : A) : keeps f (ret a).
Proof. by intros s. Qed.

Lemma keeps_bind {A B C} (f : store → C) (m : db A) (k : A → db B) :
  keeps f m → (∀ a, keeps f (k a)) → keeps f (bind m k).
Proof.
  intros Hm Hk s. unfold bind. specialize (Hm s).
  destruct (m s) as [[e|a] s1]; simpl in *; [done|].
  by rewrite Hk.
Qed.

Lemma keeps_for_each {A C} (f : store → C) (xs : list A) body :
  (∀ x, keeps f (body x)) → keeps f (for_each xs body).
Proof.
  intros Hb. induction xs as [|x xs IH]; simpl.
  - apply keeps_ret.
  - apply keeps_bind; [apply Hb|]. intros _. apply IH.
Qed.

Lemma preserves_keeps {A C} (f : store → C) (P : C → Prop) (m : db A) :
  keeps f m → preserves (λ s, P (f s)) m.
Proof. intros Hm s Hs. by rewrite Hm. Qed.

Lemma preserves_and {A} (I J : store → Prop) (m : db A) :
  preserves I m → preserves J m → preserves (λ s, I s ∧ J s) m.
Proof. intros HI HJ s [? ?]. split; [by apply HI|by apply HJ]. Qed.

Lemma preserves_ok_with {A} rid (m : db A) :
  preserves store_ok m → keeps tbl_recipes m → preserves (ok_with rid) m.
Proof.
  intros Hp Hk. apply preserves_and; [done|].
  by apply (preserves_keeps tbl_recipes
              (λ t, rid ∈ recipes_id <$> rows t)).
Qed.

Lemma bulk_create1_preserves ingredient_id recipe amount :
  preserves store_ok
    (IngredientInRecipe_bulk_create1 ingredient_id recipe amount).
Proof.
  intros s Hok.
  destruct (bulk_create1_cases ingredient_id recipe amount s)
    as [(e & ->)|(Hi & Hr & Hk & ->)]; [done|].
  simpl. apply store_ok_set_iir; [done| | | |].
  - by apply (table_insert_ok [] (λ i, mkIngredientInRecipe i ingredient_id
                                         (recipes_id recipe) amount));
      [|apply (ok_iir s Hok)|].
  - apply unique_on_insert; [apply (uniq_iir s Hok)|done].
  - apply references_insert; [apply (fk_iir_ingredient s Hok)|done].
  - apply references_insert; [apply (fk_iir_recipe s Hok)|done].
Qed.

Lemma bulk_create1_keeps ingredient_id recipe amount :
  keeps tbl_recipes
    (IngredientInRecipe_bulk_create1 ingredient_id recipe amount).
Proof.
  intros s.
  by destruct (bulk_create1_cases ingredient_id recipe amount s)
    as [(e & ->)|(_ & _ & _ & ->)].
Qed.

Lemma rt_create1_preserves recipe tag :
  preserves store_ok (RecipesTags_bulk_create1 recipe tag).
Proof.
  intros s Hok.
  destruct (rt_create1_cases recipe tag s)
    as [(e & ->)|(Ht & Hr & Hk & ->)]; [done|].
  simpl. apply store_ok_set_recipes_tags; [done| | | |].
  - by apply (table_insert_ok [] (λ i, mkRecipesTags i (recipes_id recipe)
                                         tag));
      [|apply (ok_recipes_tags s Hok)|].
  - apply unique_on_insert; [apply (uniq_recipes_tags s Hok)|done].
  - apply references_insert; [apply (fk_rt_recipes s Hok)|done].
  - apply references_insert; [apply (fk_rt_tags s Hok)|done].
Qed.

Lemma rt_create1_keeps recipe tag :
  keeps tbl_recipes (RecipesTags_bulk_create1 recipe tag).
Proof.
  intros s.
  by destruct (rt_create1_cases recipe tag s)
    as [(e & ->)|(_ & _ & _ & ->)].
Qed.

Lemma ingredients_clear_preserves recipe :
  preserves store_ok (ingredients_clear recipe).
Proof.
  intros s Hok. simpl. apply store_ok_set_iir; [done| | | |].
  - apply table_delete_ok, (ok_iir s Hok).
  - apply unique_on_delete, (uniq_iir s Hok).
  - apply references_delete, (fk_iir_ingredient s Hok).
  - apply references_delete, (fk_iir_recipe s Hok).
Qed.

Lemma tags_remove_preserves recipe ids :
  preserves store_ok (tags_remove recipe ids).
Proof.
  intros s Hok. simpl. apply store_ok_set_recipes_tags; [done| | | |].
  - apply table_delete_ok, (ok_recipes_tags s Hok).
  - apply unique_on_delete, (uniq_recipes_tags s Hok).
  - apply references_delete, (fk_rt_recipes s Hok).
  - apply references_delete, (fk_rt_tags s Hok).
Qed.

Lemma create_ingredients_preserves ingredients recipe :
  preserves store_ok (create_ingredients ingredients recipe).
Proof.
  apply preserves_for_each. intros x. apply bulk_create1_preserves.
Qed.

Lemma create_ingredients_keeps ingredients recipe :
  keeps tbl_recipes (create_ingredients ingredients recipe).
Proof. apply keeps_for_each. intros x. apply bulk_create1_keeps. Qed.

Lemma tags_add_preserves recipe objs :
  preserves store_ok (tags_add recipe objs).
Proof.
  apply preserves_bind; [apply preserves_gets|]. intros vals.
  apply preserves_for_each. intros t. apply rt_create1_preserves.
Qed.

Lemma tags_add_keeps recipe objs : keeps tbl_recipes (tags_add recipe objs).
Proof.
  apply keeps_bind; [done|]. intros vals.
  apply keeps_for_each. intros t. apply rt_create1_keeps.
Qed.

Lemma tags_set_preserves recipe objs :
  preserves store_ok (tags_set recipe objs).
Proof.
  apply preserves_bind; [apply preserves_gets|]. intros vals.
  destruct (tags_set_split objs (list_to_set vals) []) as [old new].
  apply preserves_bind; [apply tags_remove_preserves|]. intros _.
  apply tags_add_preserves.
Qed.

Lemma tags_set_keeps recipe objs : keeps tbl_recipes (tags_set recipe objs).
Proof.
  apply keeps_bind; [done|]. intros vals.
  destruct (tags_set_split objs (list_to_set vals) []) as [old new].
  apply keeps_bind; [done|]. intros _. apply tags_add_keeps.
Qed.

Lemma table_ok_ids {A} `{Model A} (t t' : table A) :
  pk_of <$> rows t' = pk_of <$> rows t → next_pk t' = next_pk t →
  table_ok t → table_ok t'.
Proof.
  unfold table_ok. intros Hids Hn [Hnd Hlt]. rewrite Hids, Hn.
  split; [done|].
  apply (Forall_fmap pk_of (λ x, x < next_pk t)).
  rewrite Hids. by apply (Forall_fmap pk_of (λ x, x < next_pk t)).
Qed.

Lemma Recipes_save_preserves recipe :
  preserves (ok_with (recipes_id recipe)) (Recipes_save recipe).
Proof.
  intros s [Hok Hin].
  destruct (Recipes_save_ids recipe s Hin) as [Hids Hn].
  destruct (Recipes_save_frame recipe s) as [T HT].
  rewrite HT in *. simpl in *. split.
  - apply store_ok_set_recipes; [done| |].
    + by apply (table_ok_ids (tbl_recipes s)); [| |apply (ok_recipes s Hok)].
    + intros x Hx. by rewrite Hids.
  - simpl. by rewrite Hids.
Qed.

Lemma Recipes_objects_create_preserves image data author :
  preserves store_ok (Recipes_objects_create image data author).
Proof.
  intros s Hok.
  destruct (Recipes_objects_create_cases image data author s)
    as [(e & ->)|(ct & _ & ->)]; [done|].
  simpl. apply store_ok_set_recipes; [done| |].
  - by apply (table_insert_ok [] (λ i, mkRecipes i _ _ _ _ _));
      [|apply (ok_recipes s Hok)|].
  - intros x Hx. simpl. rewrite fmap_app, elem_of_app. by left.
Qed.

Lemma create_body_preserves vd : preserves store_ok (create_body vd).
Proof.
  intros s Hok. unfold create_body. unfold bind at 1.
  destruct (attrs_image (data_attrs vd)) as [image|]; [|done].
  unfold ret at 1. unfold bind at 1.
  pose proof (Recipes_objects_create_preserves image (data_attrs vd)
                (data_author vd) s Hok) as Hok1.
  destruct (Recipes_objects_create_cases image (data_attrs vd) (data_author vd)
              s) as [(e & ->)|(ct & _ & Hc)]; [done|].
  rewrite Hc in *. simpl in Hok1.
  match goal with
  | |- store_ok (snd (?m ?s1)) =>
      assert (preserves (ok_with (next_pk (tbl_recipes s))) m) as Hp
  end.
  { apply preserves_bind.
    { apply preserves_ok_with;
        [apply tags_set_preserves|apply tags_set_keeps]. }
    intros _. apply preserves_bind.
    { apply preserves_ok_with;
        [apply create_ingredients_preserves|apply create_ingredients_keeps]. }
    intros _. apply preserves_bind; [|intros _; apply preserves_ret].
    apply (Recipes_save_preserves (mkRecipes _ _ _ _ _ _)). }
  apply Hp. split; [done|]. simpl. rewrite fmap_app, elem_of_app. right.
  by apply list_elem_of_singleton.
Qed.

Lemma update_body_preserves recipe vd :
  preserves (ok_with (recipes_id recipe)) (update_body recipe vd).
Proof.
  unfold update_body. apply preserves_bind.
  { apply preserves_ok_with; [apply ingredients_clear_preserves|done]. }
  intros _. apply preserves_bind.
  { apply preserves_ok_with;
      [apply create_ingredients_preserves|apply create_ingredients_keeps]. }
  intros _. apply preserves_bind.
  { apply preserves_ok_with;
      [apply tags_set_preserves|apply tags_set_keeps]. }
  intros _. unfold ModelSerializer_update.
  apply preserves_bind; [|intros _; apply preserves_ret].
  apply (Recipes_save_preserves (mkRecipes _ _ _ _ _ _)).
Qed.

Lemma references_cascade {A} (fk : A → Z) (child : table A)
    (parent : table Recipes) (rid : Z) :
  references fk child parent →
  references fk (table_delete (λ r, fk r = rid) child)
    (table_delete (λ r, recipes_id r = rid) parent).
Proof.
  unfold references. simpl. intros Hall. apply Forall_forall.
  intros r [Hne Hin]%list_elem_of_filter. rewrite Forall_forall in Hall.
  specialize (Hall r Hin). apply list_elem_of_fmap in Hall as (y & Hy & Hyin).
  apply list_elem_of_fmap. exists y. split; [done|].
  apply list_elem_of_filter. split; [|done]. simpl in *. congruence.
Qed.

Lemma Recipes_delete_preserves recipe :
  preserves store_ok (Recipes_delete recipe).
Proof.
  intros s Hok. destruct Hok. constructor; simpl; try done;
    try (by apply table_delete_ok); try (by apply unique_on_delete);
    try (by apply references_delete); by apply references_cascade.
Qed.

Lemma violated_single_key {A K} `{Model A} name (same : A → A → bool)
    (key : A → K) (t : table A) (r : A) :
  (∀ a b, same a b = true ↔ key a = key b) →
  key r ∈ key <$> rows t →
  violated [mkUnique name same] t r = Some name.
Proof.
  intros Hsame Hin.
  destruct (violated [mkUnique name same] t r) as [c|] eqn:E.
  - by apply violated_single_Some in E as ->.
  - by apply (violated_single_None name same key t r Hsame) in E.
Qed.

Lemma not_same_not_in {A K} (same : A → A → bool) (key : A → K) (r : A)
    (l : list A) :
  (∀ a b, same a b = true ↔ key a = key b) →
  Forall (λ y, same r y = false) l → key r ∉ key <$> l.
Proof.
  intros Hsame Hall (y & Hy & Hin)%list_elem_of_fmap.
  rewrite Forall_forall in Hall. specialize (Hall y Hin).
  apply Hsame in Hy. congruence.
Qed.

Lemma Ingredients_objects_create_preserves name measurement_unit :
  preserves store_ok (Ingredients_objects_create name measurement_unit).
Proof.
  intros s Hok. unfold Ingredients_objects_create.
  destruct (objects_create_cases tbl_ingredients set_ingredients
              Ingredients_constraints
              (λ i, mkIngredients i name measurement_unit) s)
    as [(c & _ & ->)|[Hv ->]]; [done|].
  simpl. apply store_ok_set_ingredients; [done| | |].
  - by apply (table_insert_ok [] (λ i, mkIngredients i name measurement_unit));
      [|apply (ok_ingredients s Hok)|].
  - apply unique_on_insert; [apply (uniq_ingredients s Hok)|].
    apply (violated_single_None _ _ ingredient_key) in Hv; [done|].
    intros a b. apply ingredient_same_key.
  - intros x Hx. simpl. rewrite fmap_app, elem_of_app. by left.
Qed.

Lemma Tags_objects_create_preserves name color slug :
  preserves store_ok (Tags_objects_create name color slug).
Proof.
  intros s Hok. unfold Tags_objects_create.
  destruct (objects_create_cases tbl_tags set_tags Tags_constraints
              (λ i, mkTags i name color slug) s)
    as [(c & _ & ->)|[Hv ->]]; [done|].
  apply violated_None in Hv.
  apply Forall_cons in Hv as [Hn Hv]. apply Forall_cons in Hv as [Hc Hv].
  apply Forall_cons in Hv as [Hs _].
  simpl. apply store_ok_set_tags; [done| | | | |].
  - by apply (table_insert_ok [] (λ i, mkTags i name color slug));
      [|apply (ok_tags s Hok)|].
  - apply unique_on_insert; [apply (uniq_tags_name s Hok)|].
    apply (not_same_not_in (λ a b, bool_decide (tags_name a = tags_name b))
             tags_name (mkTags (next_pk (tbl_tags s)) name color slug)) in Hn;
      [done|].
    intros a b. apply bool_decide_eq_true.
  - apply unique_on_insert; [apply (uniq_tags_color s Hok)|].
    apply (not_same_not_in (λ a b, bool_decide (tags_color a = tags_color b))
             tags_color (mkTags (next_pk (tbl_tags s)) name color slug)) in Hc;
      [done|].
    intros a b. apply bool_decide_eq_true.
  - apply unique_on_insert; [apply (uniq_tags_slug s Hok)|].
    apply (not_same_not_in (λ a b, bool_decide (tags_slug a = tags_slug b))
             tags_slug (mkTags (next_pk (tbl_tags s)) name color slug)) in Hs;
      [done|].
    intros a b. apply bool_decide_eq_true.
  - intros x Hx. simpl. rewrite fmap_app, elem_of_app. by left.
Qed.

Lemma Favorite_objects_create_preserves user recipe :
  preserves store_ok (Favorite_objects_create user recipe).
Proof.
  intros s Hok. unfold Favorite_objects_create, fk_check, bind.
  destruct (objects_get (tbl_recipes s) recipe) as [r|] eqn:Er; [|done].
  destruct (objects_create_cases tbl_favorite set_favorite
              (FavoriteCart_constraints "favorite")
              (λ i, mkFavoriteCart i user recipe) s)
    as [(c & _ & ->)|[Hv ->]]; [done|].
  simpl. apply store_ok_set_favorite; [done| | |].
  - by apply (table_insert_ok [] (λ i, mkFavoriteCart i user recipe));
      [|apply (ok_favorite s Hok)|].
  - apply unique_on_insert; [apply (uniq_favorite s Hok)|].
    apply (violated_single_None _ _ fc_key) in Hv; [done|].
    intros a b. apply pair_same_key.
  - apply references_insert; [apply (fk_favorite_recipe s Hok)|].
    apply recipe_get_is_Some. by eexists.
Qed.

Lemma Cart_objects_create_preserves user recipe :
  preserves store_ok (Cart_objects_create user recipe).
Proof.
  intros s Hok. unfold Cart_objects_create, fk_check, bind.
  destruct (objects_get (tbl_recipes s) recipe) as [r|] eqn:Er; [|done].
  destruct (objects_create_cases tbl_cart set_cart
              (FavoriteCart_constraints "cart")
              (λ i, mkFavoriteCart i user recipe) s)
    as [(c & _ & ->)|[Hv ->]]; [done|].
  simpl. apply store_ok_set_cart; [done| | |].
  - by apply (table_insert_ok [] (λ i, mkFavoriteCart i user recipe));
      [|apply (ok_cart s Hok)|].
  - apply unique_on_insert; [apply (uniq_cart s Hok)|].
    apply (violated_single_None _ _ fc_key) in Hv; [done|].
    intros a b. apply pair_same_key.
  - apply references_insert; [apply (fk_cart_recipe s Hok)|].
    apply recipe_get_is_Some. by eexists.
Qed.

Lemma Subscribe_objects_create_preserves user author :
  preserves store_ok (Subscribe_objects_create user author).
Proof.
  intros s Hok. unfold Subscribe_objects_create.
  destruct (objects_create_cases tbl_subscribe set_subscribe
              Subscribe_constraints (λ i, mkSubscribe i user author) s)
    as [(c & _ & ->)|[Hv ->]]; [done|].
  simpl. apply store_ok_set_subscribe; [done| |].
  - by apply (table_insert_ok [] (λ i, mkSubscribe i user author));
      [|apply (ok_subscribe s Hok)|].
  - apply unique_on_insert; [apply (uniq_subscribe s Hok)|].
    apply (violated_single_None _ _ subscribe_key) in Hv; [done|].
    intros a b. apply pair_same_key.
Qed.

Section reachable_facts.
Variable validate_amount : Z → bool.

Lemma Create_preserves self init data :
  preserves store_ok (Create validate_amount self init data).
Proof.
  unfold Create. apply preserves_bind.
  - apply preserves_read_only, validate_read_only.
  - intros vd. apply preserves_atomic, create_body_preserves.
Qed.

Lemma Update_preserves self recipe init data :
  preserves (ok_with (recipes_id recipe))
    (Update validate_amount self recipe init data).
Proof.
  unfold Update. apply preserves_bind.
  - apply preserves_read_only, validate_read_only.
  - intros vd. apply preserves_atomic, update_body_preserves.
Qed.

Lemma run_preserves o : preserves store_ok (run validate_amount o).
Proof.
  destruct o; simpl.
  - apply preserves_bind; [apply Create_preserves|].
    intros _. apply preserves_ret.
  - intros s Hok. unfold bind at 1, get_object_or_404.
    destruct (objects_get (tbl_recipes s) recipe) as [r|] eqn:Er; [|done].
    apply objects_get_Some in Er as [Hin Hpk].
    assert (ok_with (recipes_id r) s) as Hw.
    { split; [done|]. by apply list_elem_of_fmap_2. }
    assert (preserves (ok_with (recipes_id r))
              (Update validate_amount self r init data ;; ret tt)) as Hp.
    { apply preserves_bind; [apply Update_preserves|].
      intros _. apply preserves_ret. }
    by destruct (Hp s Hw).
  - apply preserves_bind; [apply preserves_get_object_or_404|].
    intros r. apply Recipes_delete_preserves.
  - apply preserves_bind; [apply Ingredients_objects_create_preserves|].
    intros _. apply preserves_ret.
  - apply preserves_bind; [apply Tags_objects_create_preserves|].
    intros _. apply preserves_ret.
  - apply preserves_bind; [apply Favorite_objects_create_preserves|].
    intros _. apply preserves_ret.
  - apply preserves_bind; [apply Cart_objects_create_preserves|].
    intros _. apply preserves_ret.
  - apply preserves_bind; [apply Subscribe_objects_create_preserves|].
    intros _. apply preserves_ret.
Qed.

(** Every reachable store is well formed. *)
Lemma reachable_store_ok s : reachable validate_amount s → store_ok s.
Proof.
  induction 1 as [|s o _ IH]; [apply empty_store_ok|].
  by apply run_preserves.
Qed.

Lemma reachable_run_all ops s :
  reachable validate_amount s →
  reachable validate_amount (run_all validate_amount ops s).
Proof.
  revert s. induction ops as [|o ops IH]; intros s Hs; [done|].
  simpl. apply IH. by constructor.
Qed.

(** C8.  On every store reachable through the operations no two
    Ingredients rows have the same (name, measurement_unit), no two
    IngredientInRecipe rows the same (ingredient, recipe), no two Favorite
    rows and no two Cart rows the same (user, recipe); an attempt to insert
    a row that repeats such a pair raises the IntegrityError of the
    constraint and leaves the store as it was. *)
Theorem uniqueness_enforced (s : store) :
  reachable validate_amount s →
  (unique_on ingredient_key (tbl_ingredients s) ∧
   unique_on iir_key (tbl_iir s) ∧
   unique_on fc_key (tbl_favorite s) ∧
   unique_on fc_key (tbl_cart s)) ∧
  (∀ name measurement_unit,
     (name, measurement_unit) ∈ ingredient_key <$> rows (tbl_ingredients s) →
     Ingredients_objects_create name measurement_unit s
       = (inl (IntegrityError "unique ingredient"), s)) ∧
  (∀ ingredient_id recipe amount,
     (ingredient_id, recipes_id recipe) ∈ iir_key <$> rows (tbl_iir s) →
     IngredientInRecipe_bulk_create1 ingredient_id recipe amount s
       = (inl (IntegrityError "unique ingredient in recipe"), s)) ∧
  (∀ user recipe,
     (user, recipe) ∈ fc_key <$> rows (tbl_favorite s) →
     Favorite_objects_create user recipe s
       = (inl (IntegrityError "favorite_unique"), s)) ∧
  (∀ user recipe,
     (user, recipe) ∈ fc_key <$> rows (tbl_cart s) →
     Cart_objects_create user recipe s
       = (inl (IntegrityError "cart_unique"), s)).
Proof.
  intros Hok%reachable_store_ok.
  split; [by destruct Hok|]. split; [|split; [|split]].
  - intros name measurement_unit Hin.
    unfold Ingredients_objects_create, objects_create, table_insert,
      Ingredients_constraints.
    rewrite (violated_single_key _ _ ingredient_key); [done| |done].
    intros a b. apply ingredient_same_key.
  - intros ingredient_id recipe amount Hin.
    assert (is_Some (objects_get (tbl_ingredients s) ingredient_id)) as [g Hg].
    { apply ingredient_get_is_Some.
      apply list_elem_of_fmap in Hin as (r & Hr & Hrin).
      pose proof (fk_iir_ingredient s Hok) as Hfk. unfold references in Hfk.
      rewrite Forall_forall in Hfk. specialize (Hfk r Hrin).
      by injection Hr as -> _. }
    assert (is_Some (objects_get (tbl_recipes s) (recipes_id recipe)))
      as [r' Hr'].
    { apply recipe_get_is_Some.
      apply list_elem_of_fmap in Hin as (r & Hr & Hrin).
      pose proof (fk_iir_recipe s Hok) as Hfk. unfold references in Hfk.
      rewrite Forall_forall in Hfk. specialize (Hfk r Hrin).
      by injection Hr as _ ->. }
    unfold IngredientInRecipe_bulk_create1, fk_check, bind.
    rewrite Hg, Hr'.
    unfold objects_create, table_insert, IngredientInRecipe_constraints.
    rewrite (violated_single_key _ _ iir_key); [done| |done].
    intros a b. apply pair_same_key.
  - intros user recipe Hin.
    assert (is_Some (objects_get (tbl_recipes s) recipe)) as [r' Hr'].
    { apply recipe_get_is_Some.
      apply list_elem_of_fmap in Hin as (r & Hr & Hrin).
      pose proof (fk_favorite_recipe s Hok) as Hfk. unfold references in Hfk.
      rewrite Forall_forall in Hfk. specialize (Hfk r Hrin).
      by injection Hr as _ ->. }
    unfold Favorite_objects_create, fk_check, bind. rewrite Hr'.
    unfold objects_create, table_insert, FavoriteCart_constraints.
    rewrite (violated_single_key _ _ fc_key); [done| |done].
    intros a b. apply pair_same_key.
  - intros user recipe Hin.
    assert (is_Some (objects_get (tbl_recipes s) recipe)) as [r' Hr'].
    { apply recipe_get_is_Some.
      apply list_elem_of_fmap in Hin as (r & Hr & Hrin).
      pose proof (fk_cart_recipe s Hok) as Hfk. unfold references in Hfk.
      rewrite Forall_forall in Hfk. specialize (Hfk r Hrin).
      by injection Hr as _ ->. }
    unfold Cart_objects_create, fk_check, bind. rewrite Hr'.
    unfold objects_create, table_insert, FavoriteCart_constraints.
    rewrite (violated_single_key _ _ fc_key); [done| |done].
    intros a b. apply pair_same_key.
Qed.
End reachable_facts.

Lemma uniqueness_enforced_witness :
  reachable demo_validate_amount demo_reached ∧
  rows (tbl_iir demo_reached) = [mkIngredientInRecipe 1 1 1 5] ∧
  unique_on iir_key (tbl_iir demo_reached) ∧
  Ingredients_objects_create "salt" "g" demo_reached
    = (inl (IntegrityError "unique ingredient"), demo_reached) ∧
  IngredientInRecipe_bulk_create1 1 (mkRecipes 1 "soup" "simmer" "soup.png" 40 10)
    7 demo_reached
    = (inl (IntegrityError "unique ingredient in recipe"), demo_reached) ∧
  Favorite_objects_create 10 1 demo_reached
    = (inl (IntegrityError "favorite_unique"), demo_reached) ∧
  Cart_objects_create 10 1 demo_reached
    = (inl (IntegrityError "cart_unique"), demo_reached).
Proof.
  assert (reachable demo_validate_amount demo_reached) as Hreach.
  { apply reachable_run_all. constructor. }
  destruct (uniqueness_enforced demo_validate_amount demo_reached Hreach)
    as ((_ & Huniq & _ & _) & Hingredient & Hiir & Hfavorite & Hcart).
  split; [done|]. split; [by vm_compute|]. split; [done|].
  split; [apply Hingredient; by_compute|].
  split; [apply Hiir; by_compute|].
  split; [apply Hfavorite; by_compute|].
  apply Hcart; by_compute.
Defined.

(** * Further properties *)

(** ** Rows in the order of their keys *)

Lemma StronglySorted_weaken {A} (R1 R2 : relation A) (l : list A) :
  (∀ x y, R1 x y → R2 x y) → StronglySorted R1 l → StronglySorted R2 l.
Proof.
  intros Himpl. induction 1 as [|x l Hl IH Hx]; constructor; [done|].
  eapply Forall_impl; [done|]. apply Himpl.
Qed.

Lemma StronglySorted_reverse {A} (R : relation A) (l : list A) :
  StronglySorted R l → StronglySorted (flip R) (reverse l).
Proof.
  induction 1 as [|x l Hl IH Hx]; [constructor|].
  rewrite reverse_cons. apply StronglySorted_app. split; [|split; [done|]].
  - intros x1 x2 Hx1 ->%list_elem_of_singleton. unfold flip.
    rewrite Forall_forall in Hx. apply Hx. by apply elem_of_reverse.
  - repeat constructor.
Qed.

Lemma new_iir_ids n rid items r :
  r ∈ new_iir n rid items → n ≤ iir_id r.
Proof.
  revert n. induction items as [|x items IH]; intros n Hr;
    [by apply elem_of_nil in Hr|].
  simpl in Hr. apply elem_of_cons in Hr as [->|Hr]; simpl; [lia|].
  apply IH in Hr. lia.
Qed.

Lemma new_iir_increasing n rid items :
  StronglySorted (λ a b, iir_id a < iir_id b) (new_iir n rid items).
Proof.
  revert n. induction items as [|x items IH]; intros n; simpl; constructor.
  - apply IH.
  - apply Forall_forall. intros r Hr%new_iir_ids. simpl. lia.
Qed.

Lemma new_iir_same_id n rid items r1 r2 :
  r1 ∈ new_iir n rid items → r2 ∈ new_iir n rid items →
  iir_id r1 = iir_id r2 → r1 = r2.
Proof.
  revert n. induction items as [|x items IH]; intros n H1 H2 Hid;
    [by apply elem_of_nil in H1|].
  simpl in H1, H2.
  apply elem_of_cons in H1 as [->|H1]; apply elem_of_cons in H2 as [->|H2].
  - done.
  - apply new_iir_ids in H2. simpl in Hid. lia.
  - apply new_iir_ids in H1. simpl in Hid. lia.
  - by apply (IH (n + 1)).
Qed.

(** Read newest first, the rows [create_ingredients] has appended come in
    the reverse of the order of the entries. *)
Lemma order_by_id_desc_new_iir n rid items :
  order_by_id_desc (new_iir n rid items) = reverse (new_iir n rid items).
Proof.
  apply (StronglySorted_unique_strong id_desc).
  - intros r1 r2 H1 H2 H12 H21. unfold id_desc in *. simpl in *.
    rewrite order_by_id_desc_perm in H1. rewrite elem_of_reverse in H2.
    apply (new_iir_same_id n rid items); [done|done|lia].
  - apply order_by_id_desc_sorted.
  - apply (StronglySorted_weaken (flip (λ a b, iir_id a < iir_id b))).
    + intros a b. unfold flip, id_desc. simpl. lia.
    + apply StronglySorted_reverse, new_iir_increasing.
  - by rewrite order_by_id_desc_perm, reverse_Permutation.
Qed.

Lemma ingredientinrecipe_set_new_rows rid s old n items :
  rows (tbl_iir s) = old ++ new_iir n rid items →
  rid ∉ iir_recipe <$> old →
  ingredientinrecipe_set rid s = reverse (new_iir n rid items).
Proof.
  intros Hrows Hold. unfold ingredientinrecipe_set.
  rewrite Hrows, filter_app, new_iir_filter, (filter_none _ old).
  - apply order_by_id_desc_new_iir.
  - intros r Hr Heq. apply Hold. rewrite <- Heq. by apply list_elem_of_fmap_2.
Qed.

(** ** The store after a valid Create *)

Lemma tags_set_split_empty objs new :
  tags_set_split objs ∅ new = (∅, new ++ objs).
Proof.
  revert new. induction objs as [|x objs IH]; intros new; simpl.
  - by rewrite app_nil_r.
  - rewrite decide_False by set_solver. rewrite IH.
    by rewrite <- app_assoc.
Qed.

Lemma tags_remove_empty recipe s : tags_remove recipe ∅ s = (inr tt, s).
Proof.
  unfold tags_remove, modify, table_delete. rewrite filter_all.
  - by destruct s as [? ? ? ? [? ?] ? ? ?].
  - intros l _ [_ Hl]. set_solver.
Qed.

(** [recipe.tags.set] on a recipe without links appends one link per tag. *)
Lemma tags_set_fresh recipe objs s :
  tags_values_list (recipes_id recipe) s = [] →
  (∀ t, t ∈ objs → tag_exists s t) →
  recipes_id recipe ∈ recipes_id <$> rows (tbl_recipes s) →
  tags_set recipe objs s
  = (inr tt, with_new_rt (recipes_id recipe)
               (elements (list_to_set objs : gset Z)) s).
Proof.
  intros Hvals Hex Hr. unfold tags_set, bind at 1, gets. rewrite Hvals.
  simpl list_to_set. rewrite tags_set_split_empty. simpl app.
  unfold bind. rewrite tags_remove_empty, tags_add_ok by done.
  rewrite Hvals. simpl list_to_set. by rewrite difference_empty_L.
Qed.

Lemma NoDup_fmap_same {A B} (f : A → B) (l : list A) (x y : A) :
  NoDup (f <$> l) → x ∈ l → y ∈ l → f x = f y → x = y.
Proof.
  induction l as [|z l IH]; intros Hnd Hx Hy Hxy;
    [by apply elem_of_nil in Hx|].
  simpl in Hnd. apply NoDup_cons in Hnd as [Hz Hnd].
  apply elem_of_cons in Hx as [->|Hx]; apply elem_of_cons in Hy as [->|Hy].
  - done.
  - exfalso. apply Hz. rewrite Hxy. by apply list_elem_of_fmap_2.
  - exfalso. apply Hz. rewrite <- Hxy. by apply list_elem_of_fmap_2.
  - by apply IH.
Qed.

Lemma Recipes_save_noop recipe s :
  NoDup (recipes_id <$> rows (tbl_recipes s)) →
  recipe ∈ rows (tbl_recipes s) →
  Recipes_save recipe s = (inr tt, s).
Proof.
  intros Hnd Hin. unfold Recipes_save, modify.
  assert (existsb (λ x, bool_decide (recipes_id x = recipes_id recipe))
            (rows (tbl_recipes s)) = true) as ->.
  { apply existsb_exists. exists recipe.
    split; [by apply list_elem_of_In|]. by apply bool_decide_eq_true. }
  f_equal.
  assert ((λ x, if bool_decide (recipes_id x = recipes_id recipe)
                then recipe else x) <$> rows (tbl_recipes s)
          = rows (tbl_recipes s)) as ->.
  { rewrite <- (list_fmap_id (rows (tbl_recipes s))) at 2.
    apply list_fmap_ext. intros i y Hy. simpl.
    case_bool_decide as Hid; [|done].
    symmetry.
    apply (NoDup_fmap_same recipes_id (rows (tbl_recipes s))); try done.
    by eapply list_elem_of_lookup_2. }
  by destruct s as [? ? [? ?] ? ? ? ? ?].
Qed.

Section create_shape.
Variable validate_amount : Z → bool.

(** On a well-formed store a valid Create returns the new recipe row and
    leaves the store with that row, one link per tag and one through row per
    entry appended; the final [recipe.save()] changes nothing. *)
Lemma Create_valid_shape self init data s image cooking_time :
  store_ok s →
  attrs_image data = Some image →
  attrs_cooking_time data = Some cooking_time →
  entries init ≠ [] → tag_ids init ≠ [] →
  NoDup (item_id <$> entries init) → NoDup (tag_ids init) →
  Forall (ingredient_exists s) (entries init) →
  Forall (tag_exists s) (tag_ids init) →
  Forall (λ x, validate_amount (item_amount x) = true) (entries init) →
  Create validate_amount self init data s
  = (inr (new_recipe self data image cooking_time s),
     created (new_recipe self data image cooking_time s) (entries init)
       (tag_ids init) s).
Proof.
  intros Hok Himg Hct Hne Htne Hnd Htnd Hex Htex Hval.
  rewrite (Create_validate_ok validate_amount self init data s
             (validated self init data)).
  2:{ apply validate_succeeds.
      - unfold ingredients_violation. tauto.
      - unfold tags_violation. tauto. }
  destruct (next_recipe_fresh s Hok) as (Hfr & Hfi & Hft).
  unfold create. apply atomic_returns.
  unfold create_body, bind. unfold validated.
  cbn [data_attrs data_author data_tags data_ingredients].
  rewrite Himg. unfold ret at 1.
  unfold Recipes_objects_create. rewrite Hct.
  unfold objects_create, table_insert. rewrite violated_nil.
  cbv beta iota zeta.
  fold (new_recipe self data image cooking_time s).
  set (recipe := new_recipe self data image cooking_time s).
  set (s1 := set_recipes (Table (rows (tbl_recipes s) ++ [recipe])
                            (next_pk (tbl_recipes s) + 1)) s).
  assert (recipes_id recipe ∈ recipes_id <$> rows (tbl_recipes s1)) as Hr.
  { simpl. rewrite fmap_app, elem_of_app. right.
    by apply list_elem_of_singleton. }
  rewrite tags_set_fresh; [|..|done].
  2:{ unfold tags_values_list, tags_through. simpl.
      rewrite filter_none; [done|]. intros l Hl Heq. apply Hft.
      rewrite <- Heq. by apply list_elem_of_fmap_2. }
  2:{ intros t Ht. rewrite Forall_forall in Htex. by apply Htex. }
  rewrite create_ingredients_ok; [|done|done|done|].
  2:{ intros x Hx (r & Hk & Hin)%list_elem_of_fmap. simpl in Hin.
      apply Hfi. injection Hk as _ Hk. simpl in Hk. rewrite Hk.
      by apply list_elem_of_fmap_2. }
  rewrite Recipes_save_noop; [done| |].
  - simpl. rewrite fmap_app. apply NoDup_app.
    split; [apply (ok_recipes s Hok)|]. split; [|apply NoDup_singleton].
    intros x Hx ->%list_elem_of_singleton. done.
  - simpl. apply elem_of_app. right. by apply list_elem_of_singleton.
Qed.
End create_shape.

(** ** The fields of a recipe that has been read *)

(** Through rows whose ingredient is in the store serialize, each to the id,
    name and unit of its ingredient and to its own amount. *)
Lemma serialize_rows s (through : list IngredientInRecipe) :
  Forall (λ r, iir_ingredient r ∈ ingredients_id <$> rows (tbl_ingredients s))
    through →
  ∃ l, mapM (IngredientInRecipeSerializer s) through = Some l ∧
    (λ x, (read_id x, read_amount x)) <$> l = iir_pair <$> through ∧
    Forall (λ x, mkIngredients (read_id x) (read_name x)
                   (read_measurement_unit x)
                 ∈ rows (tbl_ingredients s)) l.
Proof.
  induction 1 as [|r through Hr _ (l & Hl & Hpairs & Hrows)].
  - by exists [].
  - apply ingredient_get_is_Some in Hr as [g Hg].
    exists (mkIngredientRead (ingredients_id g) (ingredients_name g)
              (ingredients_measurement_unit g) (iir_amount r) :: l).
    apply objects_get_Some in Hg as Hg'. destruct Hg' as [Hgin Hgid].
    simpl in Hgid. split; [|split].
    + apply mapM_Some. constructor; [|by apply mapM_Some].
      unfold IngredientInRecipeSerializer. by rewrite Hg.
    + rewrite !fmap_cons, Hpairs. unfold iir_pair at 1. simpl.
      by rewrite Hgid.
    + constructor; [|done]. simpl. by destruct g.
Qed.

(** X1.  On a well-formed store the [ingredients] field of a recipe can
    always be read: every through row of the recipe resolves to its
    ingredient.  The entries come newest row first, their [id] is the id of
    the ingredient (not of the through row), their [name] and
    [measurement_unit] are those of that ingredient in the store and their
    [amount] is the amount of the row. *)
Theorem RecipesSerializer_ingredients_reads (s : store) (recipe : Recipes) :
  store_ok s →
  ∃ l, RecipesSerializer_ingredients s recipe = Some l ∧
    (λ x, (read_id x, read_amount x)) <$> l
      = iir_pair <$> ingredientinrecipe_set (recipes_id recipe) s ∧
    StronglySorted id_desc (ingredientinrecipe_set (recipes_id recipe) s) ∧
    Forall (λ x, mkIngredients (read_id x) (read_name x)
                   (read_measurement_unit x)
                 ∈ rows (tbl_ingredients s)) l.
Proof.
  intros Hok. unfold RecipesSerializer_ingredients.
  destruct (serialize_rows s (ingredientinrecipe_set (recipes_id recipe) s))
    as (l & Hl & Hpairs & Hrows).
  - apply Forall_forall. intros r Hr. unfold ingredientinrecipe_set in Hr.
    rewrite order_by_id_desc_perm in Hr.
    apply list_elem_of_filter in Hr as [_ Hr].
    pose proof (fk_iir_ingredient s Hok) as Hfk. unfold references in Hfk.
    rewrite Forall_forall in Hfk. by apply Hfk.
  - exists l. split; [done|]. split; [done|]. split; [|done].
    apply order_by_id_desc_sorted.
Qed.

Lemma RecipesSerializer_ingredients_reads_witness :
  store_ok demo_store ∧
  RecipesSerializer_ingredients demo_store
    (mkRecipes 1 "porridge" "boil" "1.png" 10 20)
  = Some [mkIngredientRead 2 "sugar" "g" 3; mkIngredientRead 1 "salt" "g" 2].
Proof.
  split; [apply demo_store_ok|].
  destruct (RecipesSerializer_ingredients_reads demo_store
              (mkRecipes 1 "porridge" "boil" "1.png" 10 20) demo_store_ok)
    as (l & Hl & _).
  rewrite Hl. revert Hl. vm_compute. by intros [= <-].
Defined.

Lemma created_tags recipe items tags s :
  store_ok s → recipes_id recipe = next_pk (tbl_recipes s) →
  NoDup tags → Forall (tag_exists s) tags →
  tags_values_list (recipes_id recipe) (created recipe items tags s) ≡ₚ tags ∧
  tags_id <$> tags_all (recipes_id recipe) (created recipe items tags s)
    ≡ₚ tags.
Proof.
  intros Hok Hid Hnd Hex.
  destruct (next_recipe_fresh s Hok) as (_ & _ & Hft).
  assert (tags_values_list (recipes_id recipe) (created recipe items tags s)
          ≡ₚ tags) as Hvals.
  { unfold created.
    rewrite (tags_values_list_frame _
               (with_new_rt (recipes_id recipe)
                  (elements (list_to_set tags : gset Z))
                  (set_recipes (Table (rows (tbl_recipes s) ++ [recipe])
                                  (next_pk (tbl_recipes s) + 1)) s))) by done.
    rewrite tags_values_list_new.
    assert (tags_values_list (recipes_id recipe)
              (set_recipes (Table (rows (tbl_recipes s) ++ [recipe])
                              (next_pk (tbl_recipes s) + 1)) s) = []) as ->.
    { unfold tags_values_list, tags_through. simpl.
      rewrite filter_none; [done|]. intros l Hl Heq. apply Hft.
      rewrite <- Hid, <- Heq. by apply list_elem_of_fmap_2. }
    simpl. by apply elements_list_to_set. }
  split; [done|]. rewrite tags_all_ids; [done| |].
  - apply (ok_tags s Hok).
  - intros t Ht. rewrite Hvals in Ht. rewrite Forall_forall in Hex.
    by apply Hex.
Qed.

Section create_read.
Variable validate_amount : Z → bool.

(** X2.  Reading a recipe right after a valid Create: the [ingredients]
    field lists the entries of the request in reverse order (the through
    rows are read newest first), each with the id and amount of its entry
    and the name and unit of the ingredient; the [tags] field lists the rows
    of the requested tags in increasing id. *)
Theorem Create_then_read (self : request) (init : initial_data) (data : attrs)
    (s : store) (image : string) (cooking_time : Z) :
  store_ok s →
  attrs_image data = Some image →
  attrs_cooking_time data = Some cooking_time →
  entries init ≠ [] → tag_ids init ≠ [] →
  NoDup (item_id <$> entries init) → NoDup (tag_ids init) →
  Forall (ingredient_exists s) (entries init) →
  Forall (tag_exists s) (tag_ids init) →
  Forall (λ x, validate_amount (item_amount x) = true) (entries init) →
  ∃ recipe s' l,
    Create validate_amount self init data s = (inr recipe, s') ∧
    RecipesSerializer_ingredients s' recipe = Some l ∧
    (λ x, (read_id x, read_amount x)) <$> l
      = reverse (item_pair <$> entries init) ∧
    Forall (λ x, mkIngredients (read_id x) (read_name x)
                   (read_measurement_unit x)
                 ∈ rows (tbl_ingredients s)) l ∧
    tags_id <$> RecipesSerializer_tags s' recipe ≡ₚ tag_ids init ∧
    StronglySorted id_asc (RecipesSerializer_tags s' recipe) ∧
    Forall (λ t, t ∈ rows (tbl_tags s)) (RecipesSerializer_tags s' recipe).
Proof.
  intros Hok Himg Hct Hne Htne Hnd Htnd Hex Htex Hval.
  pose proof (Create_valid_shape validate_amount self init data s image
                cooking_time Hok Himg Hct Hne Htne Hnd Htnd Hex Htex Hval)
    as Hshape.
  set (recipe := new_recipe self data image cooking_time s) in *.
  destruct (created_tags recipe (entries init) (tag_ids init) s Hok eq_refl
              Htnd Htex) as [_ Htags].
  destruct (next_recipe_fresh s Hok) as (_ & Hfi & _).
  assert (ingredientinrecipe_set (recipes_id recipe)
            (created recipe (entries init) (tag_ids init) s)
          = reverse (new_iir (next_pk (tbl_iir s)) (recipes_id recipe)
                       (entries init))) as Hset.
  { by eapply ingredientinrecipe_set_new_rows. }
  destruct (serialize_rows (created recipe (entries init) (tag_ids init) s)
              (reverse (new_iir (next_pk (tbl_iir s)) (recipes_id recipe)
                          (entries init)))) as (l & Hl & Hpairs & Hrows).
  { apply Forall_forall. intros r Hr. rewrite elem_of_reverse in Hr.
    assert (iir_pair r ∈ item_pair <$> entries init) as Hp.
    { rewrite <- (new_iir_pairs (next_pk (tbl_iir s)) (recipes_id recipe)).
      by apply list_elem_of_fmap_2. }
    apply list_elem_of_fmap in Hp as (x & Hx & Hxin).
    rewrite Forall_forall in Hex. specialize (Hex x Hxin).
    injection Hx as -> _. done. }
  exists recipe, (created recipe (entries init) (tag_ids init) s), l.
  split; [done|]. unfold RecipesSerializer_ingredients. rewrite Hset.
  split; [done|]. split; [|split; [done|]].
  { by rewrite Hpairs, fmap_reverse, new_iir_pairs. }
  unfold RecipesSerializer_tags. split; [done|].
  split; [apply order_by_id_sorted|].
  apply Forall_forall. intros t Ht. unfold tags_all in Ht.
  rewrite order_by_id_perm in Ht.
  apply list_elem_of_bind in Ht as (l' & Ht & _).
  by apply list_elem_of_filter in Ht as [_ Ht].
Qed.
End create_read.

Lemma Create_then_read_witness :
  store_ok demo_store ∧
  entries demo_init = [mkItem 1 2; mkItem 2 3] ∧ tag_ids demo_init = [2; 1] ∧
  ∃ recipe s',
    Create demo_validate_amount demo_request demo_init demo_attrs demo_store
      = (inr recipe, s') ∧
    RecipesSerializer_ingredients s' recipe
      = Some [mkIngredientRead 2 "sugar" "g" 3;
              mkIngredientRead 1 "salt" "g" 2] ∧
    tags_id <$> RecipesSerializer_tags s' recipe = [1; 2].
Proof.
  split; [apply demo_store_ok|]. split; [done|]. split; [done|].
  destruct (Create_then_read demo_validate_amount demo_request demo_init
              demo_attrs demo_store "soup.png" 40)
    as (recipe & s' & l & Hcreate & Hl & _);
    [apply demo_store_ok|done|done|done|done|by_compute|by_compute
    |by_compute|by_compute|repeat constructor|].
  exists recipe, s'. split; [done|].
  revert Hcreate. vm_compute. intros [= <- <-]. by vm_compute.
Defined.

(** ** What Create and Update leave alone *)

Lemma untouched_refl rid s : untouched_except rid s s.
Proof. by repeat split. Qed.

Lemma tags_set_frame recipe objs s s' :
  tags_set recipe objs s = (inr tt, s') →
  ∃ T, s' = set_recipes_tags T s ∧
    filter (λ l, rt_recipes l ≠ recipes_id recipe) (rows T)
    = filter (λ l, rt_recipes l ≠ recipes_id recipe)
        (rows (tbl_recipes_tags s)).
Proof.
  unfold tags_set, bind at 1, gets.
  destruct (tags_set_split objs
              (list_to_set (tags_values_list (recipes_id recipe) s)) [])
    as [old new].
  unfold bind. simpl. intros ->%tags_add_inv.
  eexists. split; [reflexivity|]. simpl.
  rewrite filter_app, (filter_none _ (new_rt _ _ _)), app_nil_r.
  - rewrite list_filter_filter. apply list_filter_iff. intros l. tauto.
  - intros l Hl Hne. apply Hne.
    assert (l ∈ filter (λ l, rt_recipes l = recipes_id recipe)
                  (new_rt (next_pk (tbl_recipes_tags s)) (recipes_id recipe)
                     (elements (list_to_set new ∖
                        list_to_set (tags_values_list (recipes_id recipe)
                           (set_recipes_tags
                              (table_delete
                                 (λ l, rt_recipes l = recipes_id recipe ∧
                                       rt_tags l ∈ old)
                                 (tbl_recipes_tags s)) s)) : gset Z))))
      as Hin by by rewrite new_rt_filter.
    by apply list_elem_of_filter in Hin as [? _].
Qed.

Lemma Recipes_save_other recipe s :
  filter (λ r, recipes_id r ≠ recipes_id recipe)
    (rows (tbl_recipes (snd (Recipes_save recipe s))))
  = filter (λ r, recipes_id r ≠ recipes_id recipe) (rows (tbl_recipes s)).
Proof.
  unfold Recipes_save, modify. simpl. destruct (existsb _ _); simpl.
  - induction (rows (tbl_recipes s)) as [|y l IH]; [done|].
    rewrite fmap_cons, !filter_cons, IH.
    case_bool_decide as Hy; repeat case_decide; done || tauto.
  - rewrite filter_app, filter_cons_False by tauto.
    by rewrite filter_nil, app_nil_r.
Qed.

Lemma new_iir_other n rid items :
  filter (λ r, iir_recipe r ≠ rid) (new_iir n rid items) = [].
Proof.
  apply filter_none. intros r Hr Hne. apply Hne.
  assert (r ∈ filter (λ r, iir_recipe r = rid) (new_iir n rid items)) as Hin
    by by rewrite new_iir_filter.
  by apply list_elem_of_filter in Hin as [? _].
Qed.

Lemma create_body_frame vd s recipe s' :
  create_body vd s = (inr recipe, s') →
  untouched_except (next_pk (tbl_recipes s)) s s'.
Proof.
  intros (image & ct & s2 & _ & _ & Hrec & Hts & _ & Hsave)%create_body_inv.
  assert (recipes_id recipe = next_pk (tbl_recipes s)) as Hid
    by by rewrite Hrec.
  apply tags_set_frame in Hts as (T & -> & HT).
  pose proof (Recipes_save_other recipe
                (with_new_iir (recipes_id recipe) (data_ingredients vd)
                   (set_recipes_tags T
                      (set_recipes
                         (Table (rows (tbl_recipes s) ++ [recipe])
                            (next_pk (tbl_recipes s) + 1)) s)))) as Hother.
  destruct (Recipes_save_frame recipe
              (with_new_iir (recipes_id recipe) (data_ingredients vd)
                 (set_recipes_tags T
                    (set_recipes
                       (Table (rows (tbl_recipes s) ++ [recipe])
                          (next_pk (tbl_recipes s) + 1)) s)))) as [T' Hfr].
  rewrite Hsave in Hother. rewrite Hsave in Hfr. injection Hfr as ->.
  simpl in Hother, HT. rewrite <- Hid.
  repeat split; simpl; try done.
  - rewrite Hother, filter_app, filter_cons_False by tauto.
    by rewrite filter_nil, app_nil_r.
  - by rewrite filter_app, new_iir_other, app_nil_r.
Qed.

Lemma update_body_frame recipe vd s recipe' s' :
  update_body recipe vd s = (inr recipe', s') →
  untouched_except (recipes_id recipe) s s'.
Proof.
  intros (s3 & Hrec & _ & Hts & Hsave)%update_body_inv.
  assert (recipes_id recipe' = recipes_id recipe) as Hid by by rewrite Hrec.
  apply tags_set_frame in Hts as (T & -> & HT).
  match type of Hsave with
  | Recipes_save ?r ?s3 = _ =>
      pose proof (Recipes_save_other r s3) as Hother;
      destruct (Recipes_save_frame r s3) as [T' Hfr]
  end.
  rewrite Hsave in Hother. rewrite Hsave in Hfr. injection Hfr as ->.
  simpl in Hother, HT. rewrite Hid in Hother.
  repeat split; simpl; try done.
  rewrite filter_app, new_iir_other, app_nil_r.
  rewrite list_filter_filter. apply list_filter_iff. intros r. tauto.
Qed.

Section frame.
Variable validate_amount : Z → bool.

(** X3.  Create and Update write nothing but the recipe they are about,
    whether they return or raise: the ingredients, tags, favorites, cart
    entries and subscriptions are unchanged, and so are the rows, the
    through rows and the tag links of every other recipe.  For Create the
    recipe is the one that takes the next key of the sequence. *)
Theorem Create_Update_frame (self : request) (recipe : Recipes)
    (init : initial_data) (data : attrs) (s : store) :
  untouched_except (next_pk (tbl_recipes s)) s
    (snd (Create validate_amount self init data s)) ∧
  untouched_except (recipes_id recipe) s
    (snd (Update validate_amount self recipe init data s)).
Proof.
  destruct (validate_cases validate_amount self init data s)
    as [(_ & Hv)|[(_ & e & _ & Hv)|[(_ & _ & _ & Hv)|
        [(_ & _ & _ & e & _ & Hv)|(_ & _ & _ & _ & Hv)]]]].
  1-4: rewrite (Create_validate_fails _ _ _ _ _ _ Hv),
         (Update_validate_fails _ _ _ _ _ _ _ Hv);
       split; apply untouched_refl.
  rewrite (Create_validate_ok _ _ _ _ _ _ Hv),
    (Update_validate_ok _ _ _ _ _ _ _ Hv).
  unfold create, update, atomic. split.
  - destruct (create_body _ s) as [[e|r] s'] eqn:E;
      [apply untouched_refl|]. by apply create_body_frame in E.
  - destruct (update_body recipe _ s) as [[e|r] s'] eqn:E;
      [apply untouched_refl|]. by apply update_body_frame in E.
Qed.
End frame.

(** ** Deleting what has been created *)

Lemma filter_ne_fresh {A} (fk : A → Z) (rid : Z) (l : list A) :
  rid ∉ fk <$> l → filter (λ r, ¬ fk r = rid) l = l.
Proof.
  intros Hn. apply filter_all. intros r Hr Heq. apply Hn.
  rewrite <- Heq. by apply list_elem_of_fmap_2.
Qed.

Lemma filter_ne_new_iir n rid items :
  filter (λ r, ¬ iir_recipe r = rid) (new_iir n rid items) = [].
Proof. apply new_iir_other. Qed.

Lemma filter_ne_new_rt n rid ts :
  filter (λ l, ¬ rt_recipes l = rid) (new_rt n rid ts) = [].
Proof.
  apply filter_none. intros l Hl Hne. apply Hne.
  assert (l ∈ filter (λ l, rt_recipes l = rid) (new_rt n rid ts)) as Hin
    by by rewrite new_rt_filter.
  by apply list_elem_of_filter in Hin as [? _].
Qed.

Lemma references_fresh {A} (fk : A → Z) (child : table A)
    (parent : table Recipes) (rid : Z) :
  references fk child parent → rid ∉ recipes_id <$> rows parent →
  rid ∉ fk <$> rows child.
Proof.
  unfold references. intros Hall Hn (r & -> & Hin)%list_elem_of_fmap.
  rewrite Forall_forall in Hall. by apply Hn, Hall.
Qed.

Lemma Delete_created recipe items tags s :
  store_ok s → recipes_id recipe = next_pk (tbl_recipes s) →
  same_rows s (snd (Delete recipe (created recipe items tags s))).
Proof.
  intros Hok Hid. destruct (next_recipe_fresh s Hok) as (Hfr & Hfi & Hft).
  rewrite <- Hid in Hfr, Hfi, Hft.
  unfold Delete, delete, Recipes_delete, modify, created, same_rows. simpl.
  repeat split.
  - rewrite filter_app, filter_cons_False, filter_nil, app_nil_r by tauto.
    by apply filter_ne_fresh.
  - rewrite filter_app, filter_ne_new_iir, app_nil_r.
    by apply filter_ne_fresh.
  - rewrite filter_app, filter_ne_new_rt, app_nil_r.
    by apply filter_ne_fresh.
  - apply filter_ne_fresh.
    by apply (references_fresh _ _ _ _ (fk_favorite_recipe s Hok)).
  - apply filter_ne_fresh.
    by apply (references_fresh _ _ _ _ (fk_cart_recipe s Hok)).
Qed.

Section create_delete.
Variable validate_amount : Z → bool.

(** X4.  Deleting the recipe a valid Create has just returned undoes the
    Create: every table holds the rows it held before, and nothing of the
    recipe is left; only the sequences of primary keys have advanced. *)
Theorem Create_then_Delete (self : request) (init : initial_data)
    (data : attrs) (s : store) (image : string) (cooking_time : Z) :
  store_ok s →
  attrs_image data = Some image →
  attrs_cooking_time data = Some cooking_time →
  entries init ≠ [] → tag_ids init ≠ [] →
  NoDup (item_id <$> entries init) → NoDup (tag_ids init) →
  Forall (ingredient_exists s) (entries init) →
  Forall (tag_exists s) (tag_ids init) →
  Forall (λ x, validate_amount (item_amount x) = true) (entries init) →
  ∃ recipe s1 s2,
    Create validate_amount self init data s = (inr recipe, s1) ∧
    Delete recipe s1 = (inr tt, s2) ∧
    same_rows s s2 ∧
    next_pk (tbl_recipes s) < next_pk (tbl_recipes s2).
Proof.
  intros Hok Himg Hct Hne Htne Hnd Htnd Hex Htex Hval.
  pose proof (Create_valid_shape validate_amount self init data s image
                cooking_time Hok Himg Hct Hne Htne Hnd Htnd Hex Htex Hval)
    as Hshape.
  set (recipe := new_recipe self data image cooking_time s) in *.
  exists recipe, (created recipe (entries init) (tag_ids init) s),
    (snd (Delete recipe (created recipe (entries init) (tag_ids init) s))).
  split; [done|]. split; [done|]. split.
  - by apply Delete_created.
  - simpl. lia.
Qed.
End create_delete.

Lemma Create_then_Delete_witness :
  store_ok demo_store ∧
  ∃ recipe s1 s2,
    Create demo_validate_amount demo_request demo_init demo_attrs demo_store
      = (inr recipe, s1) ∧
    Delete recipe s1 = (inr tt, s2) ∧
    same_rows demo_store s2 ∧
    next_pk (tbl_recipes demo_store) < next_pk (tbl_recipes s2).
Proof.
  split; [apply demo_store_ok|].
  apply (Create_then_Delete demo_validate_amount demo_request demo_init
           demo_attrs demo_store "soup.png" 40);
    [apply demo_store_ok|done|done|done|done|by_compute|by_compute
    |by_compute|by_compute|repeat constructor].
Defined.

(** ** Deleting what is not there *)

(** X6.  On a well-formed store, deleting a recipe whose key is not in the
    table changes nothing: no other recipe, through row, tag link,
    favorite or cart entry is removed. *)
Theorem Delete_absent (recipe : Recipes) (s : store) :
  store_ok s →
  recipes_id recipe ∉ recipes_id <$> rows (tbl_recipes s) →
  Delete recipe s = (inr tt, s).
Proof.
  intros Hok Hn.
  pose proof (references_fresh _ _ _ _ (fk_iir_recipe s Hok) Hn) as Hi.
  pose proof (references_fresh _ _ _ _ (fk_rt_recipes s Hok) Hn) as Ht.
  pose proof (references_fresh _ _ _ _ (fk_favorite_recipe s Hok) Hn) as Hf.
  pose proof (references_fresh _ _ _ _ (fk_cart_recipe s Hok) Hn) as Hc.
  unfold Delete, delete, Recipes_delete, modify, table_delete. f_equal.
  destruct s as [ti tt [rr nr] [ri ni] [rl nl] [rf nf] [rc nc] ts].
  simpl in *. unfold set_recipes, set_cart, set_favorite, set_recipes_tags,
    set_iir. simpl.
  by rewrite !filter_ne_fresh.
Qed.

Lemma Delete_absent_witness :
  store_ok demo_store ∧
  Delete (mkRecipes 9 "soup" "simmer" "soup.png" 40 10) demo_store
  = (inr tt, demo_store).
Proof.
  split; [apply demo_store_ok|].
  apply (Delete_absent (mkRecipes 9 "soup" "simmer" "soup.png" 40 10)
           demo_store); [apply demo_store_ok|by_compute].
Defined.

(** ** The row an Update stores *)

Lemma objects_get_unique {A} `{Model A} (t : table A) (r : A) :
  NoDup (pk_of <$> rows t) → r ∈ rows t → objects_get t (pk_of r) = Some r.
Proof.
  unfold objects_get. induction (rows t) as [|y l IH]; simpl.
  - intros _ Hin. by apply elem_of_nil in Hin.
  - intros [Hy Hl]%NoDup_cons [->|Hin]%elem_of_cons.
    + by rewrite bool_decide_eq_true_2.
    + rewrite bool_decide_eq_false_2; [by apply IH|].
      intros Heq. apply Hy. rewrite Heq. by apply list_elem_of_fmap_2.
Qed.

Section update_row.
Variable validate_amount : Z → bool.

(** X7.  A valid Update of a recipe whose row is in the store returns and
    stores, under the recipe's key, the recipe object it was given with
    every supplied scalar field replaced, every absent one kept, and the
    requesting user as the author; the table of recipes keeps its keys and
    its sequence, so no recipe row is added or removed. *)
Theorem Update_stores_row (self : request) (recipe : Recipes)
    (init : initial_data) (data : attrs) (s : store) :
  store_ok s →
  recipes_id recipe ∈ recipes_id <$> rows (tbl_recipes s) →
  entries init ≠ [] → tag_ids init ≠ [] →
  NoDup (item_id <$> entries init) → NoDup (tag_ids init) →
  Forall (ingredient_exists s) (entries init) →
  Forall (tag_exists s) (tag_ids init) →
  Forall (λ x, validate_amount (item_amount x) = true) (entries init) →
  let recipe' :=
    mkRecipes (recipes_id recipe)
      (default (recipes_name recipe) (attrs_name data))
      (default (recipes_text recipe) (attrs_text data))
      (default (recipes_image recipe) (attrs_image data))
      (default (recipes_cooking_time recipe) (attrs_cooking_time data))
      (request_user self) in
  ∃ s',
    Update validate_amount self recipe init data s = (inr recipe', s') ∧
    objects_get (tbl_recipes s') (recipes_id recipe) = Some recipe' ∧
    recipes_id <$> rows (tbl_recipes s') = recipes_id <$> rows (tbl_recipes s) ∧
    next_pk (tbl_recipes s') = next_pk (tbl_recipes s).
Proof.
  intros Hok Hr Hne Htne Hnd Htnd Hex Htex Hval recipe'.
  rewrite (Update_validate_ok validate_amount self recipe init data s
             (validated self init data)).
  2:{ apply validate_succeeds.
      - unfold ingredients_violation. tauto.
      - unfold tags_violation. tauto. }
  destruct (update_body_ok recipe (validated self init data) s)
    as (r' & s' & Hbody); try done.
  pose proof Hbody as Hinv.
  apply update_body_inv in Hinv as (s3 & Hrec & _ & Hts & Hsave).
  cbn [validated data_attrs data_author] in Hrec.
  fold recipe' in Hrec. subst r'.
  exists s'. split; [unfold update; by apply atomic_returns|].
  apply tags_set_frame in Hts as (T & -> & _).
  match type of Hsave with
  | Recipes_save ?r ?s3 = _ =>
      pose proof (Recipes_save_in r s3) as Hin;
      destruct (Recipes_save_ids r s3) as [Hids Hnext]; [done|]
  end.
  rewrite Hsave in Hin, Hids, Hnext. simpl in Hin, Hids, Hnext.
  assert (NoDup (recipes_id <$> rows (tbl_recipes s'))) as Hnd'.
  { rewrite Hids. apply (ok_recipes s Hok). }
  split; [|done].
  exact (objects_get_unique (tbl_recipes s') recipe' Hnd' Hin).
Qed.
End update_row.

Lemma Update_stores_row_witness :
  store_ok demo_store ∧
  ∃ s',
    Update demo_validate_amount demo_request
      (mkRecipes 1 "porridge" "boil" "1.png" 10 20) demo_init_oil
      (mkAttrs None (Some "simmer") None (Some 40)) demo_store
    = (inr (mkRecipes 1 "porridge" "simmer" "1.png" 40 10), s') ∧
    objects_get (tbl_recipes s') 1
    = Some (mkRecipes 1 "porridge" "simmer" "1.png" 40 10) ∧
    recipes_id <$> rows (tbl_recipes s') = [1; 2; 3; 4; 5; 6] ∧
    next_pk (tbl_recipes s') = 7.
Proof.
  split; [apply demo_store_ok|].
  apply (Update_stores_row demo_validate_amount demo_request
           (mkRecipes 1 "porridge" "boil" "1.png" 10 20) demo_init_oil
           (mkAttrs None (Some "simmer") None (Some 40)) demo_store);
    [apply demo_store_ok|by_compute|done|done|by_compute|by_compute
    |by_compute|by_compute|repeat constructor].
Defined.

(** ** The inputs validation accepts *)

Section validate_accepts.
Variable validate_amount : Z → bool.

(** X8.  [validate] returns exactly on the inputs whose ingredient entries
    are not empty, resolve to stored ingredients, have distinct ids and
    accepted amounts, and whose tag ids are not empty, resolve to stored
    tags and are distinct; there is no other reason for a refusal.  What it
    returns is the data it was given with the requesting user as author and
    the two lists of the request as they came, and the store is unchanged. *)
Theorem validate_accepts_iff (self : request) (init : initial_data)
    (data : attrs) (s : store) :
  (∀ vd s', validate validate_amount self init data s = (inr vd, s') →
     vd = mkValidated data (request_user self) (entries init) (tag_ids init) ∧
     s' = s) ∧
  ((∃ vd s', validate validate_amount self init data s = (inr vd, s')) ↔
   (entries init ≠ [] ∧
    Forall (ingredient_exists s) (entries init) ∧
    NoDup (item_id <$> entries init) ∧
    Forall (λ x, validate_amount (item_amount x) = true) (entries init)) ∧
   (tag_ids init ≠ [] ∧
    Forall (tag_exists s) (tag_ids init) ∧
    NoDup (tag_ids init))).
Proof.
  destruct (validate_cases validate_amount self init data s)
    as [(Hn & Hv)|[(Hne & e & Hi & Hv)|[(Hi & Hne & Htn & Hv)|
        [(Hi & Hne & Htne & e & Ht & Hv)|(Hi & Hne & Htne & Ht & Hv)]]]];
    rewrite Hv.
  - split; [intros vd s' [=]|]. split; [intros (vd & s' & [=])|].
    intros [(Hne & _) _]. done.
  - split; [intros vd s' [=]|]. split; [intros (vd & s' & [=])|].
    intros [(_ & Hex & Hnd & Hval) _].
    assert (validate_ingredients validate_amount (entries init) [] s
            = (inr tt, s)) as Hok; [|congruence].
    apply validate_ingredients_ok. repeat split; try done.
    apply no_entry_in_nil.
  - split; [intros vd s' [=]|]. split; [intros (vd & s' & [=])|].
    intros [_ (Htne & _)]. done.
  - split; [intros vd s' [=]|]. split; [intros (vd & s' & [=])|].
    intros [_ (_ & Hex & Hnd)].
    assert (validate_tags (tag_ids init) [] s = (inr tt, s)) as Hok;
      [|congruence].
    apply validate_tags_ok. repeat split; try done. apply no_tag_in_nil.
  - split; [by intros vd s' [= <- <-]|]. split; [intros _|by eauto].
    apply validate_ingredients_ok in Hi as (Hex & Hval & Hnd & _).
    apply validate_tags_ok in Ht as (Htex & Htnd & _). done.
Qed.
End validate_accepts.

(** ** The recipes of the followed authors *)

Lemma subscribe_at_most_one (t : table Subscribe) (a u : Z) :
  unique_on subscribe_key t →
  (length (filter (λ f, subscribe_author f = a ∧ subscribe_user f = u)
             (rows t)) ≤ 1)%nat.
Proof.
  unfold unique_on. induction (rows t) as [|y l IH]; [simpl; lia|].
  rewrite fmap_cons. intros [Hy Hl]%NoDup_cons.
  rewrite filter_cons. case_decide as Hm; [|by apply IH].
  rewrite filter_none; [simpl; lia|].
  intros z Hz [Ha Hu]. apply Hy. apply list_elem_of_fmap. exists z.
  split; [|done]. unfold subscribe_key. destruct Hm as [-> ->].
  by rewrite Ha, Hu.
Qed.

Lemma bind_at_most_one {A B} (g : A → list B) (l : list A) :
  (∀ r, (length (g r) ≤ 1)%nat) →
  (r ← l; (λ _, r) <$> g r) `sublist_of` l.
Proof.
  intros Hg. induction l as [|y l IH]; [done|].
  rewrite bind_cons. specialize (Hg y).
  destruct (g y) as [|z [|z' k]]; simpl in *; [| |lia].
  - by apply sublist_cons.
  - by apply sublist_skip.
Qed.

Lemma Recipes_filter_following_NoDup u s :
  store_ok s → NoDup (recipes_id <$> Recipes_filter_following u s).
Proof.
  intros Hok. unfold Recipes_filter_following.
  rewrite order_by_id_desc_perm.
  eapply sublist_NoDup; [apply (ok_recipes s Hok)|].
  apply fmap_sublist.
  apply (bind_at_most_one
           (λ r, filter (λ f, subscribe_author f = recipes_author r ∧
                              subscribe_user f = u)
                   (rows (tbl_subscribe s)))).
  intros r. apply subscribe_at_most_one, (uniq_subscribe s Hok).
Qed.

Section recipes_of_followed.
Variable int : string → option Z.
Variable url : string → string.

(** X9.  On a well-formed store the [recipes] field never lists a recipe
    twice, and it is always a prefix of the full newest-first list of the
    recipes of the followed authors; the field fails only when a non-empty
    [recipes_limit] is given that is not a number, is negative, or is 2^63
    or more. *)
Theorem get_recipes_prefix_no_repeats (self : request) (obj : Subscribe)
    (s : store) :
  store_ok s →
  (∀ l, get_recipes int url self obj s = inr l →
     l `prefix_of`
       (ShortSerializer url <$>
          Recipes_filter_following (subscribe_user obj) s) ∧
     NoDup (short_id <$> l)) ∧
  (∀ e, get_recipes int url self obj s = inl e →
     ∃ str, request_GET self "recipes_limit" = Some str ∧ str ≠ "" ∧
       ((int str = None ∧ e = ValueError) ∨
        (∃ k, int str = Some k ∧ k < 0 ∧ e = NegativeIndex) ∨
        (∃ k, int str = Some k ∧ 2 ^ 63 ≤ k ∧ e = LimitOutOfRange))).
Proof.
  intros Hok.
  pose proof (Recipes_filter_following_NoDup (subscribe_user obj) s Hok)
    as Hnd.
  assert (∀ k, NoDup (short_id <$>
                 (ShortSerializer url <$>
                    take k (Recipes_filter_following (subscribe_user obj) s))))
    as Htake.
  { intros k. rewrite <- list_fmap_compose.
    eapply sublist_NoDup; [exact Hnd|].
    apply (fmap_sublist recipes_id), sublist_take. }
  unfold get_recipes.
  destruct (request_GET self "recipes_limit") as [[|c rest]|] eqn:Hget.
  - split; [|intros e [=]]. intros l [= <-]. split; [done|].
    rewrite <- list_fmap_compose. exact Hnd.
  - destruct (int (String c rest)) as [k|] eqn:Hint.
    + case_bool_decide as Hk; [|case_bool_decide as Hmax].
      * split; [intros l [=]|]. intros e [= <-].
        exists (String c rest). split; [done|]. split; [done|].
        right. left. by exists k.
      * split; [intros l [=]|]. intros e [= <-].
        exists (String c rest). split; [done|]. split; [done|].
        right. right. by exists k.
      * split; [|intros e [=]]. intros l [= <-]. split; [|apply Htake].
        rewrite fmap_take. apply prefix_take.
    + split; [intros l [=]|]. intros e [= <-].
      exists (String c rest). split; [done|]. split; [done|]. by left.
  - split; [|intros e [=]]. intros l [= <-]. split; [done|].
    rewrite <- list_fmap_compose. exact Hnd.
Qed.
End recipes_of_followed.

Lemma get_recipes_prefix_no_repeats_witness :
  store_ok demo_store ∧
  ∃ l, get_recipes int_decimal demo_url demo_request (mkSubscribe 1 10 20)
         demo_store = inr l ∧
    l `prefix_of`
      (ShortSerializer demo_url <$> Recipes_filter_following 10 demo_store) ∧
    NoDup (short_id <$> l).
Proof.
  split; [apply demo_store_ok|].
  exists [mkShort 6 "toast" (Some "/media/6.png") 3;
          mkShort 5 "salad" (Some "/media/5.png") 15].
  assert (get_recipes int_decimal demo_url demo_request (mkSubscribe 1 10 20)
            demo_store
          = inr [mkShort 6 "toast" (Some "/media/6.png") 3;
                 mkShort 5 "salad" (Some "/media/5.png") 15])
    as Hl by by vm_compute.
  split; [done|].
  exact (proj1 (get_recipes_prefix_no_repeats int_decimal demo_url
                  demo_request (mkSubscribe 1 10 20) demo_store
                  demo_store_ok) _ Hl).
Defined.

(** ** The unique fields of a tag *)

Lemma Forall_same_key {A K} `{EqDecision K} (key : A → K) (r : A)
    (l : list A) :
  Forall (λ y, bool_decide (key r = key y) = false) l ↔ key r ∉ key <$> l.
Proof.
  rewrite Forall_forall. split.
  - intros Hall (y & Hy & Hin)%list_elem_of_fmap. specialize (Hall y Hin).
    by apply bool_decide_eq_false in Hall.
  - intros Hn y Hin. apply bool_decide_eq_false. intros Heq. apply Hn.
    rewrite Heq. by apply list_elem_of_fmap_2.
Qed.

Lemma Tags_violated_None (t : table Tags) (r : Tags) :
  violated Tags_constraints t r = None ↔
  (tags_name r ∉ tags_name <$> rows t) ∧
  (tags_color r ∉ tags_color <$> rows t) ∧
  (tags_slug r ∉ tags_slug <$> rows t).
Proof.
  rewrite violated_None. unfold Tags_constraints.
  rewrite !Forall_cons, Forall_nil. simpl.
  rewrite (Forall_same_key tags_name), (Forall_same_key tags_color),
    (Forall_same_key tags_slug). tauto.
Qed.

Section tags_unique.
Variable validate_amount : Z → bool.

(** X10.  On every store reachable through the operations no two tags
    share a name, a color or a slug.  Creating a tag whose name, color or
    slug is already taken raises an IntegrityError and leaves the store as
    it was; otherwise the tag is appended under the next key of the
    sequence. *)
Theorem Tags_unique_fields (s : store) :
  reachable validate_amount s →
  (unique_on tags_name (tbl_tags s) ∧
   unique_on tags_color (tbl_tags s) ∧
   unique_on tags_slug (tbl_tags s)) ∧
  (∀ name color slug,
     name ∈ tags_name <$> rows (tbl_tags s) ∨
     color ∈ tags_color <$> rows (tbl_tags s) ∨
     slug ∈ tags_slug <$> rows (tbl_tags s) →
     ∃ c, Tags_objects_create name color slug s
          = (inl (IntegrityError c), s)) ∧
  (∀ name color slug,
     (name ∉ tags_name <$> rows (tbl_tags s)) →
     (color ∉ tags_color <$> rows (tbl_tags s)) →
     (slug ∉ tags_slug <$> rows (tbl_tags s)) →
     Tags_objects_create name color slug s
     = (inr (mkTags (next_pk (tbl_tags s)) name color slug),
        set_tags (Table (rows (tbl_tags s)
                         ++ [mkTags (next_pk (tbl_tags s)) name color slug])
                    (next_pk (tbl_tags s) + 1)) s)).
Proof.
  intros Hok%reachable_store_ok.
  split; [by destruct Hok|]. split.
  - intros name color slug Htaken. unfold Tags_objects_create.
    destruct (objects_create_cases tbl_tags set_tags Tags_constraints
                (λ i, mkTags i name color slug) s)
      as [(c & _ & ->)|[Hnone _]]; [by exists c|].
    apply Tags_violated_None in Hnone. simpl in Hnone. tauto.
  - intros name color slug Hn Hc Hs. unfold Tags_objects_create.
    destruct (objects_create_cases tbl_tags set_tags Tags_constraints
                (λ i, mkTags i name color slug) s)
      as [(c & Hsome & _)|[_ ->]]; [|done].
    assert (violated Tags_constraints (tbl_tags s)
              (mkTags (next_pk (tbl_tags s)) name color slug) = None)
      as Hnone; [|congruence].
    by apply Tags_violated_None.
Qed.
End tags_unique.

Lemma Tags_unique_fields_witness :
  reachable demo_validate_amount demo_reached ∧
  tags_slug <$> rows (tbl_tags demo_reached) = ["breakfast"] ∧
  ∃ c, Tags_objects_create "brunch" "#FFFFFF" "breakfast" demo_reached
       = (inl (IntegrityError c), demo_reached).
Proof.
  assert (reachable demo_validate_amount demo_reached) as Hr.
  { apply reachable_run_all. constructor. }
  split; [done|]. split; [by vm_compute|].
  apply (proj1 (proj2 (Tags_unique_fields demo_validate_amount demo_reached
                         Hr)) "brunch" "#FFFFFF" "breakfast").
  right. right. by_compute.
Defined.

(** ** Deleting an ingredient *)

Lemma references_cascade_ingredient (child : table IngredientInRecipe)
    (parent : table Ingredients) (iid : Z) :
  references iir_ingredient child parent →
  references iir_ingredient
    (table_delete (λ r, iir_ingredient r = iid) child)
    (table_delete (λ r, ingredients_id r = iid) parent).
Proof.
  unfold references. simpl. intros Hall. apply Forall_forall.
  intros r [Hne Hin]%list_elem_of_filter. rewrite Forall_forall in Hall.
  specialize (Hall r Hin). apply list_elem_of_fmap in Hall as (y & Hy & Hyin).
  apply list_elem_of_fmap. exists y. split; [done|].
  apply list_elem_of_filter. split; [|done]. simpl in *. congruence.
Qed.

(** X11.  Deleting an ingredient cascades to the through rows that name
    it and to nothing else: afterwards neither the ingredient nor a through
    row of it is in the store, the through rows of the other ingredients,
    the recipes and their tag links are all kept, and a well-formed store
    stays well formed.  The recipes that used the ingredient stay, with
    one ingredient less. *)
Theorem Ingredients_delete_cascades (ingredient : Ingredients) (s : store) :
  store_ok s →
  let s' := snd (Ingredients_delete ingredient s) in
  store_ok s' ∧
  (ingredients_id ingredient ∉ ingredients_id <$> rows (tbl_ingredients s')) ∧
  (ingredients_id ingredient ∉ iir_ingredient <$> rows (tbl_iir s')) ∧
  rows (tbl_iir s')
  = filter (λ r, iir_ingredient r ≠ ingredients_id ingredient)
      (rows (tbl_iir s)) ∧
  rows (tbl_ingredients s')
  = filter (λ r, ingredients_id r ≠ ingredients_id ingredient)
      (rows (tbl_ingredients s)) ∧
  tbl_recipes s' = tbl_recipes s ∧
  tbl_recipes_tags s' = tbl_recipes_tags s ∧
  tbl_tags s' = tbl_tags s ∧
  tbl_favorite s' = tbl_favorite s ∧
  tbl_cart s' = tbl_cart s ∧
  tbl_subscribe s' = tbl_subscribe s.
Proof.
  intros Hok s'. split.
  - destruct Hok. constructor; simpl; try done;
      try (by apply table_delete_ok); try (by apply unique_on_delete);
      try (by apply references_delete).
    by apply references_cascade_ingredient.
  - split; [apply not_elem_of_fmap_filter_ne|].
    split; [apply not_elem_of_fmap_filter_ne|]. by repeat split.
Qed.

Lemma Ingredients_delete_cascades_witness :
  store_ok demo_store ∧
  let s' := snd (Ingredients_delete (mkIngredients 1 "salt" "g") demo_store) in
  store_ok s' ∧
  rows (tbl_iir s') = [mkIngredientInRecipe 2 2 1 3] ∧
  ingredients_id <$> rows (tbl_ingredients s') = [2; 3] ∧
  tbl_recipes s' = tbl_recipes demo_store.
Proof.
  split; [apply demo_store_ok|].
  destruct (Ingredients_delete_cascades (mkIngredients 1 "salt" "g")
              demo_store demo_store_ok)
    as (Hok & _ & _ & Hiir & Hing & Hrec & _).
  split; [exact Hok|]. split; [by rewrite Hiir|].
  split; [by rewrite Hing|exact Hrec].
Defined.

(** ** No dangling reference on a reachable store *)

Section reachable_integrity.
Variable validate_amount : Z → bool.

(** X12.  Whatever sequence of operations has run, failed ones included,
    the store has no dangling reference: every through row names a stored
    recipe and a stored ingredient, every tag link a stored recipe and a
    stored tag, every favorite and cart entry a stored recipe.  No recipe
    has the same tag twice, and the keys of the recipes are distinct and
    below the next key of the sequence. *)
Theorem reachable_referential_integrity (s : store) :
  reachable validate_amount s →
  (∀ r, r ∈ rows (tbl_iir s) →
     iir_recipe r ∈ recipes_id <$> rows (tbl_recipes s) ∧
     iir_ingredient r ∈ ingredients_id <$> rows (tbl_ingredients s)) ∧
  (∀ l, l ∈ rows (tbl_recipes_tags s) →
     rt_recipes l ∈ recipes_id <$> rows (tbl_recipes s) ∧
     rt_tags l ∈ tags_id <$> rows (tbl_tags s)) ∧
  (∀ f, f ∈ rows (tbl_favorite s) ∨ f ∈ rows (tbl_cart s) →
     fc_recipe f ∈ recipes_id <$> rows (tbl_recipes s)) ∧
  NoDup (rt_key <$> rows (tbl_recipes_tags s)) ∧
  NoDup (recipes_id <$> rows (tbl_recipes s)) ∧
  (∀ r, r ∈ rows (tbl_recipes s) → recipes_id r < next_pk (tbl_recipes s)).
Proof.
  intros Hok%reachable_store_ok.
  pose proof (fk_iir_recipe s Hok) as H1.
  pose proof (fk_iir_ingredient s Hok) as H2.
  pose proof (fk_rt_recipes s Hok) as H3.
  pose proof (fk_rt_tags s Hok) as H4.
  pose proof (fk_favorite_recipe s Hok) as H5.
  pose proof (fk_cart_recipe s Hok) as H6.
  destruct (ok_recipes s Hok) as [Hnd Hlt].
  unfold references in *.
  rewrite Forall_forall in H1. rewrite Forall_forall in H2.
  rewrite Forall_forall in H3. rewrite Forall_forall in H4.
  rewrite Forall_forall in H5. rewrite Forall_forall in H6.
  rewrite Forall_forall in Hlt.
  split; [intros r Hr; split; [by apply H1|by apply H2]|].
  split; [intros l Hl; split; [by apply H3|by apply H4]|].
  split; [intros f [Hf|Hf]; [by apply H5|by apply H6]|].
  split; [apply (uniq_recipes_tags s Hok)|]. split; [done|].
  intros r Hr. by apply Hlt.
Qed.
End reachable_integrity.

Lemma reachable_referential_integrity_witness :
  reachable demo_validate_amount demo_reached ∧
  rows (tbl_iir demo_reached) = [mkIngredientInRecipe 1 1 1 5] ∧
  ∀ r, r ∈ rows (tbl_iir demo_reached) →
    iir_recipe r ∈ recipes_id <$> rows (tbl_recipes demo_reached) ∧
    iir_ingredient r ∈ ingredients_id <$> rows (tbl_ingredients demo_reached).
Proof.
  assert (reachable demo_validate_amount demo_reached) as Hr.
  { apply reachable_run_all. constructor. }
  split; [done|]. split; [by vm_compute|].
  exact (proj1 (reachable_referential_integrity demo_validate_amount
                  demo_reached Hr)).
Defined.

(** ** Which rows an Update re-creates *)

Lemma tags_set_common recipe objs s s' :
  tags_set recipe objs s = (inr tt, s') →
  ∀ l, l ∈ rows (tbl_recipes_tags s) → rt_recipes l = recipes_id recipe →
    (l ∈ rows (tbl_recipes_tags s') ↔ rt_tags l ∈ objs).
Proof.
  unfold tags_set, bind at 1, gets.
  destruct (tags_set_split objs
              (list_to_set (tags_values_list (recipes_id recipe) s)) [])
    as [old new] eqn:E.
  apply tags_set_split_spec in E as (Hold & H1 & _ & H3).
  unfold bind. simpl. intros ->%tags_add_inv l Hl Hr. simpl.
  assert (rt_tags l ∈ tags_values_list (recipes_id recipe) s) as Hv.
  { unfold tags_values_list, tags_through. apply list_elem_of_fmap_2.
    by apply list_elem_of_filter. }
  rewrite elem_of_app, list_elem_of_filter. split.
  - intros [[Hkeep _]|Hnew].
    + destruct (decide (rt_tags l ∈ objs)) as [|Hn]; [done|].
      exfalso. apply Hkeep. split; [done|]. rewrite Hold. set_solver.
    + assert (rt_tags l ∈ rt_tags <$>
                new_rt (next_pk (tbl_recipes_tags s)) (recipes_id recipe)
                  (elements (list_to_set new ∖
                     list_to_set (tags_values_list (recipes_id recipe)
                        (set_recipes_tags
                           (table_delete
                              (λ l, rt_recipes l = recipes_id recipe ∧
                                    rt_tags l ∈ old)
                              (tbl_recipes_tags s)) s)) : gset Z)))
        as Ht by by apply list_elem_of_fmap_2.
      rewrite new_rt_tags in Ht. apply elem_of_elements in Ht.
      apply elem_of_difference in Ht as [Ht _].
      apply elem_of_list_to_set in Ht.
      destruct (H1 _ Ht) as [Hnil|?]; [by apply elem_of_nil in Hnil|done].
  - intros Hin. left. split; [|done]. intros [_ Ho]. rewrite Hold in Ho.
    set_solver.
Qed.

Section update_rows.
Variable validate_amount : Z → bool.

(** X14.  A valid Update rebuilds the ingredients and diffs the tags.
    Every through row the recipe had is deleted, also when the new entries
    name the same ingredient with the same amount, and the through rows it
    has afterwards all carry new primary keys.  A tag link the recipe had
    is still there, as the same row, exactly when its tag is among the new
    tag ids. *)
Theorem Update_rebuilds_ingredients_diffs_tags (self : request)
    (recipe : Recipes) (init : initial_data) (data : attrs) (s : store) :
  store_ok s →
  recipes_id recipe ∈ recipes_id <$> rows (tbl_recipes s) →
  entries init ≠ [] → tag_ids init ≠ [] →
  NoDup (item_id <$> entries init) → NoDup (tag_ids init) →
  Forall (ingredient_exists s) (entries init) →
  Forall (tag_exists s) (tag_ids init) →
  Forall (λ x, validate_amount (item_amount x) = true) (entries init) →
  ∃ recipe' s',
    Update validate_amount self recipe init data s = (inr recipe', s') ∧
    (∀ r, r ∈ rows (tbl_iir s) → iir_recipe r = recipes_id recipe →
       r ∉ rows (tbl_iir s')) ∧
    (∀ r, r ∈ rows (tbl_iir s') → iir_recipe r = recipes_id recipe →
       next_pk (tbl_iir s) ≤ iir_id r) ∧
    (∀ l, l ∈ rows (tbl_recipes_tags s) →
       rt_recipes l = recipes_id recipe →
       (l ∈ rows (tbl_recipes_tags s') ↔ rt_tags l ∈ tag_ids init)).
Proof.
  intros Hok Hr Hne Htne Hnd Htnd Hex Htex Hval.
  rewrite (Update_validate_ok validate_amount self recipe init data s
             (validated self init data)).
  2:{ apply validate_succeeds.
      - unfold ingredients_violation. tauto.
      - unfold tags_violation. tauto. }
  destruct (update_body_ok recipe (validated self init data) s)
    as (recipe' & s' & Hbody); try done.
  exists recipe', s'. split; [unfold update; by apply atomic_returns|].
  apply update_body_inv in Hbody as (s3 & _ & _ & Hts & Hsave).
  pose proof (tags_set_common _ _ _ _ Hts) as Hcommon.
  apply tags_set_frame in Hts as (T & -> & _).
  match type of Hsave with
  | Recipes_save ?r ?s3 = _ => destruct (Recipes_save_frame r s3) as [T' Hfr]
  end.
  rewrite Hsave in Hfr. injection Hfr as ->.
  simpl in Hcommon. simpl.
  destruct (ok_iir s Hok) as [_ Hlt]. rewrite Forall_forall in Hlt.
  split; [|split; [|done]].
  - intros r Hin Hrid. rewrite elem_of_app, list_elem_of_filter.
    intros [[Hne' _]|Hnew%new_iir_ids]; [done|].
    specialize (Hlt r Hin). simpl in Hlt. lia.
  - intros r Hin Hrid. apply elem_of_app in Hin as [Hin|Hin].
    + by apply list_elem_of_filter in Hin as [? _].
    + by apply new_iir_ids in Hin.
Qed.
End update_rows.

Lemma Update_rebuilds_ingredients_diffs_tags_witness :
  store_ok demo_store ∧
  ∃ recipe' s',
    Update demo_validate_amount demo_request
      (mkRecipes 1 "porridge" "boil" "1.png" 10 20) demo_init demo_attrs
      demo_store = (inr recipe', s') ∧
    (∀ r, r ∈ rows (tbl_iir demo_store) → iir_recipe r = 1 →
       r ∉ rows (tbl_iir s')) ∧
    (∀ r, r ∈ rows (tbl_iir s') → iir_recipe r = 1 → 3 ≤ iir_id r) ∧
    (∀ l, l ∈ rows (tbl_recipes_tags demo_store) → rt_recipes l = 1 →
       (l ∈ rows (tbl_recipes_tags s') ↔ rt_tags l ∈ tag_ids demo_init)).
Proof.
  split; [apply demo_store_ok|].
  apply (Update_rebuilds_ingredients_diffs_tags demo_validate_amount
           demo_request (mkRecipes 1 "porridge" "boil" "1.png" 10 20)
           demo_init demo_attrs demo_store);
    [apply demo_store_ok|by_compute|done|done|by_compute|by_compute
    |by_compute|by_compute|repeat constructor].
Defined.

(** ** A new recipe in the list of a follower *)

Lemma order_by_id_desc_newest (recipe : Recipes) (l : list Recipes) :
  NoDup (recipes_id <$> l) →
  Forall (λ r, recipes_id r < recipes_id recipe) l →
  order_by_id_desc (l ++ [recipe]) = recipe :: order_by_id_desc l.
Proof.
  intros Hnd Hlt.
  assert (NoDup (recipes_id <$> l ++ [recipe])) as Hnd'.
  { rewrite fmap_app. apply NoDup_app. split; [done|].
    split; [|apply NoDup_singleton].
    intros x (r & -> & Hr)%list_elem_of_fmap Hx.
    apply list_elem_of_singleton in Hx. rewrite Forall_forall in Hlt.
    specialize (Hlt r Hr). simpl in *. lia. }
  apply (StronglySorted_unique_strong id_desc).
  - intros r1 r2 H1 H2 H12 H21. unfold id_desc in *. simpl in *.
    rewrite order_by_id_desc_perm in H1.
    assert (r2 ∈ l ++ [recipe]) as H2'.
    { apply elem_of_cons in H2 as [->|H2].
      - apply elem_of_app. right. by apply list_elem_of_singleton.
      - rewrite order_by_id_desc_perm in H2. apply elem_of_app. by left. }
    apply (NoDup_fmap_same recipes_id (l ++ [recipe])); [done|done|done|lia].
  - apply order_by_id_desc_sorted.
  - constructor; [apply order_by_id_desc_sorted|].
    apply Forall_forall. intros r Hr. rewrite order_by_id_desc_perm in Hr.
    rewrite Forall_forall in Hlt. specialize (Hlt r Hr).
    unfold id_desc. simpl. lia.
  - rewrite !order_by_id_desc_perm.
    by rewrite Permutation_app_comm.
Qed.

Lemma filter_following_extend u recipe (t : store) n s :
  store_ok s →
  recipes_id recipe = next_pk (tbl_recipes s) →
  tbl_recipes t = Table (rows (tbl_recipes s) ++ [recipe]) n →
  tbl_subscribe t = tbl_subscribe s →
  ((∃ f, f ∈ rows (tbl_subscribe s) ∧ subscribe_user f = u ∧
         subscribe_author f = recipes_author recipe) →
   Recipes_filter_following u t = recipe :: Recipes_filter_following u s) ∧
  ((∀ f, f ∈ rows (tbl_subscribe s) → subscribe_user f = u →
         subscribe_author f ≠ recipes_author recipe) →
   Recipes_filter_following u t = Recipes_filter_following u s).
Proof.
  intros Hok Hid Hrec Hsub. unfold Recipes_filter_following.
  rewrite Hrec, Hsub. simpl rows. rewrite bind_app, bind_cons.
  change (([] : list Recipes) ≫= _) with (@nil Recipes) at 1.
  rewrite app_nil_r.
  set (old := r ← rows (tbl_recipes s);
              (λ _, r) <$> filter (λ f, subscribe_author f = recipes_author r
                                        ∧ subscribe_user f = u)
                             (rows (tbl_subscribe s))).
  assert (old `sublist_of` rows (tbl_recipes s)) as Hsl.
  { apply (bind_at_most_one
             (λ r, filter (λ f, subscribe_author f = recipes_author r ∧
                                subscribe_user f = u)
                     (rows (tbl_subscribe s)))).
    intros r. apply subscribe_at_most_one, (uniq_subscribe s Hok). }
  destruct (ok_recipes s Hok) as [Hnd Hlt].
  pose proof (subscribe_at_most_one (tbl_subscribe s) (recipes_author recipe)
                u (uniq_subscribe s Hok)) as Hone.
  split.
  - intros (f & Hf & Hu & Ha).
    assert (f ∈ filter (λ f, subscribe_author f = recipes_author recipe ∧
                             subscribe_user f = u)
                  (rows (tbl_subscribe s))) as Hin
      by by apply list_elem_of_filter.
    destruct (filter _ (rows (tbl_subscribe s))) as [|f1 [|f2 k]];
      [by apply elem_of_nil in Hin| |simpl in Hone; lia].
    simpl. apply order_by_id_desc_newest.
    + eapply sublist_NoDup; [exact Hnd|]. by apply fmap_sublist.
    + rewrite Hid. apply Forall_forall. intros r Hr.
      rewrite Forall_forall in Hlt. apply Hlt.
      by apply (elem_of_sublist old).
  - intros Hnone. rewrite filter_none; [simpl; by rewrite app_nil_r|].
    intros f Hf [Ha Hu]. by apply (Hnone f).
Qed.

Section create_followed.
Variable validate_amount : Z → bool.

(** X15.  After a valid Create the new recipe is the first of the recipes
    of followed authors for every user with a subscription to the
    requesting user, and the rest of their list is what it was; for a user
    without such a subscription the list is unchanged. *)
Theorem Create_then_followed (self : request) (init : initial_data)
    (data : attrs) (s : store) (image : string) (cooking_time : Z) (u : Z) :
  store_ok s →
  attrs_image data = Some image →
  attrs_cooking_time data = Some cooking_time →
  entries init ≠ [] → tag_ids init ≠ [] →
  NoDup (item_id <$> entries init) → NoDup (tag_ids init) →
  Forall (ingredient_exists s) (entries init) →
  Forall (tag_exists s) (tag_ids init) →
  Forall (λ x, validate_amount (item_amount x) = true) (entries init) →
  ∃ recipe s',
    Create validate_amount self init data s = (inr recipe, s') ∧
    ((∃ f, f ∈ rows (tbl_subscribe s) ∧ subscribe_user f = u ∧
           subscribe_author f = request_user self) →
     Recipes_filter_following u s'
     = recipe :: Recipes_filter_following u s) ∧
    ((∀ f, f ∈ rows (tbl_subscribe s) → subscribe_user f = u →
           subscribe_author f ≠ request_user self) →
     Recipes_filter_following u s' = Recipes_filter_following u s).
Proof.
  intros Hok Himg Hct Hne Htne Hnd Htnd Hex Htex Hval.
  pose proof (Create_valid_shape validate_amount self init data s image
                cooking_time Hok Himg Hct Hne Htne Hnd Htnd Hex Htex Hval)
    as Hshape.
  exists (new_recipe self data image cooking_time s),
    (created (new_recipe self data image cooking_time s) (entries init)
       (tag_ids init) s).
  split; [done|].
  apply (filter_following_extend u (new_recipe self data image cooking_time s)
           _ (next_pk (tbl_recipes s) + 1) s); done.
Qed.
End create_followed.

Lemma Create_then_followed_witness :
  store_ok demo_store ∧
  ∃ recipe s',
    Create demo_validate_amount (mkRequest 20 (λ _, None)) demo_init
      demo_attrs demo_store = (inr recipe, s') ∧
    recipes_id <$> Recipes_filter_following 10 demo_store = [6; 5; 3; 2; 1] ∧
    recipes_id <$> Recipes_filter_following 10 s' = [7; 6; 5; 3; 2; 1].
Proof.
  split; [apply demo_store_ok|].
  destruct (Create_then_followed demo_validate_amount
              (mkRequest 20 (λ _, None)) demo_init demo_attrs demo_store
              "soup.png" 40 10)
    as (recipe & s' & Hcreate & Hfollowed & _);
    [apply demo_store_ok|done|done|done|done|by_compute|by_compute
    |by_compute|by_compute|repeat constructor|].
  exists recipe, s'. split; [done|]. split; [by vm_compute|].
  rewrite Hfollowed.
  - revert Hcreate. vm_compute. by intros [= <- _].
  - exists (mkSubscribe 1 10 20). split; [by_compute|done].
Defined.

(** ** A deleted recipe in the list of a follower *)

Lemma StronglySorted_filter {A} (R : relation A) (P : A → Prop)
    `{∀ x, Decision (P x)} (l : list A) :
  StronglySorted R l → StronglySorted R (filter P l).
Proof.
  induction 1 as [|x l Hl IH Hx]; [constructor|].
  rewrite filter_cons. case_decide; [|done]. constructor; [done|].
  apply Forall_forall. intros y [_ Hy]%list_elem_of_filter.
  rewrite Forall_forall in Hx. by apply Hx.
Qed.

Lemma order_by_id_desc_filter (P : Recipes → Prop) `{∀ x, Decision (P x)}
    (l : list Recipes) :
  NoDup (recipes_id <$> l) →
  order_by_id_desc (filter P l) = filter P (order_by_id_desc l).
Proof.
  intros Hnd. apply (StronglySorted_unique_strong id_desc).
  - intros r1 r2 H1 H2 H12 H21. unfold id_desc in *. simpl in *.
    rewrite order_by_id_desc_perm in H1.
    apply list_elem_of_filter in H1 as [_ H1].
    apply list_elem_of_filter in H2 as [_ H2].
    rewrite order_by_id_desc_perm in H2.
    apply (NoDup_fmap_same recipes_id l); [done|done|done|lia].
  - apply order_by_id_desc_sorted.
  - apply StronglySorted_filter, order_by_id_desc_sorted.
  - by rewrite !order_by_id_desc_perm.
Qed.

Lemma bind_filter_const {A B} (P : A → Prop) `{∀ x, Decision (P x)}
    (g : A → list B) (l : list A) :
  (r ← filter P l; (λ _, r) <$> g r)
  = filter P (r ← l; (λ _, r) <$> g r).
Proof.
  induction l as [|y l IH]; [done|].
  rewrite bind_cons, filter_app, <- IH, filter_cons.
  case_decide as Hy.
  - rewrite bind_cons. f_equal. symmetry. apply filter_all.
    intros x (b & Hx & _)%list_elem_of_fmap. simpl in Hx. by subst x.
  - rewrite (filter_none P ((λ _, y) <$> g y)); [done|].
    intros x (b & Hx & _)%list_elem_of_fmap. simpl in Hx. by subst x.
Qed.

(** X16.  On a well-formed store, deleting a recipe takes it, and nothing
    else, out of the recipes of followed authors of every user: the list
    after the Delete is the list before it without the recipe, in the same
    order. *)
Theorem Delete_then_followed (recipe : Recipes) (u : Z) (s : store) :
  store_ok s →
  Recipes_filter_following u (snd (Delete recipe s))
  = filter (λ r, recipes_id r ≠ recipes_id recipe)
      (Recipes_filter_following u s) ∧
  (recipes_id recipe
     ∉ recipes_id <$> Recipes_filter_following u (snd (Delete recipe s))).
Proof.
  intros Hok.
  assert (Recipes_filter_following u (snd (Delete recipe s))
          = filter (λ r, recipes_id r ≠ recipes_id recipe)
              (Recipes_filter_following u s)) as Heq.
  { unfold Recipes_filter_following, Delete, delete, Recipes_delete, modify.
    simpl.
    rewrite (bind_filter_const (λ r, ¬ recipes_id r = recipes_id recipe)
               (λ r, filter (λ f, subscribe_author f = recipes_author r ∧
                                  subscribe_user f = u)
                       (rows (tbl_subscribe s)))).
    apply order_by_id_desc_filter.
    eapply sublist_NoDup; [apply (ok_recipes s Hok)|].
    apply fmap_sublist.
    apply (bind_at_most_one
             (λ r, filter (λ f, subscribe_author f = recipes_author r ∧
                                subscribe_user f = u)
                     (rows (tbl_subscribe s)))).
    intros r. apply subscribe_at_most_one, (uniq_subscribe s Hok). }
  split; [done|]. rewrite Heq.
  intros (r & Hr & Hin)%list_elem_of_fmap.
  apply list_elem_of_filter in Hin as [Hne _]. by apply Hne.
Qed.

Lemma Delete_then_followed_witness :
  store_ok demo_store ∧
  recipes_id <$> Recipes_filter_following 10 demo_store = [6; 5; 3; 2; 1] ∧
  recipes_id <$>
    Recipes_filter_following 10
      (snd (Delete (mkRecipes 3 "pancakes" "bake" "3.png" 30 20) demo_store))
  = [6; 5; 2; 1].
Proof.
  split; [apply demo_store_ok|]. split; [by vm_compute|].
  rewrite (proj1 (Delete_then_followed
                    (mkRecipes 3 "pancakes" "bake" "3.png" 30 20) 10
                    demo_store demo_store_ok)).
  by vm_compute.
Defined.
